(** * Index cards on Avery 5388 sheets: the auto-fit layout engine

    A shallow embedding of [bear-index-cards-bulk-avery-scale-title.py]:
    the three font fitters ([auto_scale_text], [fit_title_font],
    [calculate_footer_font]), the card composer ([create_card_content]),
    the record parser ([parse_markdown]) and the sheet loop
    ([make_avery5388_pdf]), together with the two library functions whose
    behaviour the fitters depend on: Python's [textwrap.wrap] and
    reportlab's [pdfmetrics.stringWidth].  The markup parser that
    reportlab runs when a [Paragraph] is constructed, the Markdown
    analyzer and the directory listing are parameters of the program.

    Conventions of the embedding.
    - A Python [str] is a [string]; its characters are 8-bit codes (the
      Latin-1 range of Unicode).
    - A Python number is a rational [Q]: sizes, widths and heights are
      computed exactly, rounding of binary floating point is not part of
      the model.  The loop variables ([font_size -= 0.5]) are kept in
      lowest terms, so that equal sizes are equal terms.  One number is
      left to the interpreter: the line limit of the fallback of
      [auto_scale_text], a truncated quotient that decides how many
      lines are returned, is the parameter [line_limit].
    - A Python call that may raise is a computation in [result]: [inl e]
      is the raised exception, [inr v] the returned value.
    - A [while] loop is a [Fixpoint] on a step bound; reaching the bound
      is the pseudo-exception [OutOfFuel], which the loops of the program
      are shown never to raise. *)

From Stdlib Require Import ZArith QArith Qround List String Ascii Bool Lia Lqa.
From Stdlib Require Import DecimalString Sorted Permutation.
Import ListNotations.

Set Implicit Arguments.
Open Scope string_scope.
Open Scope Z_scope.

(* ===================================================================== *)
(** ** The Python runtime: exceptions and built-ins *)
(* ===================================================================== *)

Module Py.

Inductive exn : Type :=
| ValueError (msg : string)
| ZeroDivisionError (msg : string)
| UnboundLocalError (msg : string)
| OtherException (msg : string)   (* an exception raised by a library outside the model *)
| OutOfFuel.                      (* not a Python exception: a loop bound of the model *)

Definition result (A : Type) : Type := (exn + A)%type.

Definition ret {A} (a : A) : result A := inr a.
Definition raise {A} (e : exn) : result A := inl e.
Definition bind {A B} (m : result A) (k : A -> result B) : result B :=
  match m with
  | inl e => inl e
  | inr a => k a
  end.

(** [str(e)] for an exception [e]. *)
Definition str_exn (e : exn) : string :=
  match e with
  | ValueError msg | ZeroDivisionError msg
  | UnboundLocalError msg | OtherException msg => msg
  | OutOfFuel => "out of fuel"
  end.

(** [x / y] on numbers. *)
Definition truediv (x y : Q) : result Q :=
  if Qeq_bool y 0 then raise (ZeroDivisionError "float division by zero")
  else ret (x / y)%Q.

(** [int(x)]: truncation towards zero. *)
Definition int (x : Q) : Z := Z.quot (Qnum x) (Z.pos (Qden x)).

(** [len(l)] as a Python integer. *)
Definition len {A} (l : list A) : Z := Z.of_nat (List.length l).

(** [l[:k]]: a negative [k] counts from the end. *)
Definition slice_to {A} (k : Z) (l : list A) : list A :=
  if k <? 0 then firstn (Z.to_nat (len l + k)) l else firstn (Z.to_nat k) l.

(** [s[:n]] and [s[n:]] on strings, for [n >= 0]. *)
Definition str_slice_to (n : nat) (s : string) : string := substring 0 n s.

Fixpoint str_slice_from (n : nat) (s : string) : string :=
  match n, s with
  | O, _ => s
  | S n', String _ s' => str_slice_from n' s'
  | S _, EmptyString => EmptyString
  end.

(** [l.append(x)]: the list after the call. *)
Definition append {A} (l : list A) (x : A) : list A := (l ++ [x])%list.

(** [sep.join(l)]. *)
Definition join (sep : string) (l : list string) : string := String.concat sep l.

Definition code (c : ascii) : N := N_of_ascii c.

(** [c.isspace()], which is also the class [\s] of [re] on [str]. *)
Definition isspace (c : ascii) : bool :=
  let n := code c in
  ((9 <=? n) && (n <=? 13) || (28 <=? n) && (n <=? 32) || (n =? 133) || (n =? 160))%N.

(** [\d] of [re]: the decimal digits. *)
Definition isdecimal (c : ascii) : bool :=
  let n := code c in ((48 <=? n) && (n <=? 57))%N.

(** [\w] of [re]: alphanumeric characters and the underscore. *)
Definition isword (c : ascii) : bool :=
  let n := code c in
  ((48 <=? n) && (n <=? 57) || (65 <=? n) && (n <=? 90) || (n =? 95)
   || (97 <=? n) && (n <=? 122)
   || (n =? 170) || (n =? 178) || (n =? 179) || (n =? 181) || (n =? 185)
   || (n =? 186) || (188 <=? n) && (n <=? 190)
   || (192 <=? n) && (n <=? 214) || (216 <=? n) && (n <=? 246)
   || (248 <=? n) && (n <=? 255))%N.

Fixpoint str_forallb (P : ascii -> bool) (s : string) : bool :=
  match s with
  | EmptyString => true
  | String c s' => P c && str_forallb P s'
  end.

(** [s.lstrip()], [s.rstrip()], [s.strip()]. *)
Fixpoint lstrip (s : string) : string :=
  match s with
  | String c s' => if isspace c then lstrip s' else s
  | EmptyString => EmptyString
  end.

Fixpoint rstrip (s : string) : string :=
  match s with
  | EmptyString => EmptyString
  | String c s' =>
      match rstrip s' with
      | EmptyString => if isspace c then EmptyString else String c EmptyString
      | r => String c r
      end
  end.

Definition strip (s : string) : string := rstrip (lstrip s).

(** [s.startswith(p)] and [s.endswith(p)]. *)
Definition startswith (p s : string) : bool := String.prefix p s.

Definition endswith (p s : string) : bool :=
  (String.length p <=? String.length s)%nat
  && String.eqb (str_slice_from (String.length s - String.length p) s) p.

(** [s.replace(old, new)] for a non-empty [old]: leftmost occurrences,
    not overlapping. *)
Fixpoint replace_fuel (fuel : nat) (old new s : string) : string :=
  match fuel with
  | O => s
  | S fuel' =>
      if String.prefix old s
      then new ++ replace_fuel fuel' old new (str_slice_from (String.length old) s)
      else match s with
           | EmptyString => EmptyString
           | String c s' => String c (replace_fuel fuel' old new s')
           end
  end.

Definition replace (old new s : string) : string :=
  replace_fuel (S (String.length s)) old new s.

End Py.

Import Py.

Declare Scope py_scope.
Delimit Scope py_scope with py.
Notation "x <- m ;; k" := (bind m (fun x => k))
  (at level 61, m at next level, right associativity) : py_scope.
Notation "' pat <- m ;; k" := (bind m (fun x => match x with pat => k end))
  (at level 61, pat pattern, m at next level, right associativity) : py_scope.
Open Scope py_scope.

(* ===================================================================== *)
(** ** [textwrap.wrap] with the default options

    [expand_tabs], [replace_whitespace], [drop_whitespace],
    [break_long_words] and [break_on_hyphens] are on, the indents are
    empty, [fix_sentence_endings] is off and [max_lines] is [None]. *)
(* ===================================================================== *)

Module textwrap.

(** [_whitespace = '\t\n\x0b\x0c\r '] *)
Definition _whitespace (c : ascii) : bool :=
  let n := code c in ((9 <=? n) && (n <=? 13) || (n =? 32))%N.

Definition space : ascii := " "%char.
Definition hyphen : ascii := "-"%char.

Definition is_hyphen (c : ascii) : bool := Ascii.eqb c hyphen.

(** [text.expandtabs(tabsize)] for [tabsize > 0]; [col] is the column in
    the current line. *)
Fixpoint expandtabs_from (tabsize col : nat) (text : list ascii) : list ascii :=
  match text with
  | [] => []
  | c :: rest =>
      if (code c =? 9)%N then
        let incr := (tabsize - col mod tabsize)%nat in
        (repeat space incr ++ expandtabs_from tabsize (col + incr) rest)%list
      else if ((code c =? 10) || (code c =? 13))%N then
        c :: expandtabs_from tabsize 0 rest
      else c :: expandtabs_from tabsize (S col) rest
  end.

Definition _munge_whitespace (text : string) : list ascii :=
  let text := expandtabs_from 8 0 (list_ascii_of_string text) in
  map (fun c => if _whitespace c then space else c) text.

(** *** The chunk regular expression [wordsep_re]

    The text is read by position; a look-behind may read before the start
    of the match. *)

Definition at_ (text : list ascii) (i : Z) : option ascii :=
  if i <? 0 then None else nth_error text (Z.to_nat i).

Definition is_at (P : ascii -> bool) (text : list ascii) (i : Z) : bool :=
  match at_ text i with
  | Some c => P c
  | None => false
  end.

Fixpoint run (P : ascii -> bool) (text : list ascii) : nat :=
  match text with
  | c :: rest => if P c then S (run P rest) else O
  | [] => O
  end.

(** The length of the run of [P] that starts at position [i]. *)
Definition run_at (P : ascii -> bool) (text : list ascii) (i : Z) : Z :=
  if i <? 0 then 0 else Z.of_nat (run P (skipn (Z.to_nat i) text)).

(** [word_punct]: a word character or one of the seven punctuation marks
    (codes 33, 34, 38, 39, 44, 46, 63); [letter = [^\d\W]]. *)
Definition word_punct (c : ascii) : bool :=
  let n := code c in
  isword c || ((n =? 33) || (n =? 34) || (n =? 39) || (n =? 38)
               || (n =? 46) || (n =? 44) || (n =? 63))%N.

Definition letter (c : ascii) : bool := isword c && negb (isdecimal c).

(** [-{2,} (?=\w)] at position [i]: the length of the dash, if any. *)
Definition dashes_then_word (text : list ascii) (i : Z) : option Z :=
  let k := run_at is_hyphen text i in
  if (2 <=? k) && is_at isword text (i + k) then Some k else None.

(** Second alternative: [(?<=wp) -{2,} (?=\w)]. *)
Definition em_dash (text : list ascii) (p : Z) : option Z :=
  if is_at word_punct text (p - 1) then dashes_then_word text p else None.

(** The three ways a word chunk that started at [p] may end at [q]. *)
Definition hyphenated (text : list ascii) (q : Z) : bool :=
  is_at is_hyphen text q
  && (is_at letter text (q - 2) && is_at letter text (q - 1)
      || is_at letter text (q - 3) && is_at is_hyphen text (q - 2)
         && is_at letter text (q - 1))
  && is_at letter text (q + 1)
  && (is_at is_hyphen text (q + 2) && is_at letter text (q + 3)
      || is_at letter text (q + 2)).

Definition end_of_word (text : list ascii) (q : Z) : bool :=
  match at_ text q with
  | Some c => _whitespace c
  | None => true
  end.

Definition before_em_dash (text : list ascii) (q : Z) : bool :=
  is_at word_punct text (q - 1)
  && match dashes_then_word text q with Some _ => true | None => false end.

(** Third alternative: [nws+?] followed by one of the three ends; the
    shortest [n] wins.  The characters [p .. p+n-1] are not whitespace. *)
Fixpoint word (fuel : nat) (text : list ascii) (p n : Z) : Z :=
  match fuel with
  | O => n
  | S fuel' =>
      let q := p + n in
      if hyphenated text q then n + 1
      else if end_of_word text q then n
      else if before_em_dash text q then n
      else word fuel' text p (n + 1)
  end.

(** The length of the match of [wordsep_re] at [p], a position inside
    the text. *)
Definition wordsep_match (text : list ascii) (p : Z) : Z :=
  if is_at _whitespace text p then run_at _whitespace text p
  else match em_dash text p with
       | Some k => k
       | None => word (List.length text) text p 1
       end.

Definition substr (text : list ascii) (p n : Z) : string :=
  string_of_list_ascii (firstn (Z.to_nat n) (skipn (Z.to_nat p) text)).

(** [wordsep_re.split(text)] without the empty strings. *)
Fixpoint split_from (fuel : nat) (text : list ascii) (p : Z) : list string :=
  match fuel with
  | O => []
  | S fuel' =>
      if p <? len text then
        let n := Z.max 1 (wordsep_match text p) in
        substr text p n :: split_from fuel' text (p + n)
      else []
  end.

Definition _split (text : list ascii) : list string :=
  split_from (List.length text) text 0.

Definition _split_chunks (text : string) : list string :=
  _split (_munge_whitespace text).

(** *** [_wrap_chunks] *)

(** [chunk.strip() == ''] *)
Definition blank (chunk : string) : bool := str_forallb isspace chunk.

Definition strlen (s : string) : Z := Z.of_nat (String.length s).

(** [sum(map(len, cur_line))] *)
Definition total_len (cur_line : list string) : Z :=
  fold_right (fun c acc => strlen c + acc) 0 cur_line.

(** [chunk.rfind('-', 0, stop)]: the highest index below [stop] that holds
    a hyphen, or [-1]. *)
Fixpoint rfind_from (i : Z) (stop : nat) (chunk : string) : Z :=
  match stop, chunk with
  | S stop', String c rest =>
      let r := rfind_from (i + 1) stop' rest in
      if 0 <=? r then r else if is_hyphen c then i else -1
  | _, _ => -1
  end.

Definition rfind_hyphen (chunk : string) (stop : Z) : Z :=
  rfind_from 0 (Z.to_nat stop) chunk.

(** [any(c != '-' for c in chunk)] *)
Definition any_non_hyphen (chunk : string) : bool :=
  negb (str_forallb is_hyphen chunk).

(** Where a chunk too long for the space left is cut: after its last
    hyphen within the space, when that hyphen has a character other than
    a hyphen before it, else at the space left. *)
Definition break_point (chunk : string) (space_left : Z) : Z :=
  if space_left <? strlen chunk then
    let hy := rfind_hyphen chunk space_left in
    if (0 <? hy) && any_non_hyphen (str_slice_to (Z.to_nat hy) chunk)
    then hy + 1 else space_left
  else space_left.

(** [_handle_long_word]: the head of [chunks] is too long for any line;
    as much of it as fits goes on the current line. *)
Definition _handle_long_word (chunks cur_line : list string) (cur_len width : Z)
  : list string * list string :=
  let space_left := if width <? 1 then 1 else width - cur_len in
  match chunks with
  | [] => (chunks, cur_line)
  | chunk :: rest =>
      let end_ := break_point chunk space_left in
      (str_slice_from (Z.to_nat end_) chunk :: rest,
       append cur_line (str_slice_to (Z.to_nat end_) chunk))
  end.

(** The inner loop: chunks are put on the line while they fit. *)
Fixpoint fill_line (width : Z) (chunks cur_line : list string) (cur_len : Z)
  : list string * list string * Z :=
  match chunks with
  | [] => (chunks, cur_line, cur_len)
  | chunk :: rest =>
      let l := strlen chunk in
      if cur_len + l <=? width
      then fill_line width rest (append cur_line chunk) (cur_len + l)
      else (chunks, cur_line, cur_len)
  end.

(** First chunk on line is whitespace -- drop it, unless this is the very
    beginning of the text (no line yet). *)
Definition drop_leading (chunks lines : list string) : list string :=
  match chunks, lines with
  | chunk :: rest, _ :: _ => if blank chunk then rest else chunks
  | _, _ => chunks
  end.

(** If the last chunk on this line is all whitespace, drop it. *)
Definition drop_trailing (cur_line : list string) : list string :=
  match rev cur_line with
  | last_chunk :: before => if blank last_chunk then rev before else cur_line
  | [] => cur_line
  end.

(** One pass of the outer loop: the chunks left and the line built. *)
Definition next_line (width : Z) (chunks lines : list string)
  : list string * list string :=
  let chunks := drop_leading chunks lines in
  let '(chunks, cur_line, cur_len) := fill_line width chunks [] 0 in
  (* The next chunk is too big to fit on any line. *)
  let '(chunks, cur_line) :=
    match chunks with
    | chunk :: _ =>
        if width <? strlen chunk
        then _handle_long_word chunks cur_line cur_len width
        else (chunks, cur_line)
    | [] => (chunks, cur_line)
    end in
  (chunks, drop_trailing cur_line).

Fixpoint wrap_loop (fuel : nat) (width : Z) (chunks lines : list string)
  : result (list string) :=
  match chunks with
  | [] => ret lines
  | _ :: _ =>
      match fuel with
      | O => raise OutOfFuel
      | S fuel' =>
          let '(chunks, cur_line) := next_line width chunks lines in
          let lines :=
            match cur_line with
            | [] => lines
            | _ :: _ => append lines (join "" cur_line)
            end in
          wrap_loop fuel' width chunks lines
      end
  end.

(** Every pass removes a chunk or shortens one, so this bound suffices. *)
Definition weight (chunks : list string) : nat :=
  fold_right (fun c acc => S (String.length c) + acc)%nat O chunks.

Definition invalid_width (width : Z) : string :=
  "invalid width " ++ NilZero.string_of_int (Z.to_int width) ++ " (must be > 0)".

Definition _wrap_chunks (width : Z) (chunks : list string) : result (list string) :=
  if width <=? 0 then raise (ValueError (invalid_width width))
  else wrap_loop (weight chunks) width chunks [].

(** [textwrap.wrap(text, width=width)] *)
Definition wrap (text : string) (width : Z) : result (list string) :=
  let chunks := _split_chunks text in
  _wrap_chunks width chunks.

End textwrap.

(* ===================================================================== *)
(** ** [reportlab]: units, page size, font metrics and flowables *)
(* ===================================================================== *)

Module reportlab.

Local Open Scope Q_scope.

(** [reportlab.lib.pagesizes]: [inch] and [letter = (8.5*inch, 11*inch)]. *)
Definition inch : Q := 72.
Definition letter : Q * Q := (612, 792).

(** The flowables the program builds.  A [ParagraphStyle] keeps the
    attributes the program sets ([None] where it sets none); a table cell
    is the list of the flowables in it; a scalar [colWidths] is a list of
    one width. *)
Record ParagraphStyle : Type := {
  name : string;
  parent : string;
  fontName : string;
  fontSize : Q;
  leading : Q;
  alignment : option Z;
  spaceBefore : option Q;
  spaceAfter : option Q
}.

Inductive StyleArg : Type :=
| Num (q : Q)
| Text (s : string).

Record StyleCommand : Type := {
  command : string;
  start : Z * Z;
  stop : Z * Z;
  args : list StyleArg
}.

#[warnings="-register-all"]
Inductive Flowable : Type :=
| Paragraph (text : string) (style : ParagraphStyle)
| Spacer (width height : Q)
| Table (data : list (list (list Flowable))) (colWidths : list (option Q))
        (rowHeights : list Q) (style : list StyleCommand)
| PageBreak.

Record Frame : Type := { x1 : Q; y1 : Q; frame_width : Q; frame_height : Q }.

Record PageTemplate : Type := { frames : list Frame; pagesize : Q * Q }.

(** A [BaseDocTemplate] once [build] has been called: [story] is the list
    of flowables handed to [doc.build]. *)
Record BaseDocTemplate : Type := {
  filename : string;
  doc_pagesize : Q * Q;
  leftMargin : Q;
  rightMargin : Q;
  topMargin : Q;
  bottomMargin : Q;
  pageTemplates : list PageTemplate;
  story : list Flowable
}.

(** [isinstance(x, PageBreak)] *)
Definition is_PageBreak (x : Flowable) : bool :=
  match x with
  | PageBreak => true
  | _ => false
  end.

End reportlab.

(** [pdfmetrics.stringWidth] for the two standard fonts of the program:
    the advance widths of the Adobe font metrics, in thousandths of the
    font size, for the printable ASCII characters (codes 32 to 126);
    other characters are not tabulated and count as zero. *)
Module pdfmetrics.

Definition Helvetica : list Z :=
  [278; 278; 355; 556; 556; 889; 667; 191; 333; 333; 389; 584; 278; 333; 278; 278;
   556; 556; 556; 556; 556; 556; 556; 556; 556; 556; 278; 278; 584; 584; 584; 556;
   1015; 667; 667; 722; 722; 667; 611; 778; 722; 278; 500; 667; 556; 833; 722; 778;
   667; 778; 722; 667; 611; 722; 667; 944; 667; 667; 611; 278; 278; 278; 469; 556;
   333; 556; 556; 500; 556; 556; 278; 556; 556; 222; 222; 500; 222; 833; 556; 556;
   556; 556; 333; 500; 278; 556; 500; 722; 500; 500; 500; 334; 260; 334; 584].

Definition Helvetica_Bold : list Z :=
  [278; 333; 474; 556; 556; 889; 722; 238; 333; 333; 389; 584; 278; 333; 278; 278;
   556; 556; 556; 556; 556; 556; 556; 556; 556; 556; 333; 333; 584; 584; 584; 611;
   975; 722; 722; 722; 722; 667; 611; 778; 722; 278; 556; 722; 611; 833; 722; 778;
   667; 778; 722; 667; 611; 722; 667; 944; 667; 667; 611; 333; 278; 333; 584; 556;
   333; 556; 611; 556; 611; 556; 333; 611; 611; 278; 278; 556; 278; 889; 611; 611;
   611; 611; 389; 556; 333; 611; 556; 778; 556; 556; 500; 389; 280; 389; 584].

Definition widths (fontName : string) : list Z :=
  if String.eqb fontName "Helvetica" then Helvetica
  else if String.eqb fontName "Helvetica-Bold" then Helvetica_Bold
  else [].

Definition glyph_width (fontName : string) (c : ascii) : Z :=
  let n := nat_of_ascii c in
  if (n <? 32)%nat then 0 else nth (n - 32) (widths fontName) 0.

Fixpoint text_width (fontName : string) (text : string) : Z :=
  match text with
  | EmptyString => 0
  | String c rest => glyph_width fontName c + text_width fontName rest
  end.

(** [sum(widths of the glyphs) * 0.001 * size] *)
Definition stringWidth (text fontName : string) (fontSize : Q) : Q :=
  (inject_Z (text_width fontName text) * 0.001 * fontSize)%Q.

End pdfmetrics.

(** [mrkdwn_analysis.MarkdownAnalyzer]: what the three queries of the
    program return for a document.  Each query returns a dictionary; the
    field is the entry under its key, [None] when the key is absent. *)
Module mrkdwn_analysis.

(** A header dictionary: the entry under ['text']. *)
Record Header : Type := { text : option string }.

Record Analysis : Type := {
  identify_headers : option (list Header);
  identify_paragraphs : option (list string);
  identify_blockquotes : option (list string)
}.

End mrkdwn_analysis.

Import reportlab mrkdwn_analysis.

(* ===================================================================== *)
(** ** The program *)
(* ===================================================================== *)

Local Open Scope Q_scope.

(** ===== PAGE SETTINGS ===== *)
Definition PAGE_WIDTH : Q := fst letter.
Definition PAGE_HEIGHT : Q := snd letter.
Definition PAGE_LEFT_MARGIN : Q := 1.75 * inch.
Definition PAGE_RIGHT_MARGIN : Q := 1.75 * inch.
Definition PAGE_TOP_MARGIN : Q := 1 * inch.
Definition PAGE_BOTTOM_MARGIN : Q := 1 * inch.

(** ===== CARD SETTINGS ===== *)
Definition CARD_WIDTH : Q := 5 * inch.
Definition CARD_HEIGHT : Q := 3 * inch.
Definition CARD_MARGIN : Q := 12.
Definition CONTENT_WIDTH : Q := CARD_WIDTH - 2 * CARD_MARGIN.
Definition CONTENT_HEIGHT : Q := CARD_HEIGHT - 2 * CARD_MARGIN.

(** ===== FONT SETTINGS ===== *)
Definition TITLE_FONT_NAME : string := "Helvetica-Bold".
Definition BODY_FONT_NAME : string := "Helvetica".
Definition MIN_FONT_SIZE : Q := 6.
Definition MAX_TITLE_SIZE : Q := 12.
Definition MAX_BODY_SIZE : Q := 10.
Definition LINE_SPACING : Q := 1.2.

(** ===== FOOTER SETTINGS ===== *)
Definition FOOTER_HEIGHT : Q := 36.
Definition PAGE_COL_WIDTH : Q := 48.
Definition MAX_FOOTER_FONT_SIZE : Q := 8.
Definition MIN_FOOTER_FONT_SIZE : Q := 6.

(** The step bound of the three [while] loops. *)
Definition LOOP_BOUND : nat := 64.

(** [min(a, b)]: the first argument unless the second is smaller. *)
Definition min_ (a b : Q) : Q := if Qle_bool a b then a else b.

Section Fitters.

(** The font metrics provider, [pdfmetrics.stringWidth(text, fontName,
    fontSize)]. *)
Variable stringWidth : string -> string -> Q -> Q.

(** The number [int(max_height / (MIN_FONT_SIZE * LINE_SPACING))] of the
    fallback of [auto_scale_text], as the interpreter computes it.  The
    interpreter divides binary floating-point numbers and rounds the
    quotient, so that the number is not always the floor of the exact
    quotient: for [max_height = 122.39999999999998] it is 17, and 17
    lines of 7.2 points need more than that.  The number of lines the
    fallback keeps depends on it, so it is a parameter of the model;
    [exact_line_limit] below is its value in exact arithmetic. *)
Variable line_limit : Q -> Z.

(** *** [auto_scale_text] *)

(** The [while] loop of [auto_scale_text].  [inl (font_size, text)] is the
    [return] inside the loop; [inr avg_char_width] is the exit of the loop,
    with the value the variable [avg_char_width] then holds ([None]: never
    assigned).  The variables [best_size] and [best_wrapped] of the source
    are never read. *)
Fixpoint auto_scale_loop (fuel : nat) (text : string)
    (max_width max_height font_size : Q) (avg_char_width : option Q)
  : result (Q * string + option Q) :=
  match fuel with
  | O => raise OutOfFuel
  | S fuel' =>
      if Qle_bool MIN_FONT_SIZE font_size then
        let avg_char_width := stringWidth "n" BODY_FONT_NAME font_size in
        ratio <- truediv max_width avg_char_width ;;
        let chars_per_line := int ratio in
        wrapped <- textwrap.wrap (str_slice_to 2000 text) chars_per_line ;;
        let line_height := font_size * LINE_SPACING in
        let needed_height := inject_Z (len wrapped) * line_height in
        if Qle_bool needed_height max_height then
          ret (inl (font_size, join "<br/>" wrapped))
        else
          auto_scale_loop fuel' text max_width max_height
                          (Qred (font_size - 0.5)) (Some avg_char_width)
      else ret (inr avg_char_width)
  end.

Definition auto_scale_search (text : string) (max_width max_height : Q)
  : result (Q * string + option Q) :=
  auto_scale_loop LOOP_BOUND text max_width max_height MAX_BODY_SIZE None.

(** The statements after the loop: fallback to the minimum size with
    truncation. *)
Definition auto_scale_fallback (text : string) (max_width max_height : Q)
    (avg_char_width : option Q) : result (Q * string) :=
  avg_char_width <-
    match avg_char_width with
    | Some w => ret w
    | None => raise (UnboundLocalError "avg_char_width")
    end ;;
  ratio <- truediv max_width avg_char_width ;;
  wrapped <- textwrap.wrap text (int ratio) ;;
  let wrapped := slice_to (line_limit max_height) wrapped in
  ret (MIN_FONT_SIZE, join "<br/>" wrapped).

Definition auto_scale_text (text : string) (max_width max_height : Q)
  : result (Q * string) :=
  found <- auto_scale_search text max_width max_height ;;
  match found with
  | inl r => ret r
  | inr avg_char_width =>
      auto_scale_fallback text max_width max_height avg_char_width
  end.

(** *** [fit_title_font] *)

Fixpoint fit_title_loop (fuel : nat) (title : string) (max_width font_size : Q)
  : result Q :=
  match fuel with
  | O => raise OutOfFuel
  | S fuel' =>
      if Qle_bool MIN_FONT_SIZE font_size then
        let text_width := stringWidth title TITLE_FONT_NAME font_size in
        if Qle_bool text_width max_width then ret font_size
        else fit_title_loop fuel' title max_width (Qred (font_size - 1))
      else ret MIN_FONT_SIZE
  end.

Definition fit_title_font (title : string) (max_width : Q) : result Q :=
  fit_title_loop LOOP_BOUND title max_width MAX_TITLE_SIZE.

(** *** [calculate_footer_font] *)

Fixpoint footer_loop (fuel : nat) (source_text page_text : string) (font_size : Q)
  : result Q :=
  match fuel with
  | O => raise OutOfFuel
  | S fuel' =>
      if Qle_bool MIN_FOOTER_FONT_SIZE font_size then
        let source_width := stringWidth source_text BODY_FONT_NAME font_size in
        let page_width := stringWidth page_text BODY_FONT_NAME font_size in
        let available_source_width := CONTENT_WIDTH - PAGE_COL_WIDTH - 6 in
        if Qle_bool source_width available_source_width
           && Qle_bool page_width PAGE_COL_WIDTH
        then ret font_size
        else footer_loop fuel' source_text page_text (Qred (font_size - 0.5))
      else ret MIN_FOOTER_FONT_SIZE
  end.

Definition calculate_footer_font (source_text page_text : string) : result Q :=
  footer_loop LOOP_BOUND source_text page_text MAX_FOOTER_FONT_SIZE.

(** *** [create_card_content] *)

Definition cmd (command : string) (start stop : Z * Z) (args : list StyleArg)
  : StyleCommand :=
  {| command := command; start := start; stop := stop; args := args |}.

(** The markup parser of reportlab: what it does with the text of a
    paragraph in a style, [ret tt] when it accepts the text, the
    exception it raises ([ValueError]) when it does not. *)
Variable parse_markup : string -> ParagraphStyle -> result unit.

(** [Paragraph(text, style)]: the markup of the text is parsed when the
    paragraph is constructed. *)
Definition new_Paragraph (text : string) (style : ParagraphStyle) : result Flowable :=
  bind (parse_markup text style) (fun _ => ret (Paragraph text style)).

Definition create_card_content
    (card_title quote analysis source page_number : string) : result Flowable :=
  (* Auto-scale title *)
  title_font_size <- fit_title_font card_title CONTENT_WIDTH ;;
  let title_height := title_font_size * LINE_SPACING + 6 in
  (* Available space for paragraphs *)
  let para_available_height := CONTENT_HEIGHT - title_height - 12 - FOOTER_HEIGHT in
  (* Auto-scale quote and analysis *)
  '(quote_font, quote_content) <-
    auto_scale_text quote CONTENT_WIDTH (para_available_height / 2) ;;
  '(analysis_font, analysis_content) <-
    auto_scale_text analysis CONTENT_WIDTH (para_available_height / 2) ;;
  let body_font_size := min_ quote_font analysis_font in
  (* Create styles *)
  let title_style :=
    {| name := "TitleStyle"; parent := "Normal";
       fontName := TITLE_FONT_NAME; fontSize := title_font_size;
       leading := title_font_size * LINE_SPACING;
       alignment := Some 1%Z; spaceBefore := None; spaceAfter := Some 0 |} in
  let body_style :=
    {| name := "BodyStyle"; parent := "Normal";
       fontName := BODY_FONT_NAME; fontSize := body_font_size;
       leading := body_font_size * LINE_SPACING;
       alignment := None; spaceBefore := Some 0; spaceAfter := Some 0 |} in
  (* Auto-scale footer *)
  let source_text := "Source: " ++ source in
  let page_text := "Page: " ++ page_number in
  footer_font_size <- calculate_footer_font source_text page_text ;;
  let footer_style :=
    {| name := "FooterStyle"; parent := "Normal";
       fontName := BODY_FONT_NAME; fontSize := footer_font_size;
       leading := footer_font_size * 1.2;
       alignment := None; spaceBefore := Some 0; spaceAfter := Some 0 |} in
  (* Title with red line *)
  title_para <- new_Paragraph ("<b>" ++ card_title ++ "</b>") title_style ;;
  let title_table :=
    Table [[[title_para]]]
          [Some CONTENT_WIDTH]
          [title_height - 2]
          [cmd "LINEBELOW" (0, 0)%Z (-1, 0)%Z [Num 1.5; Text "red"];
           cmd "BOTTOMPADDING" (0, 0)%Z (-1, 0)%Z [Num 6]] in
  (* Paragraph content *)
  quote_para <- new_Paragraph ("<b>Quote:</b> " ++ quote_content) body_style ;;
  analysis_para <-
    new_Paragraph ("<b>Analysis:</b> " ++ analysis_content) body_style ;;
  let para_flowables :=
    [quote_para;
     Spacer 1 6;
     analysis_para] in
  let para_table :=
    Table [[para_flowables]]
          [Some CONTENT_WIDTH]
          [para_available_height]
          [cmd "VALIGN" (0, 0)%Z (-1, -1)%Z [Text "TOP"];
           cmd "LEFTPADDING" (0, 0)%Z (-1, -1)%Z [Num 0]] in
  (* Footer table with auto-scaling *)
  source_para <- new_Paragraph ("<b>Source:</b> " ++ source) footer_style ;;
  page_para <- new_Paragraph ("<b>Page:</b> " ++ page_number) footer_style ;;
  let footer_table :=
    Table [[[source_para];
            [page_para]]]
          [None; Some PAGE_COL_WIDTH]
          [FOOTER_HEIGHT]
          [cmd "VALIGN" (0, 0)%Z (-1, -1)%Z [Text "BOTTOM"];
           cmd "ALIGN" (0, 0)%Z (-1, -1)%Z [Text "LEFT"];
           cmd "LEFTPADDING" (0, 0)%Z (-1, -1)%Z [Num 0];
           cmd "RIGHTPADDING" (0, 0)%Z (-1, -1)%Z [Num 0]] in
  ret (Table [[[title_table]];
              [[Spacer 1 12]];
              [[para_table]];
              [[footer_table]]]
             [Some CARD_WIDTH]
             [title_height;
              12;
              para_available_height;
              FOOTER_HEIGHT]
             [cmd "PADDING" (0, 0)%Z (-1, -1)%Z [Num CARD_MARGIN];
              cmd "BOTTOMPADDING" (-1, -1)%Z (-1, -1)%Z [Num CARD_MARGIN]]).

End Fitters.

(** The line limit of the fallback in exact arithmetic. *)
Definition exact_line_limit (max_height : Q) : Z :=
  int (max_height / (MIN_FONT_SIZE * LINE_SPACING)).

(** *** [parse_markdown] *)

(** The longest prefix of [s] whose characters satisfy [P], and the rest. *)
Fixpoint span (P : ascii -> bool) (s : string) : string * string :=
  match s with
  | String c rest =>
      if P c then let '(a, b) := span P rest in (String c a, b)
      else (EmptyString, s)
  | EmptyString => (EmptyString, EmptyString)
  end.

Definition newline : ascii := ascii_of_nat 10.

(** [re.match] of the header pattern on [header_text]: the word [Page],
    optional whitespace, the page digits (group 1), optional whitespace, a
    hyphen, optional whitespace, and the rest of the line (group 2).
    Every quantifier of the pattern is greedy and is followed by a
    character it cannot match, so the match is found without backtracking;
    the dot of group 2 stops at a newline. *)
Definition match_header (header_text : string) : option (string * string) :=
  if String.prefix "Page" header_text then
    let s := lstrip (str_slice_from 4 header_text) in
    let '(digits, s) := span isdecimal s in
    match digits, lstrip s with
    | String _ _, String "-" s =>
        let '(title, _) := span (fun c => negb (Ascii.eqb c newline)) (lstrip s) in
        Some (digits, title)
    | _, _ => None
    end
  else None.

(** The lazy group of the source pattern at the start of [s]: the
    shortest run without a newline that is followed by two closing
    brackets. *)
Fixpoint until_close (s : string) : option string :=
  match s with
  | EmptyString => None
  | String c rest =>
      if String.prefix "]]" s then Some EmptyString
      else if Ascii.eqb c newline then None
      else option_map (String c) (until_close rest)
  end.

(** [re.search] of the source pattern (two opening brackets, the lazy
    group, two closing brackets): the group of the leftmost match. *)
Fixpoint search_source (s : string) : option string :=
  match s with
  | EmptyString => None
  | String _ rest =>
      if String.prefix "[[" s then
        match until_close (str_slice_from 2 s) with
        | Some g => Some g
        | None => search_source rest
        end
      else search_source rest
  end.

(** The [for para in paragraphs] loop, with its [break]. *)
Fixpoint find_analysis (paragraphs : list string) : string :=
  match paragraphs with
  | [] => ""
  | para :: rest =>
      if startswith "**Analysis:**" (strip para)
      then strip (replace "**Analysis:**" "" para)
      else find_analysis rest
  end.

(** [d.get(key, [])] for an entry that may be absent. *)
Definition get_list {A} (entry : option (list A)) : list A :=
  match entry with
  | Some l => l
  | None => []
  end.

Section Records.

(** [MarkdownAnalyzer(filename)]: the analysis of the document, or the
    exception the library raises on it. *)
Variable MarkdownAnalyzer : string -> result Analysis.

Definition parse_markdown (filename : string)
  : result (string * string * string * string * string) :=
  analyzer <- MarkdownAnalyzer filename ;;
  let headers := get_list (identify_headers analyzer) in
  match headers with
  | [] => raise (ValueError ("No headers found in " ++ filename))
  | header :: _ =>
      let header_text := match text header with Some t => t | None => "" end in
      match match_header header_text with
      | None => raise (ValueError ("Header format error in " ++ filename))
      | Some (page_number, card_title) =>
          let paragraphs := get_list (identify_paragraphs analyzer) in
          let source :=
            match paragraphs with
            | first :: _ =>
                match search_source first with
                | Some g => g
                | None => "Unknown"
                end
            | [] => "Unknown"
            end in
          let blockquotes := get_list (identify_blockquotes analyzer) in
          let quote := match blockquotes with b :: _ => b | [] => "" end in
          let analysis := find_analysis paragraphs in
          ret (card_title, quote, analysis, source, page_number)
      end
  end.

(** *** [avery5388_page_template] *)

Definition avery5388_page_template : PageTemplate :=
  let available_height := PAGE_HEIGHT - PAGE_TOP_MARGIN - PAGE_BOTTOM_MARGIN in
  let vertical_gap := (available_height - 3 * CARD_HEIGHT) / 2 in
  {| frames :=
       [ {| x1 := PAGE_LEFT_MARGIN;
            y1 := PAGE_BOTTOM_MARGIN + 2 * CARD_HEIGHT + 2 * vertical_gap;
            frame_width := CARD_WIDTH; frame_height := CARD_HEIGHT |};
         {| x1 := PAGE_LEFT_MARGIN;
            y1 := PAGE_BOTTOM_MARGIN + CARD_HEIGHT + vertical_gap;
            frame_width := CARD_WIDTH; frame_height := CARD_HEIGHT |};
         {| x1 := PAGE_LEFT_MARGIN;
            y1 := PAGE_BOTTOM_MARGIN;
            frame_width := CARD_WIDTH; frame_height := CARD_HEIGHT |} ];
     pagesize := letter |}.

(** *** [make_avery5388_pdf] *)

Variable stringWidth : string -> string -> Q -> Q.
Variable line_limit : Q -> Z.

(** The markup parser of reportlab, run by every [Paragraph(...)]. *)
Variable parse_markup : string -> ParagraphStyle -> result unit.

(** [os.listdir(md_dir)], for a directory that can be listed. *)
Variable listdir : string -> list string.

(** [os.path.join(a, b)] of [posixpath]. *)
Definition path_join (a b : string) : string :=
  if startswith "/" b then b
  else if String.eqb a "" || endswith "/" a then a ++ b
  else a ++ "/" ++ b.

(** [sorted(l)] on strings: a stable sort by code points. *)
Fixpoint insert_sorted (x : string) (l : list string) : list string :=
  match l with
  | [] => [x]
  | y :: rest => if String.ltb x y then x :: l else y :: insert_sorted x rest
  end.

Definition sorted (l : list string) : list string :=
  fold_right insert_sorted [] l.

(** The body of the [try]: the card of one file. *)
Definition compose_file (md_dir md_file : string) : result Flowable :=
  let full_path := path_join md_dir md_file in
  '(card_title, quote, analysis, source, page_number) <- parse_markdown full_path ;;
  create_card_content stringWidth line_limit parse_markup
    card_title quote analysis source page_number.

(** The [for i, md_file in enumerate(md_files)] loop from index [i] on;
    the state is the list [elements] and the lines printed so far. *)
Fixpoint sheet_loop (md_dir : string) (i : Z) (md_files : list string)
    (elements : list Flowable) (stdout : list string)
  : list Flowable * list string :=
  match md_files with
  | [] => (elements, stdout)
  | md_file :: rest =>
      match compose_file md_dir md_file with
      | inr card =>
          let elements := append elements card in
          let elements :=
            if ((i + 1) mod 3 =? 0)%Z then append elements PageBreak
            else elements in
          sheet_loop md_dir (i + 1) rest elements stdout
      | inl e =>
          sheet_loop md_dir (i + 1) rest elements
            (append stdout ("Skipping " ++ md_file ++ ": " ++ str_exn e))
      end
  end.

(** [if elements and isinstance(elements[-1], PageBreak): elements.pop()] *)
Definition pop_trailing_break (elements : list Flowable) : list Flowable :=
  match rev elements with
  | last_element :: before =>
      if is_PageBreak last_element then rev before else elements
  | [] => elements
  end.

(** The document built and the lines printed. *)
Definition make_avery5388_pdf (md_dir output_file : string)
  : BaseDocTemplate * list string :=
  let md_files := sorted (filter (endswith ".md") (listdir md_dir)) in
  let '(elements, stdout) := sheet_loop md_dir 0 md_files [] [] in
  let elements := pop_trailing_break elements in
  ({| filename := output_file; doc_pagesize := letter;
      leftMargin := 0; rightMargin := 0; topMargin := 0; bottomMargin := 0;
      pageTemplates := [avery5388_page_template];
      story := elements |},
   stdout).

End Records.

(* ===================================================================== *)
(** ** Vocabulary of the statements *)
(* ===================================================================== *)

(** The candidate sizes of the three searches, largest first: from the
    maximum down to the minimum in steps of a half (body, footer) or of
    one (title). *)
Definition BODY_SIZES : list Q := [10; 19 # 2; 9; 17 # 2; 8; 15 # 2; 7; 13 # 2; 6].
Definition TITLE_SIZES : list Q := [12; 11; 10; 9; 8; 7; 6].
Definition FOOTER_SIZES : list Q := [8; 15 # 2; 7; 13 # 2; 6].

(** The sizes a loop [while font_size >= lo: ...; font_size -= step]
    visits when no iteration returns. *)
Fixpoint descending (fuel : nat) (lo step font_size : Q) : list Q :=
  match fuel with
  | O => []
  | S fuel' =>
      if Qle_bool lo font_size
      then font_size :: descending fuel' lo step (Qred (font_size - step))
      else []
  end.

(** The first size of [sizes] that passes [ok], or [default]. *)
Fixpoint first_fit (ok : Q -> bool) (sizes : list Q) (default : Q) : Q :=
  match sizes with
  | [] => default
  | s :: rest => if ok s then s else first_fit ok rest default
  end.

(** Candidate lists are strictly decreasing. *)
Definition decreasing (l : list Q) : Prop := StronglySorted (fun a b => b < a) l.

Section FitterVocabulary.

Variable stringWidth : string -> string -> Q -> Q.

(** The per-line character budget of a width at a size. *)
Definition chars_per_line (max_width font_size : Q) : result Z :=
  ratio <- truediv max_width (stringWidth "n" BODY_FONT_NAME font_size) ;;
  ret (int ratio).

(** The lines of the capped text at a size, and the height they need. *)
Definition wrapped_at (text : string) (max_width font_size : Q)
  : result (list string) :=
  budget <- chars_per_line max_width font_size ;;
  textwrap.wrap (str_slice_to 2000 text) budget.

Definition needed_height (wrapped : list string) (font_size : Q) : Q :=
  inject_Z (len wrapped) * (font_size * LINE_SPACING).

(** A size fits the box; a size was tried and is too tall for it. *)
Definition fits (text : string) (max_width max_height font_size : Q) : Prop :=
  exists wrapped,
    wrapped_at text max_width font_size = ret wrapped
    /\ needed_height wrapped font_size <= max_height.

Definition too_tall (text : string) (max_width max_height font_size : Q) : Prop :=
  exists wrapped,
    wrapped_at text max_width font_size = ret wrapped
    /\ ~ needed_height wrapped font_size <= max_height.

(** The loop of [auto_scale_text] as a traversal of a list of sizes. *)
Fixpoint auto_scale_over (sizes : list Q) (text : string)
    (max_width max_height : Q) (avg_char_width : option Q)
  : result (Q * string + option Q) :=
  match sizes with
  | [] => ret (inr avg_char_width)
  | font_size :: rest =>
      wrapped <- wrapped_at text max_width font_size ;;
      if Qle_bool (needed_height wrapped font_size) max_height
      then ret (inl (font_size, join "<br/>" wrapped))
      else auto_scale_over rest text max_width max_height
             (Some (stringWidth "n" BODY_FONT_NAME font_size))
  end.

(** The value of [avg_char_width] after the sizes [l] were tried. *)
Definition width_after (l : list Q) (avg_char_width : option Q) : option Q :=
  fold_left (fun _ s => Some (stringWidth "n" BODY_FONT_NAME s)) l avg_char_width.

(** The tests of the title and footer searches. *)
Definition title_fits (title : string) (max_width font_size : Q) : bool :=
  Qle_bool (stringWidth title TITLE_FONT_NAME font_size) max_width.

Definition footer_fits (source_text page_text : string) (font_size : Q) : bool :=
  Qle_bool (stringWidth source_text BODY_FONT_NAME font_size)
           (CONTENT_WIDTH - PAGE_COL_WIDTH - 6)
  && Qle_bool (stringWidth page_text BODY_FONT_NAME font_size) PAGE_COL_WIDTH.

End FitterVocabulary.

(** The lines behind a result of [auto_scale_text] at a size: the lines
    of the capped text wrapped at that size, which fit the height; or,
    when every candidate is too tall, at [MIN_FONT_SIZE], the lines of the
    whole text wrapped at the budget of [MIN_FONT_SIZE], cut at the line
    limit. *)
Definition fitted_lines (stringWidth : string -> string -> Q -> Q)
    (line_limit : Q -> Z) (text : string) (max_width max_height font_size : Q)
    (lines : list string) : Prop :=
  (wrapped_at stringWidth text max_width font_size = ret lines
   /\ needed_height lines font_size <= max_height)
  \/ (font_size = MIN_FONT_SIZE
      /\ (forall s, In s BODY_SIZES ->
                    too_tall stringWidth text max_width max_height s)
      /\ exists budget wrapped,
           chars_per_line stringWidth max_width MIN_FONT_SIZE = ret budget
           /\ textwrap.wrap text budget = ret wrapped
           /\ lines = slice_to (line_limit max_height) wrapped).

(** The heights of the two halves of the body row, one for each title
    size. *)
Definition body_half (title_font_size : Q) : Q :=
  (CONTENT_HEIGHT - (title_font_size * LINE_SPACING + 6) - 12 - FOOTER_HEIGHT) / 2.

(** The texts of the five paragraphs [create_card_content] constructs
    for a record: the title between the bold tags, and the quote, the
    analysis, the source and the page after their labels, where the
    quote and the analysis are as [auto_scale_text] returned them. *)
Definition paragraph_text (stringWidth : string -> string -> Q -> Q)
    (line_limit : Q -> Z)
    (card_title quote analysis source page_number text : string) : Prop :=
  text = "<b>" ++ card_title ++ "</b>"
  \/ (exists max_height font_size content,
         auto_scale_text stringWidth line_limit quote CONTENT_WIDTH max_height
         = ret (font_size, content)
         /\ text = "<b>Quote:</b> " ++ content)
  \/ (exists max_height font_size content,
         auto_scale_text stringWidth line_limit analysis CONTENT_WIDTH max_height
         = ret (font_size, content)
         /\ text = "<b>Analysis:</b> " ++ content)
  \/ text = "<b>Source:</b> " ++ source
  \/ text = "<b>Page:</b> " ++ page_number.

(** The cell in the first row and column of a table, and the text and
    style of the title paragraph of a composed card. *)
Definition first_cell (x : Flowable) : list Flowable :=
  match x with
  | Table ((cell :: _) :: _) _ _ _ => cell
  | _ => []
  end.

Definition title_paragraph (card : Flowable) : option (string * ParagraphStyle) :=
  match first_cell card with
  | [title_table] =>
      match first_cell title_table with
      | [Paragraph text style] => Some (text, style)
      | _ => None
      end
  | _ => None
  end.

(** The flowables in the cell of a table at a row and a column. *)
Definition cell_at (x : Flowable) (row col : nat) : list Flowable :=
  match x with
  | Table data _ _ _ => nth col (nth row data []) []
  | _ => []
  end.

(** The flowables of the body region of a composed card (its third row),
    and the two cells of its footer (its fourth row). *)
Definition body_flowables (card : Flowable) : list Flowable :=
  match cell_at card 2 0 with
  | [para_table] => cell_at para_table 0 0
  | _ => []
  end.

Definition footer_cells (card : Flowable) : list Flowable * list Flowable :=
  match cell_at card 3 0 with
  | [footer_table] => (cell_at footer_table 0 0, cell_at footer_table 0 1)
  | _ => ([], [])
  end.

(** The row heights of a table. *)
Definition row_heights (x : Flowable) : list Q :=
  match x with
  | Table _ _ rowHeights _ => rowHeights
  | _ => []
  end.

Definition Qsum (l : list Q) : Q := fold_right Qplus 0 l.

(** A composed card is any flowable but a page break. *)
Definition is_card (x : Flowable) : bool := negb (is_PageBreak x).

(** The number of page breaks in a story. *)
Definition page_breaks (elements : list Flowable) : nat :=
  List.length (filter is_PageBreak elements).

(** The cards of a sheet run in groups of three with a page break
    between two groups. *)
Fixpoint paginate (cards : list Flowable) : list Flowable :=
  match cards with
  | a :: b :: c :: ((_ :: _) as rest) => a :: b :: c :: PageBreak :: paginate rest
  | _ => cards
  end.

Section SheetVocabulary.

Variable MarkdownAnalyzer : string -> result Analysis.
Variable stringWidth : string -> string -> Q -> Q.
Variable line_limit : Q -> Z.
Variable parse_markup : string -> ParagraphStyle -> result unit.

(** The card a file contributes to the story, and the line it makes the
    program print: one or the other. *)
Definition card_of (md_dir md_file : string) : list Flowable :=
  match compose_file MarkdownAnalyzer stringWidth line_limit parse_markup md_dir md_file with
  | inr card => [card]
  | inl _ => []
  end.

Definition diagnostic_of (md_dir md_file : string) : list string :=
  match compose_file MarkdownAnalyzer stringWidth line_limit parse_markup md_dir md_file with
  | inr _ => []
  | inl e => ["Skipping " ++ md_file ++ ": " ++ str_exn e]
  end.

(** What the loop adds to [elements] for the files from index [i] on. *)
Fixpoint emitted (md_dir : string) (i : Z) (md_files : list string) : list Flowable :=
  match md_files with
  | [] => []
  | md_file :: rest =>
      match compose_file MarkdownAnalyzer stringWidth line_limit parse_markup md_dir md_file with
      | inr card =>
          (card :: (if ((i + 1) mod 3 =? 0)%Z then [PageBreak] else [])
             ++ emitted md_dir (i + 1) rest)%list
      | inl _ => emitted md_dir (i + 1) rest
      end
  end.

End SheetVocabulary.

(** Chunk lists on which the number of wrapped lines cannot grow with the
    width: no two adjacent chunks are blank, and the first one is a word. *)
Fixpoint spaced (chunks : list string) : Prop :=
  match chunks with
  | a :: ((b :: _) as rest) =>
      (textwrap.blank a = true -> textwrap.blank b = false) /\ spaced rest
  | _ => True
  end.

Definition starts_with_word (chunks : list string) : Prop :=
  match chunks with
  | chunk :: _ => textwrap.blank chunk = false
  | [] => True
  end.

Definition suffix (l' l : list string) : Prop := exists x, l = (x ++ l')%list.

(** A text whose only white space is the white space [textwrap] knows. *)
Definition plain_whitespace (text : string) : bool :=
  str_forallb (fun c => implb (isspace c) (textwrap._whitespace c)) text.

(** Strings of white space, of decimal digits, and without a line feed. *)
Definition all_space (s : string) : bool := str_forallb isspace s.
Definition all_digits (s : string) : bool := str_forallb isdecimal s.
Definition one_line (s : string) : bool :=
  str_forallb (fun c => negb (Ascii.eqb c newline)) s.

(** Strings without a given character. *)
Definition without (c : ascii) (s : string) : bool :=
  str_forallb (fun x => negb (Ascii.eqb x c)) s.

(** The marker of the analysis paragraph. *)
Definition ANALYSIS_MARKER : string := "**Analysis:**".

(** A paragraph the loop of [parse_markdown] takes for the analysis. *)
Definition marked (para : string) : bool := startswith ANALYSIS_MARKER (strip para).

(** Words with one space between two of them, as a list of chunks. *)
Fixpoint with_spaces (words : list string) : list string :=
  match words with
  | [] => []
  | w :: rest =>
      match rest with
      | [] => [w]
      | _ :: _ => w :: " " :: with_spaces rest
      end
  end.

(** A word that [textwrap] neither splits nor drops: not empty, without
    white space and without hyphen. *)
Definition plain_word (w : string) : bool :=
  negb (String.eqb w "")
  && str_forallb (fun c => negb (isspace c) && negb (textwrap.is_hyphen c)) w.

(** A chunk that is not blank and not longer than a line. *)
Definition short_word (width : Z) (w : string) : Prop :=
  textwrap.blank w = false /\ (textwrap.strlen w <= width)%Z.

(** A text of short words, for the examples. *)
Definition pangram : string := "the quick brown fox jumps over the lazy dog".

(** The words of [pangram]. *)
Definition pangram_words : list string :=
  ["the"; "quick"; "brown"; "fox"; "jumps"; "over"; "the"; "lazy"; "dog"].

(** A text of 2399 characters, longer than the 2000 the search reads. *)
Definition long_text : string := join " " (repeat "lorem ipsum" 200).

(** A text of 439 characters. *)
Definition medium_text : string := join " " (repeat pangram 10).

(** A directory of four cards and a stray file, for the examples: every
    document has the required heading, except, for [faulty_analyzer], the
    second one. *)
Definition sample_analysis : Analysis :=
  {| identify_headers := Some [ {| text := Some "Page 7 - A Title" |} ];
     identify_paragraphs := Some ["From [[A Book]]"; "**Analysis:** fine"];
     identify_blockquotes := Some ["A quote"] |}.

Definition sample_analyzer (filename : string) : result Analysis :=
  ret sample_analysis.

Definition faulty_analyzer (filename : string) : result Analysis :=
  if String.eqb filename "cards/b.md"
  then ret {| identify_headers := Some [ {| text := Some "Notes" |} ];
              identify_paragraphs := None;
              identify_blockquotes := None |}
  else ret sample_analysis.

Definition sample_listdir (md_dir : string) : list string :=
  ["d.md"; "b.md"; "notes.txt"; "a.md"; "c.md"].

(** A markup parser for the examples: it accepts a text in which every
    opening angle bracket starts one of the three tags the program
    writes (bold on, bold off, line break), and raises on any other. *)
Fixpoint well_tagged (text : string) : bool :=
  match text with
  | EmptyString => true
  | String c rest =>
      if Ascii.eqb c "<"
      then (String.prefix "b>" rest || String.prefix "/b>" rest
            || String.prefix "br/>" rest)
           && well_tagged rest
      else well_tagged rest
  end.

Definition sample_markup (text : string) (style : ParagraphStyle) : result unit :=
  if well_tagged text then ret tt
  else raise (ValueError ("ill-formed markup in " ++ text)).

(** The same directory, where the third document has a title that is
    not well-formed markup. *)
Definition angle_analyzer (filename : string) : result Analysis :=
  if String.eqb filename "cards/c.md"
  then ret {| identify_headers := Some [ {| text := Some "Page 3 - if x<y then" |} ];
              identify_paragraphs := Some ["From [[A Book]]"; "**Analysis:** fine"];
              identify_blockquotes := Some ["A quote"] |}
  else ret sample_analysis.

(* ===================================================================== *)
(** ** [textwrap]: termination and the width of the lines *)
(* ===================================================================== *)

Module textwrap_facts.

Import textwrap.

Local Open Scope Z_scope.

Lemma strlen_nonneg (s : string) : 0 <= strlen s.
Proof. unfold strlen. lia. Qed.

Lemma length_str_slice_from (n : nat) (s : string) :
  String.length (str_slice_from n s) = (String.length s - n)%nat.
Proof.
  revert s. induction n as [|n IH]; intros s; simpl.
  - lia.
  - destruct s as [|c s]; simpl; [reflexivity | apply IH].
Qed.

Lemma length_substring_0 (n : nat) (s : string) :
  String.length (substring 0 n s) = Nat.min n (String.length s).
Proof.
  revert s. induction n as [|n IH]; intros s; simpl.
  - destruct s; reflexivity.
  - destruct s as [|c s]; simpl; [reflexivity | now rewrite IH].
Qed.

Lemma length_str_slice_to (n : nat) (s : string) :
  String.length (str_slice_to n s) = Nat.min n (String.length s).
Proof. apply length_substring_0. Qed.

Lemma length_string_app (a b : string) :
  String.length (a ++ b) = (String.length a + String.length b)%nat.
Proof. induction a as [|c a IH]; simpl; [reflexivity | now rewrite IH]. Qed.

Lemma total_len_app (a b : list string) :
  total_len (a ++ b) = total_len a + total_len b.
Proof. induction a as [|c a IH]; simpl; [reflexivity | rewrite IH; lia]. Qed.

Lemma total_len_nonneg (l : list string) : 0 <= total_len l.
Proof.
  induction l as [|c l IH]; simpl; [lia | pose proof (strlen_nonneg c); lia].
Qed.

Lemma strlen_join_empty (l : list string) : strlen (join "" l) = total_len l.
Proof.
  unfold join. induction l as [|c l IH]; [reflexivity|].
  destruct l as [|d l].
  - cbn [String.concat total_len fold_right]. lia.
  - change (String.concat "" (c :: d :: l)) with (c ++ "" ++ String.concat "" (d :: l))%string.
    unfold strlen in *. rewrite !length_string_app.
    change (String.length "") with O.
    change (total_len (c :: d :: l)) with (Z.of_nat (String.length c) + total_len (d :: l)).
    rewrite <- IH. lia.
Qed.

(** *** The weight of the chunks goes down at every pass *)

Lemma weight_app (a b : list string) : weight (a ++ b) = (weight a + weight b)%nat.
Proof. induction a as [|c a IH]; simpl; [reflexivity | rewrite IH; lia]. Qed.

(** [fill_line] moves a prefix of the chunks to the line. *)
Lemma fill_line_spec (width : Z) (chunks : list string) :
  forall cur_line cur_len chunks' cur_line' cur_len',
    fill_line width chunks cur_line cur_len = (chunks', cur_line', cur_len') ->
    exists taken,
      chunks = (taken ++ chunks')%list
      /\ cur_line' = (cur_line ++ taken)%list
      /\ cur_len' = cur_len + total_len taken
      /\ (cur_len <= width -> cur_len' <= width)
      /\ match chunks' with
         | chunk :: _ => width < cur_len' + strlen chunk
         | [] => True
         end.
Proof.
  induction chunks as [|chunk rest IH]; intros cur_line cur_len chunks' cur_line' cur_len' H.
  - simpl in H. inversion H; subst. exists []. simpl.
    rewrite app_nil_r. repeat split; auto; lia.
  - simpl in H. destruct (Z.leb_spec (cur_len + strlen chunk) width) as [Hle|Hgt].
    + apply IH in H. destruct H as (taken & -> & -> & -> & Hw & Hnext).
      exists (chunk :: taken). unfold append. simpl.
      rewrite <- app_assoc. simpl. repeat split; auto; try lia.
    + inversion H; subst. exists []. simpl. rewrite app_nil_r.
      repeat split; auto; lia.
Qed.

Lemma rfind_from_bound (stop : nat) :
  forall i chunk, rfind_from i stop chunk = -1
                  \/ i <= rfind_from i stop chunk < i + Z.of_nat stop.
Proof.
  induction stop as [|stop IH]; intros i chunk; simpl; [now left|].
  destruct chunk as [|c rest]; [now left|].
  destruct (IH (i + 1) rest) as [E|B].
  - rewrite E. simpl. destruct (is_hyphen c); [right; lia | now left].
  - destruct (Z.leb_spec 0 (rfind_from (i + 1) stop rest)); [right; lia|].
    destruct (is_hyphen c); [right; lia | now left].
Qed.

(** [_handle_long_word] cuts the chunk within the space left. *)
Lemma break_point_bound (chunk : string) (space_left : Z) :
  0 <= space_left ->
  break_point chunk space_left <= space_left
  /\ (1 <= space_left -> 1 <= break_point chunk space_left).
Proof.
  intros H0. unfold break_point.
  destruct (space_left <? strlen chunk); [|lia].
  unfold rfind_hyphen.
  destruct (rfind_from_bound (Z.to_nat space_left) 0 chunk) as [E|B].
  - rewrite E. simpl. lia.
  - destruct (Z.ltb_spec 0 (rfind_from 0 (Z.to_nat space_left) chunk)); simpl; [|lia].
    destruct (any_non_hyphen _); lia.
Qed.

Lemma _handle_long_word_eq (chunk : string) (rest cur_line : list string)
    (cur_len width : Z) :
  1 <= width ->
  _handle_long_word (chunk :: rest) cur_line cur_len width
  = (str_slice_from (Z.to_nat (break_point chunk (width - cur_len))) chunk :: rest,
     append cur_line (str_slice_to (Z.to_nat (break_point chunk (width - cur_len))) chunk)).
Proof.
  intros Hw. unfold _handle_long_word.
  destruct (Z.ltb_spec width 1); [lia | reflexivity].
Qed.

(** One pass of the outer loop, when the width is positive: the chunks
    left weigh less, and the line built is within the width. *)
Lemma next_line_spec (width : Z) (chunks lines : list string) :
  1 <= width ->
  chunks <> [] ->
  forall chunks' cur_line,
    next_line width chunks lines = (chunks', cur_line) ->
    (weight chunks' < weight chunks)%nat /\ total_len cur_line <= width.
Proof.
  intros Hw Hne chunks' cur_line. unfold next_line.
  set (chunks1 := drop_leading chunks lines).
  assert (H1 : (weight chunks1 <= weight chunks)%nat
               /\ (chunks1 = [] -> (weight chunks1 < weight chunks)%nat)).
  { subst chunks1. unfold drop_leading. destruct chunks as [|c r]; [congruence|].
    destruct lines; [split; [lia | discriminate]|].
    destruct (blank c); split; try discriminate; simpl; intros; lia. }
  destruct H1 as [H1 H1'].
  destruct (fill_line width chunks1 [] 0) as [[chunks2 line2] len2] eqn:Hfill.
  apply fill_line_spec in Hfill.
  destruct Hfill as (taken & E1 & E2 & E3 & Hle & Hnext).
  simpl in E2. rewrite Z.add_0_l in E3. subst line2 len2. specialize (Hle ltac:(lia)).
  assert (Hweight : (weight chunks1 = weight taken + weight chunks2)%nat)
    by (rewrite E1; apply weight_app).
  (* the line after the trailing whitespace is dropped is no longer *)
  assert (Hdrop : forall line : list string,
             total_len line <= width -> total_len (drop_trailing line) <= width).
  { intros line Hline. unfold drop_trailing.
    destruct (rev line) as [|lc before] eqn:Hrev; [exact Hline|].
    destruct (blank lc); [|exact Hline].
    apply (f_equal (@rev string)) in Hrev. rewrite rev_involutive in Hrev.
    simpl in Hrev. subst line. rewrite total_len_app in Hline. simpl in Hline.
    pose proof (strlen_nonneg lc). lia. }
  destruct chunks2 as [|chunk rest2].
  - intros H. inversion H; subst. split.
    + destruct taken as [|t ts].
      * simpl in E1. specialize (H1' E1). simpl in Hweight. simpl. lia.
      * simpl in Hweight. simpl. lia.
    + apply Hdrop. lia.
  - destruct (Z.ltb_spec width (strlen chunk)) as [Hlong|Hshort].
    + rewrite _handle_long_word_eq by exact Hw.
      intros H. inversion H; subst. clear H.
      pose proof (total_len_nonneg taken) as Hnn.
      destruct (@break_point_bound chunk (width - total_len taken) ltac:(lia)) as [Hc1 Hc2].
      split.
      * simpl. rewrite length_str_slice_from.
        destruct taken as [|t ts].
        -- simpl in *. specialize (Hc2 ltac:(lia)). unfold strlen in Hlong.
           simpl in Hweight. lia.
        -- simpl in Hweight |- *. lia.
      * apply Hdrop. unfold append. rewrite total_len_app. simpl.
        unfold strlen at 1. rewrite length_str_slice_to. lia.
    + intros H. inversion H; subst. split.
      * destruct taken as [|t ts].
        -- simpl in Hnext. lia.
        -- simpl in Hweight |- *. lia.
      * apply Hdrop. lia.
Qed.

(** The outer loop ends within its bound, and every line it adds is
    within the width. *)
Lemma wrap_loop_spec (width : Z) :
  1 <= width ->
  forall fuel chunks lines,
    (weight chunks <= fuel)%nat ->
    Forall (fun line => strlen line <= width) lines ->
    exists out,
      wrap_loop fuel width chunks lines = ret out
      /\ Forall (fun line => strlen line <= width) out.
Proof.
  intros Hw. induction fuel as [|fuel IH]; intros chunks lines Hfuel Hlines.
  - destruct chunks as [|c r]; [|simpl in Hfuel; lia].
    exists lines. split; [reflexivity | exact Hlines].
  - destruct chunks as [|c r]; [exists lines; split; [reflexivity | exact Hlines]|].
    cbn [wrap_loop].
    destruct (next_line width (c :: r) lines) as [chunks' cur_line] eqn:Hnext.
    apply next_line_spec in Hnext; [|exact Hw|discriminate].
    destruct Hnext as [Hlt Hlen].
    apply IH; [lia|].
    destruct cur_line as [|x xs]; [exact Hlines|].
    unfold append. apply Forall_app. split; [exact Hlines|].
    constructor; [|constructor]. rewrite strlen_join_empty. exact Hlen.
Qed.

(** [wrap] raises exactly when the width is not positive. *)
Lemma wrap_defined (text : string) (width : Z) :
  0 < width -> exists lines, wrap text width = ret lines.
Proof.
  intros Hw. unfold wrap, _wrap_chunks.
  destruct (Z.leb_spec width 0); [lia|].
  destruct (@wrap_loop_spec width ltac:(lia) (weight (_split_chunks text))
              (_split_chunks text) [] (le_n _) (Forall_nil _)) as (out & E & _).
  exists out. exact E.
Qed.

Lemma wrap_positive (text : string) (width : Z) (lines : list string) :
  wrap text width = ret lines -> 0 < width.
Proof.
  unfold wrap, _wrap_chunks. destruct (Z.leb_spec width 0); [discriminate | lia].
Qed.

Lemma wrap_raises (text : string) (width : Z) :
  width <= 0 -> wrap text width = raise (ValueError (invalid_width width)).
Proof.
  intros H. unfold wrap, _wrap_chunks. destruct (Z.leb_spec width 0); [reflexivity | lia].
Qed.

Lemma wrap_never_out_of_fuel (text : string) (width : Z) :
  wrap text width <> raise OutOfFuel.
Proof.
  destruct (Z.leb_spec width 0) as [H|H].
  - rewrite wrap_raises by exact H. discriminate.
  - destruct (wrap_defined text H) as (lines & E). rewrite E. discriminate.
Qed.

End textwrap_facts.

(* ===================================================================== *)
(** ** [textwrap]: a wider line never needs more lines, when no chunk
       is cut *)
(* ===================================================================== *)

Module textwrap_monotone.

Import textwrap textwrap_facts.

Local Open Scope Z_scope.

Lemma suffix_refl (l : list string) : suffix l l.
Proof. now exists []. Qed.

Lemma suffix_trans (a b c : list string) : suffix a b -> suffix b c -> suffix a c.
Proof. intros [x ->] [y ->]. exists (y ++ x)%list. now rewrite app_assoc. Qed.

Lemma suffix_tail (a : string) (l : list string) : suffix l (a :: l).
Proof. now exists [a]. Qed.

Lemma suffix_nil (l : list string) : suffix l [] -> l = [].
Proof. intros [x H]. symmetry in H. now apply app_eq_nil in H. Qed.

Lemma Forall_suffix (P : string -> Prop) (l' l : list string) :
  suffix l' l -> Forall P l -> Forall P l'.
Proof. intros [x ->] H. apply Forall_app in H. tauto. Qed.

Lemma spaced_tail (a : string) (l : list string) : spaced (a :: l) -> spaced l.
Proof. destruct l as [|b l]; [constructor|]. cbn [spaced]. tauto. Qed.

Lemma spaced_suffix (l' l : list string) : suffix l' l -> spaced l -> spaced l'.
Proof.
  intros [x ->]. induction x as [|a x IH]; [trivial|].
  intros H. apply IH. exact (spaced_tail _ _ H).
Qed.

Lemma drop_leading_suffix (chunks lines : list string) :
  suffix (drop_leading chunks lines) chunks.
Proof.
  unfold drop_leading. destruct chunks as [|c r]; [apply suffix_refl|].
  destruct lines; [apply suffix_refl|].
  destruct (blank c); [apply suffix_tail | apply suffix_refl].
Qed.

(** After the leading blank is dropped, a spaced list starts with a word. *)
Lemma drop_leading_word (chunks lines : list string) :
  spaced chunks -> lines <> [] -> starts_with_word (drop_leading chunks lines).
Proof.
  intros Hs Hl. unfold drop_leading. destruct chunks as [|c r]; [exact I|].
  destruct lines as [|l lines]; [congruence|].
  destruct (blank c) eqn:Hc; [|exact Hc].
  destruct r as [|d r]; [exact I|]. cbn [spaced] in Hs. cbn. tauto.
Qed.

(** Two runs that both have lines: the wider one is at least as far. *)
Lemma drop_leading_both (R R' lines lines' : list string) :
  suffix R' R -> lines <> [] -> lines' <> [] ->
  suffix (drop_leading R' lines') (drop_leading R lines).
Proof.
  intros [x ->] Hl Hl'. destruct x as [|a x].
  - cbn [app]. unfold drop_leading.
    destruct lines; [congruence|]. destruct lines'; [congruence|]. apply suffix_refl.
  - apply suffix_trans with R'; [apply drop_leading_suffix|].
    unfold drop_leading. cbn [app]. destruct lines; [congruence|].
    destruct (blank a); [now exists x | now exists (a :: x)].
Qed.

Lemma fill_line_suffix (width : Z) (chunks cur_line : list string) (cur_len : Z)
    (E T : list string) (len' : Z) :
  fill_line width chunks cur_line cur_len = (E, T, len') -> suffix E chunks.
Proof.
  intros H. apply fill_line_spec in H. destruct H as (taken & -> & _). now exists taken.
Qed.

(** What fits is taken. *)
Lemma fill_line_takes (width : Z) (taken : list string) :
  forall rest cur_line cur_len,
    cur_len + total_len taken <= width ->
    fill_line width (taken ++ rest) cur_line cur_len
    = fill_line width rest (cur_line ++ taken) (cur_len + total_len taken).
Proof.
  induction taken as [|t taken IH]; intros rest cur_line cur_len H.
  - cbn [app total_len fold_right]. now rewrite app_nil_r, Z.add_0_r.
  - cbn [app fill_line]. cbn [total_len fold_right] in H. fold (total_len taken) in H.
    pose proof (total_len_nonneg taken).
    destruct (Z.leb_spec (cur_len + strlen t) width); [|lia].
    rewrite IH by lia. unfold append. rewrite <- app_assoc. cbn [app].
    f_equal. cbn [total_len fold_right]. fold (total_len taken). lia.
Qed.

(** The greedy step is monotone: from a later start, on a wider line, the
    line ends at least as far. *)
Lemma fill_line_monotone (b b' : Z) (Q Q' E T E' T' : list string) (n n' : Z) :
  0 <= b -> b <= b' -> suffix Q' Q ->
  fill_line b Q [] 0 = (E, T, n) ->
  fill_line b' Q' [] 0 = (E', T', n') ->
  suffix E' E.
Proof.
  intros Hb0 Hb [y HQ] H H'.
  pose proof (fill_line_spec _ _ _ _ H) as (taken & E1 & _ & E3 & Hle & _).
  specialize (Hle ltac:(lia)).
  rewrite HQ in E1. apply app_eq_app in E1. destruct E1 as (l & [[-> ->]|[-> ->]]).
  - (* the wider run starts after the end of the narrower line *)
    apply suffix_trans with Q'; [|now exists l].
    exact (fill_line_suffix _ _ _ _ H').
  - (* it starts inside: the rest of the narrower line fits the wider one *)
    rewrite total_len_app in E3. pose proof (total_len_nonneg y).
    rewrite fill_line_takes in H' by lia.
    exact (fill_line_suffix _ _ _ _ H').
Qed.

Lemma drop_trailing_word (h : string) (l : list string) :
  blank h = false -> drop_trailing (h :: l) <> [].
Proof.
  intros Hh. unfold drop_trailing. cbn [rev].
  destruct (rev l) as [|x before]; cbn [app].
  - rewrite Hh. discriminate.
  - destruct (blank x); [|discriminate].
    rewrite rev_app_distr. discriminate.
Qed.

Lemma drop_trailing_nil (l : list string) : drop_trailing l <> [] -> l <> [].
Proof. intros H ->. now apply H. Qed.

(** A line that starts with a word that fits is not empty. *)
Lemma fill_line_word (width : Z) (Q E T : list string) (n : Z) :
  Forall (fun c => strlen c <= width) Q ->
  starts_with_word Q -> Q <> [] ->
  fill_line width Q [] 0 = (E, T, n) ->
  drop_trailing T <> [].
Proof.
  intros Hshort Hword Hne H. destruct Q as [|h q]; [congruence|].
  inversion Hshort as [|? ? Hh _]; subst.
  cbn [fill_line] in H. destruct (Z.leb_spec (0 + strlen h) width); [|lia].
  apply fill_line_spec in H. destruct H as (taken & _ & -> & _).
  unfold append. cbn [app]. now apply drop_trailing_word.
Qed.

(** Without a chunk longer than the width, a pass is the greedy step
    between the two drops. *)
Lemma next_line_short (width : Z) (chunks lines : list string) :
  Forall (fun c => strlen c <= width) chunks ->
  exists E T n,
    fill_line width (drop_leading chunks lines) [] 0 = (E, T, n)
    /\ next_line width chunks lines = (E, drop_trailing T).
Proof.
  intros Hshort. unfold next_line.
  destruct (fill_line width (drop_leading chunks lines) [] 0) as [[E T] n] eqn:H.
  exists E, T, n. split; [reflexivity|].
  destruct E as [|c E]; [reflexivity|].
  assert (Hc : strlen c <= width).
  { pose proof (fill_line_suffix _ _ _ _ H) as HE.
    pose proof (suffix_trans HE (drop_leading_suffix chunks lines)) as HE'.
    pose proof (Forall_suffix HE' Hshort) as HF. now inversion HF. }
  destruct (Z.ltb_spec width (strlen c)); [lia | reflexivity].
Qed.

Lemma wrap_loop_grows (width : Z) :
  forall fuel chunks lines out,
    wrap_loop fuel width chunks lines = ret out ->
    (List.length lines <= List.length out)%nat.
Proof.
  induction fuel as [|fuel IH]; intros chunks lines out H.
  - destruct chunks; [|discriminate]. inversion H; subst. lia.
  - destruct chunks as [|c r]; [inversion H; subst; lia|].
    cbn [wrap_loop] in H.
    destruct (next_line width (c :: r) lines) as [chunks' cur_line].
    apply IH in H. destruct cur_line; [exact H|].
    unfold append in H. rewrite length_app in H. simpl in H. lia.
Qed.

(** Two runs side by side, once both have a line: the wider run, which is
    at least as far in the chunks, adds no more lines than the narrower. *)
Lemma two_runs (b b' : Z) :
  1 <= b -> b <= b' ->
  forall fuel R R' lines lines' fuel' out out',
    Forall (fun c => strlen c <= b) R -> spaced R -> suffix R' R ->
    lines <> [] -> lines' <> [] ->
    wrap_loop fuel b R lines = ret out ->
    wrap_loop fuel' b' R' lines' = ret out' ->
    (List.length out' + List.length lines <= List.length out + List.length lines')%nat.
Proof.
  intros Hb Hbb'. induction fuel as [|fuel IH];
    intros R R' lines lines' fuel' out out' Hshort Hsp Hsuf Hl Hl' H H'.
  - destruct R; [|discriminate]. apply suffix_nil in Hsuf. subst R'.
    inversion H; subst. destruct fuel'; inversion H'; subst; lia.
  - destruct R as [|c r].
    { apply suffix_nil in Hsuf. subst R'.
      inversion H; subst. destruct fuel'; inversion H'; subst; lia. }
    cbn [wrap_loop] in H.
    destruct R' as [|c' r'].
    { assert (out' = lines') by (destruct fuel'; now inversion H'). subst out'.
      destruct (next_line b (c :: r) lines) as [R1 cl].
      apply wrap_loop_grows in H.
      destruct cl; [lia|]. unfold append in H. rewrite length_app in H. simpl in H. lia. }
    destruct fuel' as [|fuel']; [discriminate|]. cbn [wrap_loop] in H'.
    assert (Hshort' : Forall (fun c => strlen c <= b') (c' :: r')).
    { apply Forall_suffix with (l := c :: r); [exact Hsuf|].
      eapply Forall_impl; [|exact Hshort]. cbn. intros; lia. }
    destruct (next_line_short lines Hshort) as (E & T & n & Hfill & Hnl).
    destruct (next_line_short lines' Hshort') as (E' & T' & n' & Hfill' & Hnl').
    rewrite Hnl in H. rewrite Hnl' in H'. clear Hnl Hnl'.
    pose proof (drop_leading_both Hsuf Hl Hl') as HQ.
    pose proof (@fill_line_monotone b b' _ _ _ _ _ _ _ _ ltac:(lia) Hbb' HQ Hfill Hfill')
      as HE.
    assert (Hline : drop_trailing T' <> [] -> drop_trailing T <> []).
    { intros HT'. apply drop_trailing_nil in HT'.
      assert (HQ' : drop_leading (c' :: r') lines' <> []).
      { intros E0. rewrite E0 in Hfill'. cbn in Hfill'. inversion Hfill'. congruence. }
      assert (HQne : drop_leading (c :: r) lines <> []).
      { intros E0. rewrite E0 in HQ. apply suffix_nil in HQ. contradiction. }
      apply (@fill_line_word b (drop_leading (c :: r) lines) E T n);
        [ eapply Forall_suffix; [apply drop_leading_suffix | exact Hshort]
        | now apply drop_leading_word
        | exact HQne
        | exact Hfill ]. }
    assert (HshortE : Forall (fun c => strlen c <= b) E).
    { apply Forall_suffix with (l := c :: r); [|exact Hshort].
      apply suffix_trans with (drop_leading (c :: r) lines);
        [exact (fill_line_suffix _ _ _ _ Hfill) | apply drop_leading_suffix]. }
    assert (HspE : spaced E).
    { apply spaced_suffix with (l := c :: r); [|exact Hsp].
      apply suffix_trans with (drop_leading (c :: r) lines);
        [exact (fill_line_suffix _ _ _ _ Hfill) | apply drop_leading_suffix]. }
    destruct (drop_trailing T) as [|x xs] eqn:HT;
      destruct (drop_trailing T') as [|x' xs'] eqn:HT'.
    + exact (IH _ _ _ _ _ _ _ HshortE HspE HE Hl Hl' H H').
    + exfalso. apply Hline; [discriminate | reflexivity].
    + assert (Hl1 : append lines (join "" (x :: xs)) <> [])
        by (unfold append; destruct lines; discriminate).
      pose proof (IH _ _ _ _ _ _ _ HshortE HspE HE Hl1 Hl' H H') as G.
      unfold append in G. rewrite length_app in G. simpl in G. lia.
    + assert (Hl1 : append lines (join "" (x :: xs)) <> [])
        by (unfold append; destruct lines; discriminate).
      assert (Hl1' : append lines' (join "" (x' :: xs')) <> [])
        by (unfold append; destruct lines'; discriminate).
      pose proof (IH _ _ _ _ _ _ _ HshortE HspE HE Hl1 Hl1' H H') as G.
      unfold append in G. rewrite !length_app in G. simpl in G. lia.
Qed.

(** Chunks that start with a word, without two adjacent blanks and none
    longer than the narrower width, wrap into no more lines on the wider
    width. *)
Lemma _wrap_chunks_monotone (b b' : Z) (chunks out out' : list string) :
  b <= b' ->
  Forall (fun c => strlen c <= b) chunks -> spaced chunks -> starts_with_word chunks ->
  _wrap_chunks b chunks = ret out ->
  _wrap_chunks b' chunks = ret out' ->
  (len out' <= len out)%Z.
Proof.
  intros Hbb' Hshort Hsp Hword H H'. unfold _wrap_chunks in H, H'.
  destruct (Z.leb_spec b 0) as [|Hb]; [discriminate|].
  destruct (Z.leb_spec b' 0); [discriminate|].
  destruct chunks as [|c r].
  { cbn in H, H'. inversion H; inversion H'; subst. reflexivity. }
  unfold weight in H, H'. cbn [fold_right Nat.add] in H, H'.
  cbn [wrap_loop] in H, H'.
  assert (Hshort' : Forall (fun c => strlen c <= b') (c :: r)).
  { eapply Forall_impl; [|exact Hshort]. cbn. intros; lia. }
  destruct (next_line_short [] Hshort) as (E & T & n & Hfill & Hnl).
  destruct (next_line_short [] Hshort') as (E' & T' & n' & Hfill' & Hnl').
  rewrite Hnl in H. rewrite Hnl' in H'. clear Hnl Hnl'.
  change (drop_leading (c :: r) []) with (c :: r) in Hfill, Hfill'.
  pose proof (@fill_line_monotone b b' _ _ _ _ _ _ _ _ ltac:(lia) Hbb'
                (suffix_refl (c :: r)) Hfill Hfill') as HE.
  assert (HT : drop_trailing T <> []).
  { apply (@fill_line_word b (c :: r) E T n); auto. discriminate. }
  assert (HT' : drop_trailing T' <> []).
  { apply (@fill_line_word b' (c :: r) E' T' n'); auto. discriminate. }
  assert (HshortE : Forall (fun c => strlen c <= b) E).
  { apply Forall_suffix with (l := c :: r); [|exact Hshort].
    exact (fill_line_suffix _ _ _ _ Hfill). }
  assert (HspE : spaced E).
  { apply spaced_suffix with (l := c :: r); [|exact Hsp].
    exact (fill_line_suffix _ _ _ _ Hfill). }
  destruct (drop_trailing T) as [|x xs]; [congruence|].
  destruct (drop_trailing T') as [|x' xs']; [congruence|].
  assert (Hl1 : append [] (join "" (x :: xs)) <> []) by (unfold append; discriminate).
  assert (Hl1' : append [] (join "" (x' :: xs')) <> []) by (unfold append; discriminate).
  pose proof (@two_runs b b' ltac:(lia) Hbb' _ _ _ _ _ _ _ _ HshortE HspE HE
                Hl1 Hl1' H H') as G.
  unfold append in G. cbn [app List.length] in G. unfold len. lia.
Qed.

End textwrap_monotone.

(* ===================================================================== *)
(** ** [textwrap]: the chunks of a text *)
(* ===================================================================== *)

Module textwrap_chunks.

Import textwrap textwrap_facts textwrap_monotone.

Local Open Scope Z_scope.

Ltac each_character c :=
  destruct c as [[] [] [] [] [] [] [] []]; vm_compute; intuition congruence.

Lemma _whitespace_isspace (c : ascii) : _whitespace c = true -> isspace c = true.
Proof. each_character c. Qed.

Lemma not_isspace (c : ascii) :
  isspace c = false ->
  (code c =? 9)%N = false
  /\ ((code c =? 10) || (code c =? 13))%N = false
  /\ _whitespace c = false.
Proof. each_character c. Qed.

Lemma str_forallb_In (P : ascii -> bool) (s : string) :
  str_forallb P s = true -> forall c, In c (list_ascii_of_string s) -> P c = true.
Proof.
  induction s as [|a s IH]; cbn [str_forallb list_ascii_of_string]; intros H c Hc.
  - destruct Hc.
  - apply andb_true_iff in H. destruct H as [Ha Hs].
    destruct Hc as [<-|Hc]; [exact Ha | now apply IH].
Qed.

Lemma expandtabs_chars (text : list ascii) :
  forall col c, In c (expandtabs_from 8 col text) -> c = space \/ In c text.
Proof.
  induction text as [|a text IH]; intros col c H; [destruct H|].
  cbn [expandtabs_from] in H. destruct (code a =? 9)%N.
  - apply in_app_or in H. destruct H as [H|H].
    + left. now apply repeat_spec in H.
    + destruct (IH _ _ H); [now left | right; now right].
  - destruct ((code a =? 10) || (code a =? 13))%N;
      (destruct H as [<-|H]; [right; now left|]);
      (destruct (IH _ _ H); [now left | right; now right]).
Qed.

(** After the white space is munged, every space-like character is one
    of [_whitespace]. *)
Lemma munge_plain (text : string) :
  plain_whitespace text = true ->
  forall c, In c (_munge_whitespace text) -> isspace c = true -> _whitespace c = true.
Proof.
  intros Hplain c Hin Hc. unfold _munge_whitespace in Hin.
  apply in_map_iff in Hin. destruct Hin as (a & <- & Ha).
  destruct (_whitespace a) eqn:Hwa; [reflexivity|].
  apply expandtabs_chars in Ha. destruct Ha as [->|Ha]; [discriminate|].
  pose proof (str_forallb_In _ _ Hplain a Ha) as Himp. cbn beta in Himp.
  rewrite Hc, Hwa in Himp. discriminate.
Qed.

Lemma length_lstrip (s : string) : (String.length (lstrip s) <= String.length s)%nat.
Proof.
  induction s as [|c s IH]; cbn [lstrip]; [lia|].
  destruct (isspace c); cbn [String.length]; lia.
Qed.

(** A text that is its own [lstrip] does not start with white space. *)
Lemma munge_head (text : string) :
  lstrip text = text -> is_at _whitespace (_munge_whitespace text) 0 = false.
Proof.
  intros H. destruct text as [|c t]; [reflexivity|].
  cbn [lstrip] in H. destruct (isspace c) eqn:Hc.
  - pose proof (length_lstrip t) as Hl. rewrite H in Hl. cbn [String.length] in Hl. lia.
  - apply not_isspace in Hc. destruct Hc as (H9 & H10 & Hw).
    unfold _munge_whitespace. cbn [list_ascii_of_string expandtabs_from].
    rewrite H9, H10. cbn [map]. rewrite Hw. unfold is_at, at_. cbn. exact Hw.
Qed.

(** *** Where a chunk starts and where a run ends *)

Lemma at_skipn (m : list ascii) (p : Z) (c : ascii) :
  0 <= p -> at_ m p = Some c -> exists rest, skipn (Z.to_nat p) m = c :: rest.
Proof.
  intros Hp H. unfold at_ in H. destruct (Z.ltb_spec p 0); [lia|].
  rewrite <- hd_error_skipn in H.
  destruct (skipn (Z.to_nat p) m) as [|a rest]; [discriminate|].
  inversion H; subst. now exists rest.
Qed.

Lemma substr_head (m : list ascii) (p n : Z) (c : ascii) :
  0 <= p -> 1 <= n -> at_ m p = Some c -> exists s, substr m p n = String c s.
Proof.
  intros Hp Hn H. destruct (at_skipn _ Hp H) as (rest & E).
  unfold substr. rewrite E.
  destruct (Z.to_nat n) as [|k] eqn:Hk; [lia|].
  cbn [firstn string_of_list_ascii]. eexists. reflexivity.
Qed.

Lemma run_end (P : ascii -> bool) (l : list ascii) :
  match nth_error l (run P l) with
  | Some c => P c = false
  | None => True
  end.
Proof.
  induction l as [|a l IH]; [exact I|].
  cbn [run]. destruct (P a) eqn:Ha; [exact IH | exact Ha].
Qed.

Lemma run_at_end (P : ascii -> bool) (m : list ascii) (p : Z) :
  0 <= p -> is_at P m (p + run_at P m p) = false.
Proof.
  intros Hp. unfold is_at, at_, run_at. destruct (Z.ltb_spec p 0); [lia|].
  destruct (Z.ltb_spec (p + Z.of_nat (run P (skipn (Z.to_nat p) m))) 0); [lia|].
  replace (Z.to_nat (p + Z.of_nat (run P (skipn (Z.to_nat p) m))))
    with (Z.to_nat p + run P (skipn (Z.to_nat p) m))%nat by lia.
  rewrite <- nth_error_skipn.
  pose proof (run_end P (skipn (Z.to_nat p) m)) as Hend.
  destruct (nth_error _ _); [exact Hend | reflexivity].
Qed.

Lemma run_at_positive (P : ascii -> bool) (m : list ascii) (p : Z) :
  0 <= p -> is_at P m p = true -> 1 <= run_at P m p.
Proof.
  intros Hp H. unfold is_at in H. destruct (at_ m p) as [c|] eqn:Hc; [|discriminate].
  destruct (at_skipn _ Hp Hc) as (rest & E).
  unfold run_at. destruct (Z.ltb_spec p 0); [lia|].
  rewrite E. cbn [run]. rewrite H. lia.
Qed.

(** The chunks of a text without other white space: a blank chunk is a
    run of white space, and the chunk after it starts with a word
    character. *)
Lemma split_from_spaced (m : list ascii) :
  (forall c, In c m -> isspace c = true -> _whitespace c = true) ->
  forall fuel p,
    0 <= p ->
    spaced (split_from fuel m p)
    /\ (is_at _whitespace m p = false -> starts_with_word (split_from fuel m p)).
Proof.
  intros Hplain. induction fuel as [|fuel IH]; intros p Hp; [split; constructor|].
  cbn [split_from]. destruct (Z.ltb_spec p (len m)) as [Hlt|]; [|split; constructor].
  set (n := Z.max 1 (wordsep_match m p)).
  assert (Hn : 1 <= n) by (subst n; lia).
  destruct (IH (p + n) ltac:(lia)) as [IHs IHw].
  assert (Hat : exists c, at_ m p = Some c /\ In c m).
  { unfold at_. destruct (Z.ltb_spec p 0); [lia|].
    destruct (nth_error m (Z.to_nat p)) as [c|] eqn:E.
    - exists c. split; [reflexivity|]. now apply nth_error_In in E.
    - apply nth_error_None in E. unfold len in Hlt. lia. }
  destruct Hat as (c & Hc & Hin).
  destruct (@substr_head m p n c Hp Hn Hc) as (s & Hs).
  assert (Hblank : blank (substr m p n) = true -> is_at _whitespace m p = true).
  { rewrite Hs. unfold blank. cbn [str_forallb]. intros H.
    apply andb_true_iff in H. destruct H as [H _].
    unfold is_at. rewrite Hc. now apply Hplain. }
  split.
  - destruct (split_from fuel m (p + n)) as [|b rest] eqn:Erest; [exact I|].
    cbn [spaced]. split; [|exact IHs].
    intros Ha. specialize (Hblank Ha).
    assert (En : n = run_at _whitespace m p).
    { subst n. unfold wordsep_match. rewrite Hblank.
      pose proof (run_at_positive _ _ Hp Hblank). lia. }
    apply IHw. rewrite En. now apply run_at_end.
  - intros Hw. cbn [starts_with_word].
    destruct (blank (substr m p n)) eqn:Hb; [|reflexivity].
    specialize (Hblank eq_refl). congruence.
Qed.

Lemma _split_chunks_spaced (text : string) :
  plain_whitespace text = true -> spaced (_split_chunks text).
Proof.
  intros H. unfold _split_chunks, _split.
  apply (@split_from_spaced _ (@munge_plain text H)). reflexivity.
Qed.

Lemma _split_chunks_starts_with_word (text : string) :
  plain_whitespace text = true -> lstrip text = text ->
  starts_with_word (_split_chunks text).
Proof.
  intros H Hl. unfold _split_chunks, _split.
  apply (@split_from_spaced _ (@munge_plain text H)); [reflexivity|].
  now apply munge_head.
Qed.

(** A text that starts with a word, with plain white space and no chunk
    longer than the narrower width, wraps into no more lines on the
    wider width. *)
Lemma wrap_monotone (text : string) (b b' : Z) (l l' : list string) :
  plain_whitespace text = true -> lstrip text = text ->
  Forall (fun chunk => Z.of_nat (String.length chunk) <= b) (_split_chunks text) ->
  b <= b' ->
  wrap text b = ret l -> wrap text b' = ret l' ->
  (len l' <= len l)%Z.
Proof.
  intros Hplain Hstrip Hshort Hb H H'. unfold wrap in H, H'.
  exact (@_wrap_chunks_monotone b b' (_split_chunks text) l l' Hb Hshort
           (@_split_chunks_spaced text Hplain)
           (@_split_chunks_starts_with_word text Hplain Hstrip) H H').
Qed.

End textwrap_chunks.

(* ===================================================================== *)
(** ** The three searches visit their candidate sizes in order *)
(* ===================================================================== *)

Lemma BODY_SIZES_visited :
  descending LOOP_BOUND MIN_FONT_SIZE 0.5 MAX_BODY_SIZE = BODY_SIZES.
Proof. reflexivity. Qed.

Lemma TITLE_SIZES_visited :
  descending LOOP_BOUND MIN_FONT_SIZE 1 MAX_TITLE_SIZE = TITLE_SIZES.
Proof. reflexivity. Qed.

Lemma FOOTER_SIZES_visited :
  descending LOOP_BOUND MIN_FOOTER_FONT_SIZE 0.5 MAX_FOOTER_FONT_SIZE = FOOTER_SIZES.
Proof. reflexivity. Qed.

Ltac by_computation := vm_compute; first [reflexivity | discriminate | tauto].

(** In a hypothesis [H] that a computation returned, go through the
    paragraphs it constructed: each was accepted by the markup parser. *)
Ltac through_paragraphs parse_markup H :=
  unfold new_Paragraph in H;
  repeat match type of H with
         | context [parse_markup ?t ?s] =>
             let e := fresh "e" in
             let E := fresh "Hmarkup" in
             destruct (parse_markup t s) as [e|[]] eqn:E;
             [cbn [bind] in H; discriminate | cbn [bind ret] in H]
         end.

Ltac prove_decreasing :=
  unfold decreasing;
  repeat (constructor; [|repeat (constructor; [by_computation|]); constructor]);
  constructor.

Lemma BODY_SIZES_decreasing : decreasing BODY_SIZES.
Proof. prove_decreasing. Qed.

Lemma TITLE_SIZES_decreasing : decreasing TITLE_SIZES.
Proof. prove_decreasing. Qed.

Lemma FOOTER_SIZES_decreasing : decreasing FOOTER_SIZES.
Proof. prove_decreasing. Qed.

(** In a decreasing list, what does not come before [r] is at most [r]. *)
Lemma decreasing_split (l pre post : list Q) (r s : Q) :
  decreasing l -> l = (pre ++ r :: post)%list -> In s l -> In s pre \/ s <= r.
Proof.
  intros Hl -> Hin. revert Hl Hin. unfold decreasing.
  induction pre as [|p pre IH]; simpl; intros Hl Hin.
  - right. destruct Hin as [<-|Hin]; [apply Qle_refl|].
    inversion Hl as [|? ? _ Hall]; subst.
    rewrite Forall_forall in Hall. apply Qlt_le_weak. apply Hall. exact Hin.
  - destruct Hin as [<-|Hin]; [left; now left|].
    inversion Hl as [|? ? Hl' _]; subst.
    destruct (IH Hl' Hin) as [H|H]; [left; now right | now right].
Qed.

(** In a decreasing list, what comes before a member is larger. *)
Lemma decreasing_split_at (l : list Q) (s : Q) :
  decreasing l -> In s l ->
  exists pre post, l = (pre ++ s :: post)%list /\ Forall (fun p => s < p) pre.
Proof.
  unfold decreasing. induction l as [|a l IH]; intros Hl Hin; [contradiction|].
  inversion Hl as [|? ? Hl' Hall]; subst.
  destruct Hin as [->|Hin].
  - exists [], l. split; [reflexivity | constructor].
  - destruct (IH Hl' Hin) as (pre & post & -> & Hpre).
    exists (a :: pre), post. split; [reflexivity|].
    constructor; [|exact Hpre].
    rewrite Forall_forall in Hall. apply Hall. apply in_or_app. right. now left.
Qed.

Lemma first_fit_spec (ok : Q -> bool) (l : list Q) (default : Q) :
  (exists pre post,
      l = (pre ++ first_fit ok l default :: post)%list
      /\ ok (first_fit ok l default) = true
      /\ Forall (fun s => ok s = false) pre)
  \/ (first_fit ok l default = default /\ Forall (fun s => ok s = false) l).
Proof.
  induction l as [|s l IH]; simpl.
  - right. split; [reflexivity | constructor].
  - destruct (ok s) eqn:Hs.
    + left. exists [], l. repeat split; auto.
    + destruct IH as [(pre & post & E & Hok & Hpre)|[E Hall]].
      * left. exists (s :: pre), post. simpl. rewrite <- E. repeat split; auto.
      * right. split; [exact E | constructor; assumption].
Qed.

Section FitterFacts.

Variable stringWidth : string -> string -> Q -> Q.


(** *** [auto_scale_text] *)

Lemma auto_scale_loop_over (text : string) (max_width max_height : Q) :
  forall fuel font_size avg_char_width,
    (List.length (descending fuel MIN_FONT_SIZE 0.5 font_size) < fuel)%nat ->
    auto_scale_loop stringWidth fuel text max_width max_height font_size avg_char_width
    = auto_scale_over stringWidth (descending fuel MIN_FONT_SIZE 0.5 font_size)
        text max_width max_height avg_char_width.
Proof.
  induction fuel as [|fuel IH]; intros font_size acw Hlen; [simpl in Hlen; lia|].
  cbn [auto_scale_loop descending] in *.
  destruct (Qle_bool MIN_FONT_SIZE font_size); [|reflexivity].
  cbn [auto_scale_over]. unfold wrapped_at, chars_per_line.
  destruct (truediv max_width (stringWidth "n" BODY_FONT_NAME font_size)) as [e|ratio];
    [reflexivity|].
  cbn [bind ret].
  destruct (textwrap.wrap (str_slice_to 2000 text) (int ratio)) as [e|wrapped];
    [reflexivity|].
  cbn [bind]. unfold needed_height.
  destruct (Qle_bool _ max_height); [reflexivity|].
  apply IH. cbn [List.length] in Hlen. lia.
Qed.

Lemma auto_scale_search_over (text : string) (max_width max_height : Q) :
  auto_scale_search stringWidth text max_width max_height
  = auto_scale_over stringWidth BODY_SIZES text max_width max_height None.
Proof.
  unfold auto_scale_search. rewrite auto_scale_loop_over.
  - now rewrite BODY_SIZES_visited.
  - rewrite BODY_SIZES_visited. vm_compute. lia.
Qed.

Lemma auto_scale_over_returned (text : string) (max_width max_height : Q) :
  forall l avg_char_width s c,
    auto_scale_over stringWidth l text max_width max_height avg_char_width = ret (inl (s, c)) ->
    exists pre post wrapped,
      l = (pre ++ s :: post)%list
      /\ Forall (too_tall stringWidth text max_width max_height) pre
      /\ wrapped_at stringWidth text max_width s = ret wrapped
      /\ needed_height wrapped s <= max_height
      /\ c = join "<br/>" wrapped.
Proof.
  induction l as [|font_size l IH]; intros acw s c H; [discriminate|].
  cbn [auto_scale_over] in H.
  destruct (wrapped_at stringWidth text max_width font_size) as [e|wrapped] eqn:Hw; [discriminate|].
  cbn [bind] in H.
  destruct (Qle_bool (needed_height wrapped font_size) max_height) eqn:Hfit.
  - inversion H; subst. exists [], l, wrapped.
    repeat split; auto. now apply Qle_bool_iff.
  - apply IH in H. destruct H as (pre & post & wr & -> & Hpre & Hs & Hh & ->).
    exists (font_size :: pre), post, wr. repeat split; auto.
    constructor; [|exact Hpre]. exists wrapped. split; [exact Hw|].
    intros Hle. apply Qle_bool_iff in Hle. congruence.
Qed.

Lemma auto_scale_over_exhausted (text : string) (max_width max_height : Q) :
  forall l avg_char_width a,
    auto_scale_over stringWidth l text max_width max_height avg_char_width = ret (inr a) ->
    Forall (too_tall stringWidth text max_width max_height) l
    /\ a = width_after stringWidth l avg_char_width.
Proof.
  induction l as [|font_size l IH]; intros acw a H.
  - inversion H; subst. split; [constructor | reflexivity].
  - cbn [auto_scale_over] in H.
    destruct (wrapped_at stringWidth text max_width font_size) as [e|wrapped] eqn:Hw; [discriminate|].
    cbn [bind] in H.
    destruct (Qle_bool (needed_height wrapped font_size) max_height) eqn:Hfit;
      [discriminate|].
    apply IH in H. destruct H as [Hall ->]. split; [|reflexivity].
    constructor; [|exact Hall]. exists wrapped. split; [exact Hw|].
    intros Hle. apply Qle_bool_iff in Hle. congruence.
Qed.

Lemma auto_scale_over_too_tall (text : string) (max_width max_height : Q) :
  forall l avg_char_width,
    Forall (too_tall stringWidth text max_width max_height) l ->
    auto_scale_over stringWidth l text max_width max_height avg_char_width
    = ret (inr (width_after stringWidth l avg_char_width)).
Proof.
  induction l as [|font_size l IH]; intros acw Hall; [reflexivity|].
  inversion Hall as [|? ? (wrapped & Hw & Hh) Hrest]; subst.
  cbn [auto_scale_over]. rewrite Hw. cbn [bind ret].
  destruct (Qle_bool (needed_height wrapped font_size) max_height) eqn:Hfit.
  - apply Qle_bool_iff in Hfit. contradiction.
  - now rewrite IH.
Qed.

(** The sizes that are too tall are passed, and the first size that
    fits is returned. *)
Lemma auto_scale_over_first_fit (text : string) (max_width max_height : Q) :
  forall pre s post wrapped avg_char_width,
    Forall (too_tall stringWidth text max_width max_height) pre ->
    wrapped_at stringWidth text max_width s = ret wrapped ->
    needed_height wrapped s <= max_height ->
    auto_scale_over stringWidth (pre ++ s :: post) text max_width max_height avg_char_width
    = ret (inl (s, join "<br/>" wrapped)).
Proof.
  induction pre as [|font_size pre IH]; intros s post wrapped acw Hpre Hw Hfit.
  - cbn [app auto_scale_over]. rewrite Hw. cbn [bind ret].
    apply Qle_bool_iff in Hfit. now rewrite Hfit.
  - inversion Hpre as [|? ? (tall & Ht & Hh) Hrest]; subst.
    cbn [app auto_scale_over]. rewrite Ht. cbn [bind ret].
    destruct (Qle_bool (needed_height tall font_size) max_height) eqn:E.
    + apply Qle_bool_iff in E. contradiction.
    + now apply IH.
Qed.

Lemma auto_scale_over_defined (text : string) (max_width max_height : Q) :
  forall l avg_char_width,
    Forall (fun s => exists wrapped, wrapped_at stringWidth text max_width s = ret wrapped) l ->
    exists r, auto_scale_over stringWidth l text max_width max_height avg_char_width = ret r.
Proof.
  induction l as [|font_size l IH]; intros acw Hall; [now exists (inr acw)|].
  inversion Hall as [|? ? (wrapped & Hw) Hrest]; subst.
  cbn [auto_scale_over]. rewrite Hw. cbn [bind ret].
  destruct (Qle_bool (needed_height wrapped font_size) max_height).
  - eexists. reflexivity.
  - apply IH. exact Hrest.
Qed.

Lemma fits_not_too_tall (text : string) (max_width max_height s : Q) :
  fits stringWidth text max_width max_height s -> too_tall stringWidth text max_width max_height s -> False.
Proof.
  intros (w1 & E1 & H1) (w2 & E2 & H2). rewrite E1 in E2. inversion E2; subst. auto.
Qed.

(** *** [fit_title_font] and [calculate_footer_font] *)

Lemma fit_title_loop_first_fit (title : string) (max_width : Q) :
  forall fuel font_size,
    (List.length (descending fuel MIN_FONT_SIZE 1 font_size) < fuel)%nat ->
    fit_title_loop stringWidth fuel title max_width font_size
    = ret (first_fit (title_fits stringWidth title max_width)
             (descending fuel MIN_FONT_SIZE 1 font_size) MIN_FONT_SIZE).
Proof.
  induction fuel as [|fuel IH]; intros font_size Hlen; [simpl in Hlen; lia|].
  cbn [fit_title_loop descending] in *.
  destruct (Qle_bool MIN_FONT_SIZE font_size); [|reflexivity].
  cbn [first_fit]. unfold title_fits at 1.
  destruct (Qle_bool _ max_width); [reflexivity|].
  apply IH. cbn [List.length] in Hlen. lia.
Qed.

Lemma fit_title_font_first_fit (title : string) (max_width : Q) :
  fit_title_font stringWidth title max_width
  = ret (first_fit (title_fits stringWidth title max_width) TITLE_SIZES MIN_FONT_SIZE).
Proof.
  unfold fit_title_font. rewrite fit_title_loop_first_fit.
  - now rewrite TITLE_SIZES_visited.
  - rewrite TITLE_SIZES_visited. vm_compute. lia.
Qed.

Lemma footer_loop_first_fit (source_text page_text : string) :
  forall fuel font_size,
    (List.length (descending fuel MIN_FOOTER_FONT_SIZE 0.5 font_size) < fuel)%nat ->
    footer_loop stringWidth fuel source_text page_text font_size
    = ret (first_fit (footer_fits stringWidth source_text page_text)
             (descending fuel MIN_FOOTER_FONT_SIZE 0.5 font_size)
             MIN_FOOTER_FONT_SIZE).
Proof.
  induction fuel as [|fuel IH]; intros font_size Hlen; [simpl in Hlen; lia|].
  cbn [footer_loop descending] in *.
  destruct (Qle_bool MIN_FOOTER_FONT_SIZE font_size); [|reflexivity].
  cbn [first_fit]. unfold footer_fits at 1.
  destruct (Qle_bool _ _ && Qle_bool _ _); [reflexivity|].
  apply IH. cbn [List.length] in Hlen. lia.
Qed.

Lemma calculate_footer_font_first_fit (source_text page_text : string) :
  calculate_footer_font stringWidth source_text page_text
  = ret (first_fit (footer_fits stringWidth source_text page_text) FOOTER_SIZES
           MIN_FOOTER_FONT_SIZE).
Proof.
  unfold calculate_footer_font. rewrite footer_loop_first_fit.
  - now rewrite FOOTER_SIZES_visited.
  - rewrite FOOTER_SIZES_visited. vm_compute. lia.
Qed.

End FitterFacts.

Lemma first_fit_largest (ok : Q -> bool) (l : list Q) (default : Q) :
  decreasing l ->
  (In (first_fit ok l default) l
   /\ ok (first_fit ok l default) = true
   /\ forall s, In s l -> ok s = true -> s <= first_fit ok l default)
  \/ (first_fit ok l default = default /\ forall s, In s l -> ok s = false).
Proof.
  intros Hdec. destruct (first_fit_spec ok l default) as [(pre & post & E & Hok & Hpre)|[E Hall]].
  - left. split; [|split].
    + rewrite E at 2. apply in_or_app. right. now left.
    + exact Hok.
    + intros s Hin Hs.
      destruct (@decreasing_split l pre post (first_fit ok l default) s Hdec E Hin)
        as [H|H]; [|exact H].
      rewrite Forall_forall in Hpre. specialize (Hpre s H). congruence.
  - right. split; [exact E|]. now apply Forall_forall.
Qed.

(** A size returned from inside the loop is a candidate that fits. *)
Lemma auto_scale_search_fits (stringWidth : string -> string -> Q -> Q)
    (text : string) (max_width max_height s : Q) (c : string) :
  auto_scale_search stringWidth text max_width max_height = ret (inl (s, c)) ->
  In s BODY_SIZES /\ fits stringWidth text max_width max_height s.
Proof.
  intros H. rewrite auto_scale_search_over in H.
  apply auto_scale_over_returned in H.
  destruct H as (pre & post & wrapped & E & _ & Hw & Hh & _). split.
  - rewrite E. apply in_or_app. right. now left.
  - exists wrapped. now split.
Qed.

(* ===================================================================== *)
(** ** The text fitter: the search and the fallback *)
(* ===================================================================== *)

(** C2. [auto_scale_text] returns a size [s] from inside its search loop
    exactly when [s] is a candidate of 10, 9.5, ..., 6, every larger
    candidate was tried and is too tall, and the text wrapped at [s]
    needs no more than [max_height] (line count times size times
    [LINE_SPACING]); the returned text is these lines joined.  The size
    returned is then the largest candidate that fits: every candidate
    that fits is at most it, and the result of the loop is the result of
    [auto_scale_text]. *)
Theorem auto_scale_text_search_returns_largest_fit
    (stringWidth : string -> string -> Q -> Q)
    (line_limit : Q -> Z)
    (text : string) (max_width max_height s : Q) (c : string) :
  (auto_scale_search stringWidth text max_width max_height = ret (inl (s, c))
   <-> In s BODY_SIZES
       /\ (forall s', In s' BODY_SIZES -> s < s' ->
                       too_tall stringWidth text max_width max_height s')
       /\ exists wrapped,
            wrapped_at stringWidth text max_width s = ret wrapped
            /\ c = join "<br/>" wrapped
            /\ inject_Z (len wrapped) * (s * LINE_SPACING) <= max_height)
  /\ (auto_scale_search stringWidth text max_width max_height = ret (inl (s, c)) ->
      auto_scale_text stringWidth line_limit text max_width max_height = ret (s, c)
      /\ forall s', In s' BODY_SIZES ->
                     fits stringWidth text max_width max_height s' -> s' <= s).
Proof.
  split; [split|].
  - intros Hsearch. rewrite auto_scale_search_over in Hsearch.
    apply auto_scale_over_returned in Hsearch.
    destruct Hsearch as (pre & post & wrapped & E & Hpre & Hw & Hh & ->).
    split; [|split].
    + rewrite E. apply in_or_app. right. now left.
    + intros s' Hin Hlt.
      destruct (@decreasing_split BODY_SIZES pre post s s' BODY_SIZES_decreasing E Hin)
        as [H|H].
      * rewrite Forall_forall in Hpre. now apply Hpre.
      * exfalso. apply (Qlt_irrefl s). now apply Qlt_le_trans with s'.
    + exists wrapped. repeat split; assumption.
  - intros (Hin & Hlarger & wrapped & Hw & -> & Hfit).
    destruct (@decreasing_split_at BODY_SIZES s BODY_SIZES_decreasing Hin)
      as (pre & post & E & Hpre).
    rewrite auto_scale_search_over. rewrite E.
    apply auto_scale_over_first_fit; [|exact Hw | exact Hfit].
    apply Forall_forall. intros s' Hs'. apply Hlarger.
    + rewrite E. apply in_or_app. now left.
    + rewrite Forall_forall in Hpre. now apply Hpre.
  - intros Hsearch. split.
    + unfold auto_scale_text. rewrite Hsearch. reflexivity.
    + rewrite auto_scale_search_over in Hsearch.
      apply auto_scale_over_returned in Hsearch.
      destruct Hsearch as (pre & post & wrapped & E & Hpre & Hw & Hh & ->).
      intros s' Hin Hfits.
      destruct (@decreasing_split BODY_SIZES pre post s s' BODY_SIZES_decreasing E Hin)
        as [H|H]; [|exact H].
      rewrite Forall_forall in Hpre. exfalso.
      exact (fits_not_too_tall Hfits (Hpre s' H)).
Qed.

Ltac too_tall_by_computation :=
  eexists; split; [vm_compute; reflexivity | vm_compute; intros H; apply H; reflexivity].

(** The pangram on a box of 60 by 30 points: the six sizes from 10 down
    to 7.5 are tried and are too tall, and the loop returns the size 7
    with three lines. *)
Lemma auto_scale_text_search_returns_largest_fit_witness :
  let lines := ["the quick brown"; "fox jumps over"; "the lazy dog"] in
  (forall s', In s' BODY_SIZES -> 7 < s' ->
              too_tall pdfmetrics.stringWidth pangram 60 30 s')
  /\ wrapped_at pdfmetrics.stringWidth pangram 60 7 = ret lines
  /\ auto_scale_search pdfmetrics.stringWidth pangram 60 30
     = ret (inl (7, join "<br/>" lines))
  /\ auto_scale_text pdfmetrics.stringWidth exact_line_limit pangram 60 30
     = ret (7, "the quick brown<br/>fox jumps over<br/>the lazy dog")
  /\ (forall s', In s' BODY_SIZES ->
                 fits pdfmetrics.stringWidth pangram 60 30 s' -> s' <= 7).
Proof.
  cbv zeta.
  assert (Hlarger : forall s', In s' BODY_SIZES -> 7 < s' ->
                      too_tall pdfmetrics.stringWidth pangram 60 30 s').
  { intros s' Hin Hlt. unfold BODY_SIZES in Hin. simpl in Hin.
    repeat (destruct Hin as [<-|Hin];
            [first [too_tall_by_computation | discriminate Hlt]|]).
    contradiction. }
  assert (Hw : wrapped_at pdfmetrics.stringWidth pangram 60 7
               = ret ["the quick brown"; "fox jumps over"; "the lazy dog"])
    by (vm_compute; reflexivity).
  pose proof (@auto_scale_text_search_returns_largest_fit
                pdfmetrics.stringWidth exact_line_limit pangram 60 30 7
                (join "<br/>" ["the quick brown"; "fox jumps over"; "the lazy dog"]))
    as [Hiff Hthen].
  assert (Hsearch : auto_scale_search pdfmetrics.stringWidth pangram 60 30
                    = ret (inl (7, join "<br/>"
                                     ["the quick brown"; "fox jumps over";
                                      "the lazy dog"]))).
  { apply Hiff. split; [simpl; tauto|]. split; [exact Hlarger|].
    eexists. split; [exact Hw|]. split; [reflexivity | discriminate]. }
  split; [exact Hlarger|]. split; [exact Hw|]. split; [exact Hsearch|].
  exact (Hthen Hsearch).
Defined.

(** *** Python's [int] and slices on non-negative numbers *)

Lemma int_nonneg (x : Q) : 0 <= x -> int x = Qfloor x.
Proof.
  intros H. destruct x as [n d]. unfold int, Qfloor. simpl.
  apply Z.quot_div_nonneg; [|reflexivity].
  unfold Qle in H. simpl in H. lia.
Qed.

Lemma int_nonpos (x : Q) : x <= 0 -> int x = Qceiling x.
Proof.
  intros H. destruct x as [n d]. unfold int, Qceiling, Qfloor, Qopp. simpl.
  unfold Qle in H. simpl in H.
  rewrite <- (Z.opp_involutive n) at 1.
  rewrite Z.quot_opp_l by discriminate.
  rewrite Z.quot_div_nonneg by lia. reflexivity.
Qed.

(** [int] is monotone. *)
Lemma int_le (x y : Q) : x <= y -> (int x <= int y)%Z.
Proof.
  intros H. destruct (Qlt_le_dec x 0) as [Hx|Hx]; destruct (Qlt_le_dec y 0) as [Hy|Hy].
  - rewrite !int_nonpos by now apply Qlt_le_weak. now apply Qceiling_resp_le.
  - rewrite int_nonpos by now apply Qlt_le_weak. rewrite int_nonneg by exact Hy.
    assert (Qceiling x <= 0)%Z.
    { rewrite <- (Qceiling_Z 0). apply Qceiling_resp_le. now apply Qlt_le_weak. }
    assert (0 <= Qfloor y)%Z.
    { rewrite <- (Qfloor_Z 0). now apply Qfloor_resp_le. }
    lia.
  - exfalso. apply (Qlt_irrefl 0). apply Qle_lt_trans with y; [|exact Hy].
    now apply Qle_trans with x.
  - rewrite !int_nonneg by assumption. now apply Qfloor_resp_le.
Qed.

Lemma slice_to_nonneg {A} (k : Z) (l : list A) :
  (0 <= k)%Z -> slice_to k l = firstn (Z.to_nat k) l.
Proof. intros H. unfold slice_to. destruct (Z.ltb_spec k 0); [lia | reflexivity]. Qed.

Lemma len_firstn_le {A} (k : Z) (l : list A) :
  (0 <= k)%Z -> (len (firstn (Z.to_nat k) l) <= k)%Z.
Proof.
  intros H. unfold len. pose proof (firstn_le_length (Z.to_nat k) l). lia.
Qed.

Lemma width_after_BODY_SIZES (stringWidth : string -> string -> Q -> Q) :
  width_after stringWidth BODY_SIZES None
  = Some (stringWidth "n" BODY_FONT_NAME MIN_FONT_SIZE).
Proof. reflexivity. Qed.

Lemma MIN_FONT_SIZE_is_candidate : In MIN_FONT_SIZE BODY_SIZES.
Proof. unfold BODY_SIZES, MIN_FONT_SIZE. simpl. tauto. Qed.




(* ===================================================================== *)
(** ** The title fitter and the footer fitter *)
(* ===================================================================== *)

(** C7. [fit_title_font] returns the largest of the sizes 12, 11, ..., 6
    at which the measured width of the whole title is at most
    [max_width], and [MIN_FONT_SIZE] when there is none.  The title is
    not touched: the title paragraph of a composed card holds the title
    as given, between the bold tags, at the fitted size. *)
Theorem fit_title_font_largest_fit
    (stringWidth : string -> string -> Q -> Q)
    (line_limit : Q -> Z)
    (parse_markup : string -> ParagraphStyle -> result unit) (title : string) :
  (forall max_width,
      exists s,
        fit_title_font stringWidth title max_width = ret s
        /\ In s TITLE_SIZES
        /\ ((stringWidth title TITLE_FONT_NAME s <= max_width
             /\ forall s', In s' TITLE_SIZES ->
                           stringWidth title TITLE_FONT_NAME s' <= max_width ->
                           s' <= s)
            \/ (s = MIN_FONT_SIZE
                /\ forall s', In s' TITLE_SIZES ->
                              ~ stringWidth title TITLE_FONT_NAME s' <= max_width)))
  /\ (forall quote analysis source page_number card,
         create_card_content stringWidth line_limit parse_markup title quote analysis source page_number
         = ret card ->
         exists style,
           title_paragraph card = Some ("<b>" ++ title ++ "</b>", style)
           /\ fit_title_font stringWidth title CONTENT_WIDTH = ret (fontSize style)).
Proof.
  split.
  - intros max_width. rewrite fit_title_font_first_fit.
    eexists. split; [reflexivity|].
    destruct (first_fit_largest (title_fits stringWidth title max_width)
                MIN_FONT_SIZE TITLE_SIZES_decreasing) as [(Hin & Hok & Hmax)|[E Hnone]].
    + split; [exact Hin|]. left. split.
      * now apply Qle_bool_iff.
      * intros s' Hs' Hle. apply Hmax; [exact Hs'|]. now apply Qle_bool_iff.
    + split.
      * rewrite E. unfold TITLE_SIZES, MIN_FONT_SIZE. simpl. tauto.
      * right. split; [exact E|]. intros s' Hs' Hle.
        apply Qle_bool_iff in Hle. specialize (Hnone s' Hs').
        unfold title_fits in Hnone. congruence.
  - intros quote analysis source page_number card H.
    unfold create_card_content in H.
    destruct (fit_title_font stringWidth title CONTENT_WIDTH) as [e|size]; [discriminate|].
    cbn [bind] in H.
    destruct (auto_scale_text stringWidth line_limit quote CONTENT_WIDTH _) as [e|[qf qc]];
      [discriminate|].
    cbn [bind] in H.
    destruct (auto_scale_text stringWidth line_limit analysis CONTENT_WIDTH _) as [e|[af ac]];
      [discriminate|].
    cbn [bind] in H.
    destruct (calculate_footer_font stringWidth _ _) as [e|ff]; [discriminate|].
    cbn [bind] in H. through_paragraphs parse_markup H.
    inversion H; subst card. clear H.
    eexists. split; reflexivity.
Qed.

(** The width left to the source column. *)
Lemma available_source_width : CONTENT_WIDTH - PAGE_COL_WIDTH - 6 == 282.
Proof. reflexivity. Qed.

(** C8. [calculate_footer_font] returns one size for both columns: the
    largest of 8, 7.5, 7, 6.5, 6 at which the source is at most
    [CONTENT_WIDTH - PAGE_COL_WIDTH - 6] wide and the page at most
    [PAGE_COL_WIDTH] wide, and [MIN_FOOTER_FONT_SIZE] when no size
    satisfies both; when both hold at [MAX_FOOTER_FONT_SIZE], that is the
    size returned. *)
Theorem calculate_footer_font_largest_joint_fit
    (stringWidth : string -> string -> Q -> Q) (source_text page_text : string) :
  let joint s :=
    stringWidth source_text BODY_FONT_NAME s <= CONTENT_WIDTH - PAGE_COL_WIDTH - 6
    /\ stringWidth page_text BODY_FONT_NAME s <= PAGE_COL_WIDTH in
  exists s,
    calculate_footer_font stringWidth source_text page_text = ret s
    /\ In s FOOTER_SIZES
    /\ ((joint s /\ forall s', In s' FOOTER_SIZES -> joint s' -> s' <= s)
        \/ (s = MIN_FOOTER_FONT_SIZE
            /\ forall s', In s' FOOTER_SIZES -> ~ joint s'))
    /\ (joint MAX_FOOTER_FONT_SIZE -> s = MAX_FOOTER_FONT_SIZE).
Proof.
  intros joint.
  assert (Hjoint : forall s, footer_fits stringWidth source_text page_text s = true
                             <-> joint s).
  { intros s. unfold footer_fits, joint. rewrite andb_true_iff, !Qle_bool_iff.
    reflexivity. }
  rewrite calculate_footer_font_first_fit.
  eexists. split; [reflexivity|]. split; [|split].
  - destruct (first_fit_largest (footer_fits stringWidth source_text page_text)
                MIN_FOOTER_FONT_SIZE FOOTER_SIZES_decreasing) as [(Hin & _)|[E _]].
    + exact Hin.
    + rewrite E. unfold FOOTER_SIZES, MIN_FOOTER_FONT_SIZE. simpl. tauto.
  - destruct (first_fit_largest (footer_fits stringWidth source_text page_text)
                MIN_FOOTER_FONT_SIZE FOOTER_SIZES_decreasing)
      as [(Hin & Hok & Hmax)|[E Hnone]].
    + left. split; [now apply Hjoint|].
      intros s' Hs' Hj. apply Hmax; [exact Hs'|]. now apply Hjoint.
    + right. split; [exact E|]. intros s' Hs' Hj. apply Hjoint in Hj.
      specialize (Hnone s' Hs'). congruence.
  - intros Hmax. apply Hjoint in Hmax.
    unfold FOOTER_SIZES. cbn [first_fit].
    change (8 : Q) with MAX_FOOTER_FONT_SIZE. rewrite Hmax. reflexivity.
Qed.

(* ===================================================================== *)
(** ** The text fitter on Helvetica: when it returns, and in which range *)
(* ===================================================================== *)

Lemma BODY_SIZES_range : Forall (fun s => MIN_FONT_SIZE <= s /\ s <= MAX_BODY_SIZE) BODY_SIZES.
Proof. unfold BODY_SIZES. repeat constructor; by_computation. Qed.

Lemma BODY_SIZES_positive : Forall (fun s => 0 < s) BODY_SIZES.
Proof. unfold BODY_SIZES. repeat constructor. Qed.

(** How a call of [auto_scale_text] returns: from the loop, or from the
    fallback with the minimum size. *)
Lemma auto_scale_text_cases (stringWidth : string -> string -> Q -> Q)
    (line_limit : Q -> Z)
    (text : string) (max_width max_height s : Q) (c : string) :
  auto_scale_text stringWidth line_limit text max_width max_height = ret (s, c) ->
  auto_scale_search stringWidth text max_width max_height = ret (inl (s, c))
  \/ (exists a, auto_scale_search stringWidth text max_width max_height = ret (inr a))
     /\ s = MIN_FONT_SIZE.
Proof.
  unfold auto_scale_text.
  destruct (auto_scale_search stringWidth text max_width max_height) as [e|[[s' c']|a]];
    cbn [bind]; intros H.
  - discriminate.
  - inversion H; subst. now left.
  - right. split; [now exists a|].
    unfold auto_scale_fallback in H.
    destruct a as [a|]; [|discriminate]. cbn [bind ret] in H.
    destruct (truediv max_width a); [discriminate|]. cbn [bind] in H.
    destruct (textwrap.wrap text _); [discriminate|]. cbn [bind] in H.
    now inversion H.
Qed.

(** Whatever the metrics, a size returned is within the configured range. *)
Lemma auto_scale_text_size_in_range (stringWidth : string -> string -> Q -> Q)
    (line_limit : Q -> Z)
    (text : string) (max_width max_height s : Q) (c : string) :
  auto_scale_text stringWidth line_limit text max_width max_height = ret (s, c) ->
  MIN_FONT_SIZE <= s /\ s <= MAX_BODY_SIZE.
Proof.
  intros H. apply auto_scale_text_cases in H. destruct H as [H|[_ ->]].
  - apply auto_scale_search_fits in H. destruct H as [Hin _].
    pose proof BODY_SIZES_range as Hr. rewrite Forall_forall in Hr. now apply Hr.
  - split; by_computation.
Qed.

(** The width of the letter n in Helvetica: 0.556 of the font size. *)
Lemma Helvetica_n (s : Q) :
  pdfmetrics.stringWidth "n" BODY_FONT_NAME s = inject_Z 556 * 0.001 * s.
Proof. reflexivity. Qed.

(** With a box at least as wide as one n at the largest size, the budget
    is at least one character at every size up to it. *)
Lemma Helvetica_budget (max_width s : Q) :
  5.56 <= max_width -> 0 < s -> s <= MAX_BODY_SIZE ->
  exists budget,
    chars_per_line pdfmetrics.stringWidth max_width s = ret budget /\ (1 <= budget)%Z.
Proof.
  intros Hw Hs Hmax. unfold chars_per_line. rewrite Helvetica_n.
  assert (Hpos : 0 < inject_Z 556 * 0.001 * s).
  { apply Qmult_lt_0_compat; [reflexivity | exact Hs]. }
  unfold truediv.
  destruct (Qeq_bool (inject_Z 556 * 0.001 * s) 0) eqn:E.
  - apply Qeq_bool_eq in E. rewrite E in Hpos. discriminate.
  - cbn [bind ret]. eexists. split; [reflexivity|].
    change 1%Z with (int 1). apply int_le.
    apply Qle_shift_div_l; [exact Hpos|].
    unfold MAX_BODY_SIZE in Hmax. rewrite Qmult_1_l.
    apply Qle_trans with (inject_Z 556 * 0.001 * 10).
    + apply Qmult_le_l; [reflexivity | exact Hmax].
    + assert (E' : inject_Z 556 * 0.001 * 10 == 5.56) by reflexivity.
      rewrite E'. exact Hw.
Qed.

Lemma Helvetica_wrapped_at (text : string) (max_width s : Q) :
  5.56 <= max_width -> In s BODY_SIZES ->
  exists wrapped, wrapped_at pdfmetrics.stringWidth text max_width s = ret wrapped.
Proof.
  intros Hw Hin.
  pose proof BODY_SIZES_range as Hr. pose proof BODY_SIZES_positive as Hp.
  rewrite Forall_forall in Hr, Hp.
  destruct (@Helvetica_budget max_width s Hw (Hp s Hin) (proj2 (Hr s Hin)))
    as (budget & Hb & Hpos).
  unfold wrapped_at. rewrite Hb. cbn [bind ret].
  apply textwrap_facts.wrap_defined. lia.
Qed.

(** [auto_scale_text] returns on every such box, whatever its height. *)
Lemma Helvetica_auto_scale_text_returns (line_limit : Q -> Z) (text : string) (max_width max_height : Q) :
  5.56 <= max_width ->
  exists s c, auto_scale_text pdfmetrics.stringWidth line_limit text max_width max_height = ret (s, c).
Proof.
  intros Hw. unfold auto_scale_text. rewrite auto_scale_search_over.
  destruct (@auto_scale_over_defined pdfmetrics.stringWidth text max_width max_height
              BODY_SIZES None) as (r & Hr).
  { apply Forall_forall. intros s Hin. now apply Helvetica_wrapped_at. }
  rewrite Hr. cbn [bind ret]. destruct r as [[s c]|a]; [now exists s, c|].
  apply auto_scale_over_exhausted in Hr. destruct Hr as [_ ->].
  rewrite width_after_BODY_SIZES. unfold auto_scale_fallback. cbn [bind ret].
  destruct (@Helvetica_budget max_width MIN_FONT_SIZE Hw) as (budget & Hb & Hpos);
    [reflexivity | discriminate|].
  unfold chars_per_line in Hb.
  destruct (truediv max_width (pdfmetrics.stringWidth "n" BODY_FONT_NAME MIN_FONT_SIZE))
    as [e|ratio]; [discriminate|].
  cbn [bind ret] in Hb |- *. inversion Hb; subst budget.
  destruct (@textwrap_facts.wrap_defined text (int ratio)) as (wrapped & Hwrapped); [lia|].
  rewrite Hwrapped. cbn [bind ret]. eexists. eexists. reflexivity.
Qed.

(** C1, as the code has it.  On a box that is at least as wide as one
    letter n at [MAX_BODY_SIZE] (5.56 points in Helvetica) and of positive
    height, [auto_scale_text] returns, and the size it returns lies
    between [MIN_FONT_SIZE] and [MAX_BODY_SIZE]. *)
Theorem auto_scale_text_returns_in_range (line_limit : Q -> Z) (text : string) (max_width max_height : Q) :
  5.56 <= max_width ->
  0 < max_height ->
  exists s c,
    auto_scale_text pdfmetrics.stringWidth line_limit text max_width max_height = ret (s, c)
    /\ MIN_FONT_SIZE <= s /\ s <= MAX_BODY_SIZE.
Proof.
  intros Hw _.
  destruct (@Helvetica_auto_scale_text_returns line_limit text max_width max_height Hw)
    as (s & c & H).
  exists s, c. split; [exact H|].
  eapply auto_scale_text_size_in_range. exact H.
Qed.

Lemma auto_scale_text_returns_in_range_witness :
  5.56 <= 336
  /\ 0 < 60
  /\ exists s c,
      auto_scale_text pdfmetrics.stringWidth exact_line_limit "Short quote." 336 60 = ret (s, c)
      /\ MIN_FONT_SIZE <= s /\ s <= MAX_BODY_SIZE.
Proof.
  split; [discriminate|]. split; [reflexivity|].
  apply (@auto_scale_text_returns_in_range exact_line_limit "Short quote." 336 60);
    [discriminate | reflexivity].
Defined.

(** C1 as stated fails on a box narrower than one character: the budget
    is zero and [textwrap.wrap] raises [ValueError]. *)
Lemma auto_scale_text_raises_on_narrow_box :
  0 < 1
  /\ 0 < 1
  /\ chars_per_line pdfmetrics.stringWidth 1 MAX_BODY_SIZE = ret 0%Z
  /\ auto_scale_text pdfmetrics.stringWidth exact_line_limit "Short quote." 1 1
     = raise (ValueError "invalid width 0 (must be > 0)").
Proof. repeat split; reflexivity. Qed.

(* ===================================================================== *)
(** ** Long words *)
(* ===================================================================== *)

(** C5, as the code has it.  [textwrap.wrap] is called with its default
    [break_long_words]: a word longer than the character budget is cut at
    the budget, so that every wrapped line has at most as many
    characters as the budget allows. *)
Theorem wrap_lines_within_budget (text : string) (width : Z) (lines : list string) :
  textwrap.wrap text width = ret lines ->
  Forall (fun line => (Z.of_nat (String.length line) <= width)%Z) lines.
Proof.
  intros H. pose proof (textwrap_facts.wrap_positive _ _ H) as Hw.
  unfold textwrap.wrap, textwrap._wrap_chunks in H.
  destruct (Z.leb_spec width 0); [lia|].
  destruct (@textwrap_facts.wrap_loop_spec width ltac:(lia)
              (textwrap.weight (textwrap._split_chunks text))
              (textwrap._split_chunks text) [] (le_n _) (Forall_nil _))
    as (out & E & Hout).
  rewrite E in H. inversion H; subst. exact Hout.
Qed.

Lemma wrap_lines_within_budget_witness :
  textwrap.wrap "abcdefghijkl" 5 = ret ["abcde"; "fghij"; "kl"]
  /\ Forall (fun line => (Z.of_nat (String.length line) <= 5)%Z)
            ["abcde"; "fghij"; "kl"].
Proof.
  split; [reflexivity|].
  apply (@wrap_lines_within_budget "abcdefghijkl" 5 ["abcde"; "fghij"; "kl"]).
  reflexivity.
Defined.

(** C5 as stated fails: a word of twelve letters in a box with a budget
    of five characters is not kept as a line of its own, it is cut into
    three lines. *)
Lemma long_word_is_split :
  chars_per_line pdfmetrics.stringWidth 30 MAX_BODY_SIZE = ret 5%Z
  /\ textwrap.wrap "abcdefghijkl" 5 = ret ["abcde"; "fghij"; "kl"]
  /\ auto_scale_text pdfmetrics.stringWidth exact_line_limit "abcdefghijkl" 30 100
     = ret (10, "abcde<br/>fghij<br/>kl")
  /\ ~ In "abcdefghijkl" ["abcde"; "fghij"; "kl"].
Proof.
  repeat split; try reflexivity.
  simpl. intros [H|[H|[H|[]]]]; discriminate.
Qed.

(* ===================================================================== *)
(** ** The chosen size and the width of the box *)
(* ===================================================================== *)

(** A size that fits the narrower box is not too tall for the wider one,
    when the text does not wrap into more lines on a budget larger than
    the one of the narrower box. *)
Lemma fits_narrow_not_too_tall_wide (stringWidth : string -> string -> Q -> Q)
    (text : string) (w1 w2 max_height s : Q) :
  w1 <= w2 ->
  0 < stringWidth "n" BODY_FONT_NAME s ->
  0 < s ->
  (forall b b' l l',
      chars_per_line stringWidth w1 s = ret b ->
      (b <= b')%Z ->
      textwrap.wrap (str_slice_to 2000 text) b = ret l ->
      textwrap.wrap (str_slice_to 2000 text) b' = ret l' ->
      (len l' <= len l)%Z) ->
  fits stringWidth text w1 max_height s ->
  too_tall stringWidth text w2 max_height s ->
  False.
Proof.
  intros Hw Hn Hs Hmono (l1 & E1 & H1) (l2 & E2 & H2).
  unfold wrapped_at in E1, E2.
  assert (Hc : chars_per_line stringWidth w1 s
               = ret (int (w1 / stringWidth "n" BODY_FONT_NAME s))).
  { unfold chars_per_line, truediv.
    destruct (Qeq_bool (stringWidth "n" BODY_FONT_NAME s) 0) eqn:E; [|reflexivity].
    apply Qeq_bool_iff in E. rewrite E in Hn. discriminate. }
  rewrite Hc in E1. unfold chars_per_line, truediv in E2.
  destruct (Qeq_bool (stringWidth "n" BODY_FONT_NAME s) 0); [discriminate|].
  cbn [bind ret] in E1, E2.
  assert (Hb : (int (w1 / stringWidth "n" BODY_FONT_NAME s)
                <= int (w2 / stringWidth "n" BODY_FONT_NAME s))%Z).
  { apply int_le. unfold Qdiv. apply Qmult_le_compat_r; [exact Hw|].
    apply Qlt_le_weak. now apply Qinv_lt_0_compat. }
  specialize (Hmono _ _ _ _ Hc Hb E1 E2).
  apply H2. unfold needed_height in *.
  apply Qle_trans with (inject_Z (len l1) * (s * LINE_SPACING)); [|exact H1].
  apply Qmult_le_compat_r; [now rewrite <- Zle_Qle|].
  apply Qlt_le_weak. apply Qmult_lt_0_compat; [exact Hs | reflexivity].
Qed.

(** The chosen size grows with the width for every text whose number of
    wrapped lines does not grow with the character budget, from the
    budgets of the narrower box on. *)
Lemma auto_scale_text_monotone_when_wrap_is
    (stringWidth : string -> string -> Q -> Q)
    (line_limit : Q -> Z)
    (text : string) (w1 w2 max_height s1 s2 : Q) (c1 c2 : string) :
  w1 <= w2 ->
  (forall s, In s BODY_SIZES -> 0 < stringWidth "n" BODY_FONT_NAME s) ->
  (forall s b b' l l',
      In s BODY_SIZES ->
      chars_per_line stringWidth w1 s = ret b ->
      (b <= b')%Z ->
      textwrap.wrap (str_slice_to 2000 text) b = ret l ->
      textwrap.wrap (str_slice_to 2000 text) b' = ret l' ->
      (len l' <= len l)%Z) ->
  auto_scale_text stringWidth line_limit text w1 max_height = ret (s1, c1) ->
  auto_scale_text stringWidth line_limit text w2 max_height = ret (s2, c2) ->
  s1 <= s2.
Proof.
  intros Hw Hn Hmono H1 H2.
  pose proof BODY_SIZES_range as Hr. pose proof BODY_SIZES_positive as Hp.
  rewrite Forall_forall in Hr, Hp.
  apply auto_scale_text_cases in H1. apply auto_scale_text_cases in H2.
  destruct H1 as [H1|[_ ->]].
  - (* the narrower box returned from the loop: its size fits there *)
    apply auto_scale_search_fits in H1. destruct H1 as [Hin1 Hfits].
    destruct H2 as [H2|[(a & H2) ->]].
    + rewrite auto_scale_search_over in H2. apply auto_scale_over_returned in H2.
      destruct H2 as (pre & post & _ & E & Hpre & _).
      destruct (@decreasing_split BODY_SIZES pre post s2 s1 BODY_SIZES_decreasing E Hin1)
        as [H|H]; [|exact H].
      rewrite Forall_forall in Hpre. exfalso.
      exact (@fits_narrow_not_too_tall_wide stringWidth text w1 w2 max_height s1
               Hw (Hn s1 Hin1) (Hp s1 Hin1) (fun b b' l l' => Hmono s1 b b' l l' Hin1)
               Hfits (Hpre s1 H)).
    + rewrite auto_scale_search_over in H2. apply auto_scale_over_exhausted in H2.
      destruct H2 as [Hall _]. rewrite Forall_forall in Hall. exfalso.
      exact (@fits_narrow_not_too_tall_wide stringWidth text w1 w2 max_height s1
               Hw (Hn s1 Hin1) (Hp s1 Hin1) (fun b b' l l' => Hmono s1 b b' l l' Hin1)
               Hfits (Hall s1 Hin1)).
  - (* the narrower box fell back to the minimum size *)
    destruct H2 as [H2|[_ ->]]; [|apply Qle_refl].
    apply auto_scale_search_fits in H2. destruct H2 as [Hin2 _]. now apply Hr.
Qed.

(** C6, as the code has it.  Take a text whose first 2000 characters do
    not start with white space, hold no white space other than tab, line
    feed, vertical tab, form feed, carriage return and space, and split
    into chunks (words and runs of white space, as [textwrap] splits
    them) none of which is longer than the character budget of the
    narrower box at any candidate size; and metrics that give the letter
    n a positive width.  Then the size chosen for the narrower of two
    boxes of the same height is at most the size chosen for the wider
    one. *)
Theorem auto_scale_text_monotone_in_width
    (stringWidth : string -> string -> Q -> Q)
    (line_limit : Q -> Z)
    (text : string) (w1 w2 max_height s1 s2 : Q) (c1 c2 : string) :
  w1 <= w2 ->
  (forall s, In s BODY_SIZES -> 0 < stringWidth "n" BODY_FONT_NAME s) ->
  lstrip (str_slice_to 2000 text) = str_slice_to 2000 text ->
  plain_whitespace (str_slice_to 2000 text) = true ->
  (forall s budget,
      In s BODY_SIZES ->
      chars_per_line stringWidth w1 s = ret budget ->
      Forall (fun chunk => (Z.of_nat (String.length chunk) <= budget)%Z)
             (textwrap._split_chunks (str_slice_to 2000 text))) ->
  auto_scale_text stringWidth line_limit text w1 max_height = ret (s1, c1) ->
  auto_scale_text stringWidth line_limit text w2 max_height = ret (s2, c2) ->
  s1 <= s2.
Proof.
  intros Hw Hn Hstrip Hplain Hshort H1 H2.
  apply (@auto_scale_text_monotone_when_wrap_is stringWidth line_limit text w1 w2 max_height
           s1 s2 c1 c2 Hw Hn); [|exact H1|exact H2].
  intros s b b' l l' Hin Hc Hb E E'.
  exact (@textwrap_chunks.wrap_monotone (str_slice_to 2000 text) b b' l l'
           Hplain Hstrip (Hshort s b Hin Hc) Hb E E').
Qed.

Lemma auto_scale_text_monotone_in_width_witness :
  60 <= 200
  /\ (forall s, In s BODY_SIZES -> 0 < pdfmetrics.stringWidth "n" BODY_FONT_NAME s)
  /\ lstrip (str_slice_to 2000 pangram) = str_slice_to 2000 pangram
  /\ plain_whitespace (str_slice_to 2000 pangram) = true
  /\ (forall s budget,
         In s BODY_SIZES ->
         chars_per_line pdfmetrics.stringWidth 60 s = ret budget ->
         Forall (fun chunk => (Z.of_nat (String.length chunk) <= budget)%Z)
                (textwrap._split_chunks (str_slice_to 2000 pangram)))
  /\ auto_scale_text pdfmetrics.stringWidth exact_line_limit pangram 60 30
     = ret (7, "the quick brown<br/>fox jumps over<br/>the lazy dog")
  /\ auto_scale_text pdfmetrics.stringWidth exact_line_limit pangram 200 30
     = ret (10, "the quick brown fox jumps over the<br/>lazy dog")
  /\ 7 <= 10.
Proof.
  assert (Hw : 60 <= 200) by discriminate.
  assert (Hn : forall s, In s BODY_SIZES ->
                         0 < pdfmetrics.stringWidth "n" BODY_FONT_NAME s).
  { intros s Hin. unfold BODY_SIZES in Hin. simpl in Hin.
    repeat (destruct Hin as [<-|Hin]; [reflexivity|]). contradiction. }
  assert (Hstrip : lstrip (str_slice_to 2000 pangram) = str_slice_to 2000 pangram)
    by reflexivity.
  assert (Hplain : plain_whitespace (str_slice_to 2000 pangram) = true)
    by reflexivity.
  assert (Hshort : forall s budget,
             In s BODY_SIZES ->
             chars_per_line pdfmetrics.stringWidth 60 s = ret budget ->
             Forall (fun chunk => (Z.of_nat (String.length chunk) <= budget)%Z)
                    (textwrap._split_chunks (str_slice_to 2000 pangram))).
  { intros s budget Hin Hc.
    change (textwrap._split_chunks (str_slice_to 2000 pangram))
      with ["the"; " "; "quick"; " "; "brown"; " "; "fox"; " "; "jumps"; " ";
            "over"; " "; "the"; " "; "lazy"; " "; "dog"].
    unfold BODY_SIZES in Hin. simpl in Hin.
    repeat (destruct Hin as [<-|Hin];
            [vm_compute in Hc; injection Hc as <-;
             repeat constructor; discriminate|]).
    contradiction. }
  assert (H1 : auto_scale_text pdfmetrics.stringWidth exact_line_limit pangram 60 30
               = ret (7, "the quick brown<br/>fox jumps over<br/>the lazy dog"))
    by reflexivity.
  assert (H2 : auto_scale_text pdfmetrics.stringWidth exact_line_limit pangram 200 30
               = ret (10, "the quick brown fox jumps over the<br/>lazy dog"))
    by reflexivity.
  repeat (split; [assumption|]).
  exact (@auto_scale_text_monotone_in_width pdfmetrics.stringWidth exact_line_limit pangram
           60 200 30 7 10 _ _ Hw Hn Hstrip Hplain Hshort H1 H2).
Defined.

(** C6 as stated fails.  The text below wraps into two lines on a budget
    of seven characters (the long word is cut to fill the first line) and
    into three on a budget of eight (the word now fits a line of its own
    and is moved there whole): the box 40 wide gets size 10, the box 45
    wide gets size 8. *)
Lemma narrower_box_larger_size :
  40 <= 45
  /\ textwrap.wrap "ab cdefghij kl" 7 = ret ["ab cdef"; "ghij kl"]
  /\ textwrap.wrap "ab cdefghij kl" 8 = ret ["ab"; "cdefghij"; "kl"]
  /\ auto_scale_text pdfmetrics.stringWidth exact_line_limit "ab cdefghij kl" 40 30
     = ret (10, "ab cdef<br/>ghij kl")
  /\ auto_scale_text pdfmetrics.stringWidth exact_line_limit "ab cdefghij kl" 45 30
     = ret (8, "ab<br/>cdefghij<br/>kl")
  /\ ~ 10 <= 8.
Proof.
  repeat split; try reflexivity; try discriminate.
  intros H. apply H. reflexivity.
Qed.

(* ===================================================================== *)
(** ** The composed card *)
(* ===================================================================== *)

(** The shape of a composed card: the four row heights. *)
Lemma create_card_content_rows (stringWidth : string -> string -> Q -> Q)
    (line_limit : Q -> Z)
    (parse_markup : string -> ParagraphStyle -> result unit)
    (card_title quote analysis source page_number : string) (card : Flowable) :
  create_card_content stringWidth line_limit parse_markup card_title quote analysis source page_number
  = ret card ->
  exists title_font_size,
    fit_title_font stringWidth card_title CONTENT_WIDTH = ret title_font_size
    /\ row_heights card
       = [title_font_size * LINE_SPACING + 6;
          12;
          CONTENT_HEIGHT - (title_font_size * LINE_SPACING + 6) - 12 - FOOTER_HEIGHT;
          FOOTER_HEIGHT]
    /\ is_PageBreak card = false.
Proof.
  intros H. unfold create_card_content in H.
  destruct (fit_title_font stringWidth card_title CONTENT_WIDTH) as [e|size];
    [discriminate|].
  cbn [bind] in H.
  destruct (auto_scale_text stringWidth line_limit quote CONTENT_WIDTH _) as [e|[qf qc]];
    [discriminate|].
  cbn [bind] in H.
  destruct (auto_scale_text stringWidth line_limit analysis CONTENT_WIDTH _) as [e|[af ac]];
    [discriminate|].
  cbn [bind] in H.
  destruct (calculate_footer_font stringWidth _ _) as [e|ff]; [discriminate|].
  cbn [bind] in H. through_paragraphs parse_markup H.
  inversion H; subst card. clear H.
  exists size. repeat split.
Qed.

(** C10. Whatever the fitted title size, the four row heights of a
    composed card (title region, the spacer of 12 points, body region,
    footer region of [FOOTER_HEIGHT]) add up to [CONTENT_HEIGHT]. *)
Theorem composed_card_height (stringWidth : string -> string -> Q -> Q)
    (line_limit : Q -> Z)
    (parse_markup : string -> ParagraphStyle -> result unit)
    (card_title quote analysis source page_number : string) (card : Flowable) :
  create_card_content stringWidth line_limit parse_markup card_title quote analysis source page_number
  = ret card ->
  exists title_height body_height,
    row_heights card = [title_height; 12; body_height; FOOTER_HEIGHT]
    /\ (exists title_font_size,
           fit_title_font stringWidth card_title CONTENT_WIDTH = ret title_font_size
           /\ title_height = title_font_size * LINE_SPACING + 6)
    /\ Qsum (row_heights card) == CONTENT_HEIGHT.
Proof.
  intros H. apply create_card_content_rows in H.
  destruct H as (size & Hsize & Hrows & _).
  eexists. eexists. split; [exact Hrows|]. split.
  - exists size. split; [exact Hsize | reflexivity].
  - rewrite Hrows. unfold Qsum. cbn [fold_right]. ring.
Qed.

Lemma composed_card_height_witness :
  exists card,
    create_card_content pdfmetrics.stringWidth exact_line_limit sample_markup
      "Test Card" "Short quote." "Short analysis." "Book" "12" = ret card
    /\ exists title_height body_height,
        row_heights card = [title_height; 12; body_height; FOOTER_HEIGHT]
        /\ (exists title_font_size,
               fit_title_font pdfmetrics.stringWidth "Test Card" CONTENT_WIDTH
               = ret title_font_size
               /\ title_height = title_font_size * LINE_SPACING + 6)
        /\ Qsum (row_heights card) == CONTENT_HEIGHT.
Proof.
  eexists. split; [vm_compute; reflexivity|].
  eapply (@composed_card_height pdfmetrics.stringWidth exact_line_limit sample_markup
            "Test Card" "Short quote." "Short analysis." "Book" "12").
  vm_compute. reflexivity.
Defined.

(* ===================================================================== *)
(** ** The sheet loop *)
(* ===================================================================== *)

Lemma list_ind3 {A} (P : list A -> Prop) :
  P [] -> (forall a, P [a]) -> (forall a b, P [a; b]) -> (forall a b c, P [a; b; c]) ->
  (forall a b c d l, P (d :: l) -> P (a :: b :: c :: d :: l)) ->
  forall l, P l.
Proof.
  intros Hnil Hone Htwo Hthree Hstep.
  assert (Hlen : forall n l, (List.length l <= n)%nat -> P l).
  { induction n as [|n IH]; intros l Hlen.
    - destruct l; [exact Hnil | simpl in Hlen; lia].
    - destruct l as [|a [|b [|c [|d l]]]]; auto.
      apply Hstep. apply IH. simpl in Hlen |- *. lia. }
  intros l. now apply (Hlen (List.length l)).
Qed.

(** *** Removing the trailing page break *)

Lemma pop_trailing_break_cons (x y : Flowable) (l : list Flowable) :
  pop_trailing_break (x :: y :: l) = x :: pop_trailing_break (y :: l).
Proof.
  unfold pop_trailing_break.
  change (rev (x :: y :: l)) with (rev (y :: l) ++ [x])%list.
  destruct (rev (y :: l)) as [|z before] eqn:E.
  - apply (f_equal (@List.length _)) in E. rewrite length_rev in E. discriminate.
  - cbn [app]. destruct (is_PageBreak z); [|reflexivity].
    change (rev (before ++ [x])%list = x :: rev before). now rewrite rev_unit.
Qed.

Lemma pop_trailing_break_card (x : Flowable) :
  is_PageBreak x = false -> pop_trailing_break [x] = [x].
Proof. intros H. unfold pop_trailing_break. simpl. now rewrite H. Qed.

Lemma filter_pop_trailing_break (l : list Flowable) :
  filter is_card (pop_trailing_break l) = filter is_card l.
Proof.
  unfold pop_trailing_break. destruct (rev l) as [|z before] eqn:E; [reflexivity|].
  destruct (is_PageBreak z) eqn:Hz; [|reflexivity].
  apply (f_equal (@rev _)) in E. rewrite rev_involutive in E. subst l.
  cbn [rev]. rewrite filter_app. cbn [filter]. unfold is_card at 3. rewrite Hz.
  cbn [negb]. now rewrite app_nil_r.
Qed.

(** *** The layout of the cards of a run without skipped files *)

Ltac few_cards :=
  split; [|split; [|split; [|split]]];
  [ unfold page_breaks; simpl;
    repeat match goal with H : is_PageBreak _ = false |- _ => rewrite H end;
    reflexivity
  | intros j; split;
    [ intros H; destruct j as [|[|[|j]]]; simpl in H;
      try (inversion H; subst; discriminate); destruct j; discriminate
    | intros [H1 H2]; destruct j as [|[|[|j]]]; simpl in H1, H2;
      try discriminate; lia ]
  | reflexivity
  | simpl; unfold is_card;
    repeat match goal with H : is_PageBreak _ = false |- _ => rewrite H end;
    reflexivity
  | intros before x H;
    destruct before as [|? [|? [|? [|? ?]]]]; try discriminate;
    inversion H; subst; intros ->; discriminate ].

Lemma paginate_properties (cards : list Flowable) :
  Forall (fun x => is_PageBreak x = false) cards ->
  let elements := paginate cards in
  let L := List.length cards in
  page_breaks elements = ((L - 1) / 3)%nat
  /\ (forall j, nth_error elements j = Some PageBreak
                <-> (j mod 4 = 3 /\ j < List.length elements)%nat)
  /\ List.length elements = (L + (L - 1) / 3)%nat
  /\ filter is_card elements = cards
  /\ (forall before x, elements = (before ++ [x])%list -> x <> PageBreak).
Proof.
  cbv zeta. induction cards as [|a|a b|a b c|a b c d l IH] using list_ind3; intros Hall.
  - few_cards.
  - inversion Hall as [|? ? Ha _]; subst. few_cards.
  - inversion Hall as [|? ? Ha Hall']; subst. inversion Hall' as [|? ? Hb _]; subst.
    few_cards.
  - inversion Hall as [|? ? Ha Hall']; subst. inversion Hall' as [|? ? Hb Hall'']; subst.
    inversion Hall'' as [|? ? Hc _]; subst. few_cards.
  - inversion Hall as [|? ? Ha Hall']; subst. inversion Hall' as [|? ? Hb Hall'']; subst.
    inversion Hall'' as [|? ? Hc Hrest]; subst.
    destruct (IH Hrest) as (Hcount & Hnth & Hlen & Hfilter & Hlast).
    change (paginate (a :: b :: c :: d :: l))
      with (a :: b :: c :: PageBreak :: paginate (d :: l)).
    assert (Hdiv : ((List.length (a :: b :: c :: d :: l) - 1) / 3
                    = S ((List.length (d :: l) - 1) / 3))%nat).
    { cbn [List.length].
      replace (S (S (S (S (List.length l)))) - 1)%nat
        with ((S (List.length l) - 1) + 1 * 3)%nat by lia.
      rewrite Nat.div_add by discriminate. lia. }
    split; [|split; [|split; [|split]]].
    + rewrite Hdiv. unfold page_breaks in *. cbn [filter]. rewrite Ha, Hb, Hc.
      cbn [is_PageBreak List.length]. now rewrite Hcount.
    + intros j. destruct j as [|[|[|[|j]]]].
      * simpl. split; [intros H; inversion H; subst; discriminate | intros [H _]; discriminate].
      * simpl. split; [intros H; inversion H; subst; discriminate | intros [H _]; discriminate].
      * simpl. split; [intros H; inversion H; subst; discriminate | intros [H _]; discriminate].
      * simpl. split; [intros _; split; [reflexivity | lia] | reflexivity].
      * change (nth_error (a :: b :: c :: PageBreak :: paginate (d :: l)) (S (S (S (S j)))))
          with (nth_error (paginate (d :: l)) j).
        rewrite Hnth. cbn [List.length].
        replace (S (S (S (S j)))) with (j + 1 * 4)%nat by lia.
        rewrite Nat.Div0.mod_add. split; intros [H1 H2]; split; auto; lia.
    + cbn [List.length] in *. rewrite Hlen. rewrite Hdiv.
      replace (S (List.length l) - 1)%nat with (List.length l) by lia.
      replace (S (List.length l) - 1)%nat with (List.length l) in Hdiv by lia.
      lia.
    + cbn [filter]. unfold is_card at 1 2 3 4. rewrite Ha, Hb, Hc.
      cbn [negb is_PageBreak]. now rewrite Hfilter.
    + intros before x H.
      destruct before as [|y [|z [|w [|v before]]]]; try discriminate.
      * destruct (paginate (d :: l)) eqn:E; [|discriminate].
        simpl in E. destruct l as [|? [|? [|? ?]]]; discriminate.
      * inversion H as [[E1 E2 E3 E4 E5]]. apply (Hlast _ _ E5).
Qed.

(** *** The loop, file by file *)

Section SheetFacts.

Variable MarkdownAnalyzer : string -> result Analysis.
Variable stringWidth : string -> string -> Q -> Q.
Variable line_limit : Q -> Z.
Variable parse_markup : string -> ParagraphStyle -> result unit.

Lemma sheet_loop_emitted (md_dir : string) :
  forall md_files i elements stdout,
    sheet_loop MarkdownAnalyzer stringWidth line_limit parse_markup md_dir i md_files elements stdout
    = ((elements ++ emitted MarkdownAnalyzer stringWidth line_limit parse_markup md_dir i md_files)%list,
       (stdout ++ flat_map (diagnostic_of MarkdownAnalyzer stringWidth line_limit parse_markup md_dir) md_files)%list).
Proof.
  induction md_files as [|f rest IH]; intros i elements stdout.
  - simpl. now rewrite !app_nil_r.
  - cbn [sheet_loop emitted flat_map]. unfold diagnostic_of at 1.
    destruct (compose_file MarkdownAnalyzer stringWidth line_limit parse_markup md_dir f) as [e|card].
    + rewrite IH. unfold append. now rewrite <- app_assoc.
    + rewrite IH. unfold append. cbn [app].
      destruct ((i + 1) mod 3 =? 0)%Z; now rewrite <- !app_assoc.
Qed.

Lemma compose_file_is_card (md_dir md_file : string) (card : Flowable) :
  compose_file MarkdownAnalyzer stringWidth line_limit parse_markup md_dir md_file = ret card ->
  is_PageBreak card = false.
Proof.
  unfold compose_file.
  destruct (parse_markdown MarkdownAnalyzer (path_join md_dir md_file))
    as [e|[[[[card_title quote] analysis] source] page_number]]; [discriminate|].
  cbn [bind]. intros H. apply create_card_content_rows in H.
  destruct H as (_ & _ & _ & H). exact H.
Qed.

Lemma cards_are_cards (md_dir : string) (md_files : list string) :
  Forall (fun x => is_PageBreak x = false)
         (flat_map (card_of MarkdownAnalyzer stringWidth line_limit parse_markup md_dir) md_files).
Proof.
  induction md_files as [|f rest IH]; [constructor|].
  cbn [flat_map]. unfold card_of at 1.
  destruct (compose_file MarkdownAnalyzer stringWidth line_limit parse_markup md_dir f) as [e|card] eqn:E;
    [exact IH|].
  constructor; [|exact IH]. now apply compose_file_is_card in E.
Qed.

Lemma filter_emitted (md_dir : string) :
  forall md_files i,
    filter is_card (emitted MarkdownAnalyzer stringWidth line_limit parse_markup md_dir i md_files)
    = flat_map (card_of MarkdownAnalyzer stringWidth line_limit parse_markup md_dir) md_files.
Proof.
  induction md_files as [|f rest IH]; intros i; [reflexivity|].
  cbn [emitted flat_map]. unfold card_of at 1.
  destruct (compose_file MarkdownAnalyzer stringWidth line_limit parse_markup md_dir f) as [e|card] eqn:E;
    [apply IH|].
  apply compose_file_is_card in E.
  cbn [filter app]. unfold is_card at 1. rewrite E. cbn [negb].
  rewrite filter_app, IH. now destruct ((i + 1) mod 3 =? 0)%Z.
Qed.

(** A file that is composed adds its card, and a page break when its
    index is the third of a group. *)
Lemma emitted_card (md_dir f : string) (rest : list string) (i : Z) (card : Flowable) :
  compose_file MarkdownAnalyzer stringWidth line_limit parse_markup md_dir f = ret card ->
  emitted MarkdownAnalyzer stringWidth line_limit parse_markup md_dir i (f :: rest)
  = (card :: (if ((i + 1) mod 3 =? 0)%Z then [PageBreak] else [])
       ++ emitted MarkdownAnalyzer stringWidth line_limit parse_markup md_dir (i + 1) rest)%list
  /\ card_of MarkdownAnalyzer stringWidth line_limit parse_markup md_dir f = [card]
  /\ is_PageBreak card = false.
Proof.
  intros H. cbn [emitted]. unfold card_of. rewrite H.
  repeat split. now apply compose_file_is_card in H.
Qed.

Lemma thirds (i : Z) :
  (i mod 3 = 0)%Z ->
  ((i + 1) mod 3 =? 0)%Z = false
  /\ ((i + 1 + 1) mod 3 =? 0)%Z = false
  /\ ((i + 1 + 1 + 1) mod 3 =? 0)%Z = true
  /\ ((i + 1 + 1 + 1) mod 3 = 0)%Z.
Proof.
  intros H. rewrite !Z.eqb_neq, Z.eqb_eq.
  Z.to_euclidean_division_equations. lia.
Qed.

(** When no file is skipped, the story is the cards in groups of three. *)
Lemma emitted_paginate (md_dir : string) :
  forall md_files i,
    (forall f, In f md_files ->
               exists card, compose_file MarkdownAnalyzer stringWidth line_limit parse_markup md_dir f = ret card) ->
    (i mod 3 = 0)%Z ->
    pop_trailing_break (emitted MarkdownAnalyzer stringWidth line_limit parse_markup md_dir i md_files)
    = paginate (flat_map (card_of MarkdownAnalyzer stringWidth line_limit parse_markup md_dir) md_files).
Proof.
  induction md_files as [|f1|f1 f2|f1 f2 f3|f1 f2 f3 f4 rest IH] using list_ind3;
    intros i Hok Hi; destruct (@thirds i Hi) as (T1 & T2 & T3 & T4).
  - reflexivity.
  - destruct (Hok f1 ltac:(simpl; tauto)) as (c1 & E1).
    destruct (@emitted_card md_dir f1 [] i c1 E1) as (-> & C1 & K1).
    cbn [flat_map]. rewrite C1, T1. cbn [app emitted paginate].
    now apply pop_trailing_break_card.
  - destruct (Hok f1 ltac:(simpl; tauto)) as (c1 & E1).
    destruct (Hok f2 ltac:(simpl; tauto)) as (c2 & E2).
    destruct (@emitted_card md_dir f1 [f2] i c1 E1) as (-> & C1 & K1).
    destruct (@emitted_card md_dir f2 [] (i + 1) c2 E2) as (-> & C2 & K2).
    cbn [flat_map]. rewrite C1, C2, T1, T2. cbn [app emitted paginate].
    rewrite pop_trailing_break_cons. f_equal. now apply pop_trailing_break_card.
  - destruct (Hok f1 ltac:(simpl; tauto)) as (c1 & E1).
    destruct (Hok f2 ltac:(simpl; tauto)) as (c2 & E2).
    destruct (Hok f3 ltac:(simpl; tauto)) as (c3 & E3).
    destruct (@emitted_card md_dir f1 [f2; f3] i c1 E1) as (-> & C1 & K1).
    destruct (@emitted_card md_dir f2 [f3] (i + 1) c2 E2) as (-> & C2 & K2).
    destruct (@emitted_card md_dir f3 [] (i + 1 + 1) c3 E3) as (-> & C3 & K3).
    cbn [flat_map]. rewrite C1, C2, C3, T1, T2, T3. cbn [app emitted paginate].
    rewrite !pop_trailing_break_cons. reflexivity.
  - destruct (Hok f1 ltac:(simpl; tauto)) as (c1 & E1).
    destruct (Hok f2 ltac:(simpl; tauto)) as (c2 & E2).
    destruct (Hok f3 ltac:(simpl; tauto)) as (c3 & E3).
    destruct (Hok f4 ltac:(simpl; tauto)) as (c4 & E4).
    destruct (@emitted_card md_dir f1 (f2 :: f3 :: f4 :: rest) i c1 E1) as (-> & C1 & K1).
    destruct (@emitted_card md_dir f2 (f3 :: f4 :: rest) (i + 1) c2 E2) as (-> & C2 & K2).
    destruct (@emitted_card md_dir f3 (f4 :: rest) (i + 1 + 1) c3 E3) as (-> & C3 & K3).
    specialize (IH (i + 1 + 1 + 1)%Z
                  ltac:(intros f Hf; apply Hok; simpl in Hf |- *; tauto) T4).
    destruct (@emitted_card md_dir f4 rest (i + 1 + 1 + 1) c4 E4) as (E & C4 & K4).
    cbn [flat_map] in IH |- *. rewrite C1, C2, C3, T1, T2, T3. rewrite C4 in IH |- *.
    cbn [app] in IH |- *.
    change (paginate (c1 :: c2 :: c3 :: c4
                         :: flat_map (card_of MarkdownAnalyzer stringWidth line_limit parse_markup md_dir) rest))
      with (c1 :: c2 :: c3 :: PageBreak
               :: paginate (c4 :: flat_map (card_of MarkdownAnalyzer stringWidth line_limit parse_markup md_dir) rest)).
    rewrite <- IH. rewrite E. cbn [app].
    now rewrite !pop_trailing_break_cons.
Qed.

Lemma length_cards (md_dir : string) (md_files : list string) :
  (forall f, In f md_files ->
             exists card, compose_file MarkdownAnalyzer stringWidth line_limit parse_markup md_dir f = ret card) ->
  List.length (flat_map (card_of MarkdownAnalyzer stringWidth line_limit parse_markup md_dir) md_files)
  = List.length md_files.
Proof.
  induction md_files as [|f rest IH]; intros Hok; [reflexivity|].
  destruct (Hok f ltac:(simpl; tauto)) as (card & E).
  cbn [flat_map]. unfold card_of at 1. rewrite E.
  change (S (List.length (flat_map (card_of MarkdownAnalyzer stringWidth line_limit parse_markup md_dir) rest))
          = S (List.length rest)).
  f_equal. apply IH. intros g Hg. apply Hok. simpl. tauto.
Qed.

End SheetFacts.

(** On Helvetica the fitters of a record never raise (the content is 336
    points wide, sixty times the letter n at the largest size): a record
    is composed, or one of its five paragraphs is refused by the markup
    parser and the error of the parser is the error of the record. *)
Lemma Helvetica_create_card_content_outcome (line_limit : Q -> Z)
    (parse_markup : string -> ParagraphStyle -> result unit)
    (card_title quote analysis source page_number : string) :
  (exists card,
      create_card_content pdfmetrics.stringWidth line_limit parse_markup
        card_title quote analysis source page_number = ret card)
  \/ (exists text style e,
         paragraph_text pdfmetrics.stringWidth line_limit
           card_title quote analysis source page_number text
         /\ parse_markup text style = raise e
         /\ create_card_content pdfmetrics.stringWidth line_limit parse_markup
              card_title quote analysis source page_number = raise e).
Proof.
  assert (Hw : 5.56 <= CONTENT_WIDTH) by discriminate.
  unfold create_card_content. rewrite fit_title_font_first_fit. cbn [bind ret].
  match goal with
  | |- context [auto_scale_text _ _ quote CONTENT_WIDTH ?h] =>
      destruct (@Helvetica_auto_scale_text_returns line_limit quote CONTENT_WIDTH h Hw)
        as (qf & qc & Hq);
      destruct (@Helvetica_auto_scale_text_returns line_limit analysis CONTENT_WIDTH h Hw)
        as (af & ac & Ha)
  end.
  rewrite Hq. cbn [bind ret]. rewrite Ha.
  cbn [bind ret]. rewrite calculate_footer_font_first_fit. cbn [bind ret].
  unfold new_Paragraph.
  repeat match goal with
         | |- context [parse_markup ?t ?s] =>
             let E := fresh "Hmarkup" in
             destruct (parse_markup t s) as [?e|[]] eqn:E;
             [right; do 3 eexists; split; [|split; [exact E | reflexivity]];
              unfold paragraph_text;
              first [ left; reflexivity
                    | right; left; do 3 eexists; split; [exact Hq | reflexivity]
                    | right; right; left; do 3 eexists; split; [exact Ha | reflexivity]
                    | right; right; right; left; reflexivity
                    | right; right; right; right; reflexivity ]
             | cbn [bind ret]]
         end.
  left. eexists. reflexivity.
Qed.




(* ===================================================================== *)
(** ** Records that cannot be parsed *)
(* ===================================================================== *)

Lemma parse_markdown_no_headers (MarkdownAnalyzer : string -> result Analysis)
    (filename : string) (analyzer : Analysis) :
  MarkdownAnalyzer filename = ret analyzer ->
  get_list (identify_headers analyzer) = [] ->
  parse_markdown MarkdownAnalyzer filename
  = raise (ValueError ("No headers found in " ++ filename)).
Proof.
  intros E H. unfold parse_markdown. rewrite E. cbn [bind ret]. now rewrite H.
Qed.

Lemma parse_markdown_header_format (MarkdownAnalyzer : string -> result Analysis)
    (filename : string) (analyzer : Analysis) (header : Header) (rest : list Header) :
  MarkdownAnalyzer filename = ret analyzer ->
  get_list (identify_headers analyzer) = header :: rest ->
  match_header (match text header with Some t => t | None => "" end) = None ->
  parse_markdown MarkdownAnalyzer filename
  = raise (ValueError ("Header format error in " ++ filename)).
Proof.
  intros E H Hm. unfold parse_markdown. rewrite E. cbn [bind ret]. now rewrite H, Hm.
Qed.

(** C9. The run never stops at a record: the cards of the story are the
    cards of the files that raise no error, in order, and one line is
    printed for each file that raises.  A file whose parse raises (no
    heading, or a heading that is not [Page <digits> - <title>]) leaves
    [elements] as it was, prints the one line [Skipping <file>: <error>],
    and the loop goes on with the files after it. *)
Theorem skipped_record_stays_local
    (MarkdownAnalyzer : string -> result Analysis)
    (stringWidth : string -> string -> Q -> Q)
    (line_limit : Q -> Z)
    (parse_markup : string -> ParagraphStyle -> result unit)
    (listdir : string -> list string) (md_dir output_file : string) :
  let md_files := sorted (filter (endswith ".md") (listdir md_dir)) in
  let run := make_avery5388_pdf MarkdownAnalyzer stringWidth line_limit parse_markup listdir md_dir output_file in
  filter is_card (story (fst run))
  = flat_map (card_of MarkdownAnalyzer stringWidth line_limit parse_markup md_dir) md_files
  /\ snd run = flat_map (diagnostic_of MarkdownAnalyzer stringWidth line_limit parse_markup md_dir) md_files
  /\ (forall f e,
         parse_markdown MarkdownAnalyzer (path_join md_dir f) = raise e ->
         card_of MarkdownAnalyzer stringWidth line_limit parse_markup md_dir f = []
         /\ diagnostic_of MarkdownAnalyzer stringWidth line_limit parse_markup md_dir f
            = ["Skipping " ++ f ++ ": " ++ str_exn e]
         /\ forall i rest elements stdout,
             sheet_loop MarkdownAnalyzer stringWidth line_limit parse_markup md_dir i (f :: rest) elements stdout
             = sheet_loop MarkdownAnalyzer stringWidth line_limit parse_markup md_dir (i + 1) rest elements
                 (append stdout ("Skipping " ++ f ++ ": " ++ str_exn e)))
  /\ (forall filename analyzer,
         MarkdownAnalyzer filename = ret analyzer ->
         (get_list (identify_headers analyzer) = [] ->
          parse_markdown MarkdownAnalyzer filename
          = raise (ValueError ("No headers found in " ++ filename)))
         /\ (forall header rest,
                get_list (identify_headers analyzer) = header :: rest ->
                match_header (match text header with Some t => t | None => "" end) = None ->
                parse_markdown MarkdownAnalyzer filename
                = raise (ValueError ("Header format error in " ++ filename)))).
Proof.
  cbv zeta. unfold make_avery5388_pdf. rewrite sheet_loop_emitted.
  cbn [fst snd story app]. split; [|split; [|split]].
  - rewrite filter_pop_trailing_break. apply filter_emitted.
  - reflexivity.
  - intros f e H.
    assert (E : compose_file MarkdownAnalyzer stringWidth line_limit parse_markup md_dir f = raise e).
    { unfold compose_file. now rewrite H. }
    unfold card_of, diagnostic_of. rewrite E. repeat split.
    intros i rest elements stdout. cbn [sheet_loop]. now rewrite E.
  - intros filename analyzer E. split.
    + now apply parse_markdown_no_headers.
    + intros header rest. now apply parse_markdown_header_format.
Qed.

(** A run over four cards of which the second has no page heading: its
    card is missing from the story, one line is printed, and the cards
    after it are composed.  The page break stands after the third file,
    which is the second card. *)
Example run_with_a_skipped_record :
  let run := make_avery5388_pdf faulty_analyzer pdfmetrics.stringWidth exact_line_limit sample_markup sample_listdir
               "cards" "avery_5388_cards.pdf" in
  snd run = ["Skipping b.md: Header format error in cards/b.md"]
  /\ map is_PageBreak (story (fst run)) = [false; false; true; false]
  /\ filter is_card (story (fst run))
     = (card_of faulty_analyzer pdfmetrics.stringWidth exact_line_limit sample_markup "cards" "a.md"
        ++ card_of faulty_analyzer pdfmetrics.stringWidth exact_line_limit sample_markup "cards" "c.md"
        ++ card_of faulty_analyzer pdfmetrics.stringWidth exact_line_limit sample_markup "cards" "d.md")%list.
Proof. cbv zeta. repeat split; vm_compute; reflexivity. Qed.

(* ===================================================================== *)
(** ** The step bounds are never reached *)
(* ===================================================================== *)

Ltac propagate H :=
  let E := fresh in intros E; inversion E; subst; apply H; reflexivity.

Lemma truediv_never_out_of_fuel (x y : Q) : truediv x y <> raise OutOfFuel.
Proof. unfold truediv. destruct (Qeq_bool y 0); discriminate. Qed.

Lemma auto_scale_over_never_out_of_fuel (stringWidth : string -> string -> Q -> Q)
    (text : string) (max_width max_height : Q) :
  forall l avg_char_width,
    auto_scale_over stringWidth l text max_width max_height avg_char_width
    <> raise OutOfFuel.
Proof.
  induction l as [|font_size l IH]; intros acw; [discriminate|].
  cbn [auto_scale_over]. unfold wrapped_at, chars_per_line.
  pose proof (truediv_never_out_of_fuel max_width
                (stringWidth "n" BODY_FONT_NAME font_size)) as Hd.
  destruct (truediv max_width (stringWidth "n" BODY_FONT_NAME font_size)) as [e|ratio].
  - cbn [bind]. propagate Hd.
  - cbn [bind ret].
    pose proof (textwrap_facts.wrap_never_out_of_fuel (str_slice_to 2000 text) (int ratio))
      as Hw.
    destruct (textwrap.wrap (str_slice_to 2000 text) (int ratio)) as [e|wrapped].
    + cbn [bind]. propagate Hw.
    + cbn [bind]. destruct (Qle_bool _ max_height); [discriminate | apply IH].
Qed.

Lemma auto_scale_text_never_out_of_fuel (stringWidth : string -> string -> Q -> Q)
    (line_limit : Q -> Z)
    (text : string) (max_width max_height : Q) :
  auto_scale_text stringWidth line_limit text max_width max_height <> raise OutOfFuel.
Proof.
  unfold auto_scale_text. rewrite auto_scale_search_over.
  pose proof (@auto_scale_over_never_out_of_fuel stringWidth text max_width max_height
                BODY_SIZES None) as Hs.
  destruct (auto_scale_over stringWidth BODY_SIZES text max_width max_height None)
    as [e|[r|a]].
  - cbn [bind]. propagate Hs.
  - discriminate.
  - cbn [bind]. unfold auto_scale_fallback.
    destruct a as [a|]; [|discriminate]. cbn [bind ret].
    pose proof (truediv_never_out_of_fuel max_width a) as Hd.
    destruct (truediv max_width a) as [e|ratio]; [propagate Hd|]. cbn [bind].
    pose proof (textwrap_facts.wrap_never_out_of_fuel text (int ratio)) as Hw.
    destruct (textwrap.wrap text (int ratio)) as [e|wrapped]; [propagate Hw|]. cbn [bind].
    discriminate.
Qed.

Lemma create_card_content_never_out_of_fuel (stringWidth : string -> string -> Q -> Q)
    (line_limit : Q -> Z)
    (parse_markup : string -> ParagraphStyle -> result unit)
    (card_title quote analysis source page_number : string) :
  (forall text style, parse_markup text style <> raise OutOfFuel) ->
  create_card_content stringWidth line_limit parse_markup card_title quote analysis source page_number
  <> raise OutOfFuel.
Proof.
  intros Hmarkup.
  unfold create_card_content. rewrite fit_title_font_first_fit. cbn [bind ret].
  match goal with
  | |- context [auto_scale_text _ _ quote CONTENT_WIDTH ?h] =>
      pose proof (@auto_scale_text_never_out_of_fuel stringWidth line_limit quote CONTENT_WIDTH h)
        as Hq;
      pose proof (@auto_scale_text_never_out_of_fuel stringWidth line_limit analysis CONTENT_WIDTH h)
        as Ha;
      destruct (auto_scale_text stringWidth line_limit quote CONTENT_WIDTH h) as [e|[qf qc]];
        [propagate Hq|];
      cbn [bind];
      destruct (auto_scale_text stringWidth line_limit analysis CONTENT_WIDTH h) as [e|[af ac]];
        [propagate Ha|]
  end.
  cbn [bind]. rewrite calculate_footer_font_first_fit. cbn [bind ret].
  unfold new_Paragraph.
  repeat match goal with
         | |- context [parse_markup ?t ?s] =>
             let Hp := fresh "Hp" in
             pose proof (Hmarkup t s) as Hp;
             destruct (parse_markup t s) as [?e|[]];
             [propagate Hp | clear Hp; cbn [bind ret]]
         end.
  discriminate.
Qed.

(* ===================================================================== *)
(** ** The text fitter: narrow boxes, taller boxes, empty and long texts *)
(* ===================================================================== *)

Lemma int_below_one (x : Q) : x < 1 -> (int x <= 0)%Z.
Proof.
  intros H. destruct (Qlt_le_dec x 0) as [Hx|Hx].
  - change 0%Z with (int 0). apply int_le. now apply Qlt_le_weak.
  - rewrite int_nonneg by exact Hx.
    pose proof (Qfloor_le x) as Hf.
    assert (Hlt : inject_Z (Qfloor x) < inject_Z 1) by (eapply Qle_lt_trans; eassumption).
    rewrite <- Zlt_Qlt in Hlt. lia.
Qed.

(** X1. On a box narrower than one letter n at [MAX_BODY_SIZE], whatever the
    text and the height, the first pass of the loop computes a budget of
    no character (or a negative one) and [textwrap.wrap] raises
    [ValueError]: [auto_scale_text] raises it too. *)
Theorem auto_scale_text_narrow_box_raises (line_limit : Q -> Z) (text : string) (max_width max_height : Q) :
  max_width < 5.56 ->
  exists budget,
    chars_per_line pdfmetrics.stringWidth max_width MAX_BODY_SIZE = ret budget
    /\ (budget <= 0)%Z
    /\ auto_scale_text pdfmetrics.stringWidth line_limit text max_width max_height
       = raise (ValueError (textwrap.invalid_width budget)).
Proof.
  intros Hw.
  assert (Hc : chars_per_line pdfmetrics.stringWidth max_width MAX_BODY_SIZE
               = ret (int (max_width / (inject_Z 556 * 0.001 * MAX_BODY_SIZE)))).
  { reflexivity. }
  assert (Hb : (int (max_width / (inject_Z 556 * 0.001 * MAX_BODY_SIZE)) <= 0)%Z).
  { apply int_below_one. apply Qlt_shift_div_r; [reflexivity|].
    rewrite Qmult_1_l.
    assert (E' : inject_Z 556 * 0.001 * MAX_BODY_SIZE == 5.56) by reflexivity.
    now rewrite E'. }
  eexists. split; [exact Hc|]. split; [exact Hb|].
  unfold auto_scale_text. rewrite auto_scale_search_over.
  unfold BODY_SIZES. cbn [auto_scale_over]. unfold wrapped_at.
  change (10 : Q) with MAX_BODY_SIZE. rewrite Hc. cbn [bind ret].
  rewrite textwrap_facts.wrap_raises by exact Hb. reflexivity.
Qed.

Lemma auto_scale_text_narrow_box_raises_witness :
  5 < 5.56
  /\ exists budget,
      chars_per_line pdfmetrics.stringWidth 5 MAX_BODY_SIZE = ret budget
      /\ (budget <= 0)%Z
      /\ auto_scale_text pdfmetrics.stringWidth exact_line_limit "Short quote." 5 60
         = raise (ValueError (textwrap.invalid_width budget)).
Proof.
  split; [reflexivity|].
  apply (@auto_scale_text_narrow_box_raises exact_line_limit "Short quote." 5 60). reflexivity.
Defined.

(** A size that fits a box fits every taller box of the same width. *)
Lemma fits_taller (stringWidth : string -> string -> Q -> Q)
    (text : string) (max_width h1 h2 s : Q) :
  h1 <= h2 -> fits stringWidth text max_width h1 s -> fits stringWidth text max_width h2 s.
Proof.
  intros Hh (wrapped & E & H). exists wrapped. split; [exact E|].
  now apply Qle_trans with h1.
Qed.

(** X2. Whatever the text, the width and the metrics: of two boxes of the
    same width, the taller one never gets the smaller size. *)
Theorem auto_scale_text_monotone_in_height
    (stringWidth : string -> string -> Q -> Q)
    (line_limit : Q -> Z)
    (text : string) (max_width h1 h2 s1 s2 : Q) (c1 c2 : string) :
  h1 <= h2 ->
  auto_scale_text stringWidth line_limit text max_width h1 = ret (s1, c1) ->
  auto_scale_text stringWidth line_limit text max_width h2 = ret (s2, c2) ->
  s1 <= s2.
Proof.
  intros Hh H1 H2.
  pose proof BODY_SIZES_range as Hr. rewrite Forall_forall in Hr.
  apply auto_scale_text_cases in H1. apply auto_scale_text_cases in H2.
  destruct H1 as [H1|[_ ->]].
  - apply auto_scale_search_fits in H1. destruct H1 as [Hin1 Hfits].
    apply (fits_taller Hh) in Hfits.
    destruct H2 as [H2|[(a & H2) ->]].
    + rewrite auto_scale_search_over in H2. apply auto_scale_over_returned in H2.
      destruct H2 as (pre & post & _ & E & Hpre & _).
      destruct (@decreasing_split BODY_SIZES pre post s2 s1 BODY_SIZES_decreasing E Hin1)
        as [H|H]; [|exact H].
      rewrite Forall_forall in Hpre. exfalso.
      exact (fits_not_too_tall Hfits (Hpre s1 H)).
    + rewrite auto_scale_search_over in H2. apply auto_scale_over_exhausted in H2.
      destruct H2 as [Hall _]. rewrite Forall_forall in Hall. exfalso.
      exact (fits_not_too_tall Hfits (Hall s1 Hin1)).
  - destruct H2 as [H2|[_ ->]]; [|apply Qle_refl].
    apply auto_scale_search_fits in H2. destruct H2 as [Hin2 _]. now apply Hr.
Qed.

Lemma auto_scale_text_monotone_in_height_witness :
  30 <= 50
  /\ auto_scale_text pdfmetrics.stringWidth exact_line_limit pangram 60 30
     = ret (7, "the quick brown<br/>fox jumps over<br/>the lazy dog")
  /\ auto_scale_text pdfmetrics.stringWidth exact_line_limit pangram 60 50
     = ret (17 # 2, "the quick<br/>brown fox<br/>jumps over<br/>the lazy dog")
  /\ 7 <= 17 # 2.
Proof.
  assert (Hh : 30 <= 50) by discriminate.
  assert (H1 : auto_scale_text pdfmetrics.stringWidth exact_line_limit pangram 60 30
               = ret (7, "the quick brown<br/>fox jumps over<br/>the lazy dog"))
    by reflexivity.
  assert (H2 : auto_scale_text pdfmetrics.stringWidth exact_line_limit pangram 60 50
               = ret (17 # 2, "the quick<br/>brown fox<br/>jumps over<br/>the lazy dog"))
    by reflexivity.
  repeat (split; [assumption|]).
  exact (@auto_scale_text_monotone_in_height pdfmetrics.stringWidth exact_line_limit pangram 60 30 50
           7 (17 # 2) _ _ Hh H1 H2).
Defined.

(** The empty text wraps into no line on every positive budget. *)
Lemma wrap_empty (width : Z) : (0 < width)%Z -> textwrap.wrap "" width = ret [].
Proof.
  intros H. unfold textwrap.wrap, textwrap._wrap_chunks.
  destruct (Z.leb_spec width 0); [lia | reflexivity].
Qed.

Lemma needed_height_nil (s : Q) : needed_height [] s == 0.
Proof. unfold needed_height, len. cbn [List.length Z.of_nat]. ring. Qed.

(** X3. The empty text (a record without block quote, or without analysis
    paragraph) on a box that holds one letter: no line at all, at
    [MAX_BODY_SIZE] when the height is not negative; on a box of
    negative height no size fits and the fallback gives [MIN_FONT_SIZE]. *)
Theorem auto_scale_text_empty (line_limit : Q -> Z) (max_width max_height : Q) :
  5.56 <= max_width ->
  auto_scale_text pdfmetrics.stringWidth line_limit "" max_width max_height
  = ret (if Qle_bool 0 max_height then MAX_BODY_SIZE else MIN_FONT_SIZE, "").
Proof.
  intros Hw.
  pose proof BODY_SIZES_range as Hr. pose proof BODY_SIZES_positive as Hp.
  rewrite Forall_forall in Hr, Hp.
  assert (Hwrapped : forall s, In s BODY_SIZES ->
             wrapped_at pdfmetrics.stringWidth "" max_width s = ret []).
  { intros s Hin.
    destruct (@Helvetica_budget max_width s Hw (Hp s Hin) (proj2 (Hr s Hin)))
      as (budget & Hb & Hpos).
    unfold wrapped_at. rewrite Hb. cbn [bind ret].
    change (str_slice_to 2000 "") with "". apply wrap_empty. lia. }
  unfold auto_scale_text. rewrite auto_scale_search_over.
  destruct (Qle_bool 0 max_height) eqn:Hh.
  - unfold BODY_SIZES at 1. cbn [auto_scale_over].
    rewrite Hwrapped by (unfold BODY_SIZES; simpl; tauto). cbn [bind ret].
    assert (Hfit : Qle_bool (needed_height [] 10) max_height = true).
    { apply Qle_bool_iff. rewrite needed_height_nil. now apply Qle_bool_iff. }
    rewrite Hfit. reflexivity.
  - rewrite auto_scale_over_too_tall.
    + cbn [bind ret]. rewrite width_after_BODY_SIZES.
      unfold auto_scale_fallback. cbn [bind ret].
      destruct (@Helvetica_budget max_width MIN_FONT_SIZE Hw) as (budget & Hb & Hpos);
        [reflexivity | discriminate|].
      unfold chars_per_line in Hb.
      destruct (truediv max_width (pdfmetrics.stringWidth "n" BODY_FONT_NAME MIN_FONT_SIZE))
        as [e|ratio]; [discriminate|].
      cbn [bind ret] in Hb |- *. inversion Hb; subst budget.
      rewrite wrap_empty by lia. cbn [bind ret]. unfold slice_to.
      destruct (_ <? 0)%Z; now rewrite firstn_nil.
    + apply Forall_forall. intros s Hin. exists []. split; [now apply Hwrapped|].
      rewrite needed_height_nil. intros Hle. apply Qle_bool_iff in Hle. congruence.
Qed.

Lemma auto_scale_text_empty_witness :
  5.56 <= 336
  /\ auto_scale_text pdfmetrics.stringWidth exact_line_limit "" 336 (309 # 5)
     = ret (if Qle_bool 0 (309 # 5) then MAX_BODY_SIZE else MIN_FONT_SIZE, "").
Proof.
  split; [discriminate|].
  apply (@auto_scale_text_empty exact_line_limit 336 (309 # 5)). discriminate.
Defined.

(** The search reads the text through [text[:2000]] only. *)
Lemma auto_scale_over_capped (stringWidth : string -> string -> Q -> Q)
    (text text' : string) (max_width max_height : Q) :
  str_slice_to 2000 text = str_slice_to 2000 text' ->
  forall l avg_char_width,
    auto_scale_over stringWidth l text max_width max_height avg_char_width
    = auto_scale_over stringWidth l text' max_width max_height avg_char_width.
Proof.
  intros E. induction l as [|font_size l IH]; intros acw; [reflexivity|].
  cbn [auto_scale_over]. unfold wrapped_at. rewrite E.
  destruct (wrapped <- chars_per_line stringWidth max_width font_size ;;
            textwrap.wrap (str_slice_to 2000 text') wrapped) as [e|wrapped];
    [reflexivity|].
  cbn [bind]. destruct (Qle_bool _ max_height); [reflexivity | apply IH].
Qed.

(** X4. When a size fits, only the first 2000 characters of the text are
    laid out: two texts that agree on them get the same size and the
    same lines, whatever follows the 2000th character. *)
Theorem auto_scale_text_reads_first_2000
    (stringWidth : string -> string -> Q -> Q)
    (line_limit : Q -> Z)
    (text text' : string) (max_width max_height s : Q) (c : string) :
  str_slice_to 2000 text = str_slice_to 2000 text' ->
  auto_scale_search stringWidth text max_width max_height = ret (inl (s, c)) ->
  auto_scale_text stringWidth line_limit text' max_width max_height = ret (s, c).
Proof.
  intros E H. unfold auto_scale_text. rewrite auto_scale_search_over in *.
  rewrite <- (@auto_scale_over_capped stringWidth text text' max_width max_height E).
  rewrite H. reflexivity.
Qed.

Lemma auto_scale_text_reads_first_2000_witness :
  str_slice_to 2000 (str_slice_to 2000 long_text) = str_slice_to 2000 long_text
  /\ exists s c,
      auto_scale_search pdfmetrics.stringWidth (str_slice_to 2000 long_text) 336 1000
      = ret (inl (s, c))
      /\ auto_scale_text pdfmetrics.stringWidth exact_line_limit long_text 336 1000 = ret (s, c).
Proof.
  assert (E : str_slice_to 2000 (str_slice_to 2000 long_text)
              = str_slice_to 2000 long_text) by (vm_compute; reflexivity).
  split; [exact E|].
  eexists. eexists. split; [vm_compute; reflexivity|].
  apply (@auto_scale_text_reads_first_2000 pdfmetrics.stringWidth exact_line_limit
           (str_slice_to 2000 long_text) long_text 336 1000 _ _ E).
  vm_compute. reflexivity.
Defined.

(* ===================================================================== *)
(** ** The title and footer fitters: wider boxes and longer texts *)
(* ===================================================================== *)

(** A search whose test is passed more often finds a size at least as
    large. *)
Lemma first_fit_monotone (ok1 ok2 : Q -> bool) (l : list Q) (default : Q) :
  decreasing l ->
  (forall s, In s l -> default <= s) ->
  (forall s, In s l -> ok1 s = true -> ok2 s = true) ->
  first_fit ok1 l default <= first_fit ok2 l default.
Proof.
  intros Hdec Hlow Himp.
  destruct (first_fit_largest ok1 default Hdec) as [(Hin1 & Hok1 & _)|[E1 _]];
    destruct (first_fit_largest ok2 default Hdec) as [(Hin2 & _ & Hmax2)|[E2 Hnone2]].
  - apply Hmax2; [exact Hin1|]. now apply Himp.
  - specialize (Himp _ Hin1 Hok1). specialize (Hnone2 _ Hin1). congruence.
  - rewrite E1. now apply Hlow.
  - rewrite E1, E2. apply Qle_refl.
Qed.

Lemma TITLE_SIZES_range :
  Forall (fun s => MIN_FONT_SIZE <= s /\ s <= MAX_TITLE_SIZE) TITLE_SIZES.
Proof. unfold TITLE_SIZES. repeat constructor; by_computation. Qed.

Lemma FOOTER_SIZES_range :
  Forall (fun s => MIN_FOOTER_FONT_SIZE <= s /\ s <= MAX_FOOTER_FONT_SIZE) FOOTER_SIZES.
Proof. unfold FOOTER_SIZES. repeat constructor; by_computation. Qed.

(** X5. Whatever the title and the metrics, a wider box never gets the
    smaller title size. *)
Theorem fit_title_font_monotone_in_width
    (stringWidth : string -> string -> Q -> Q) (title : string) (w1 w2 s1 s2 : Q) :
  w1 <= w2 ->
  fit_title_font stringWidth title w1 = ret s1 ->
  fit_title_font stringWidth title w2 = ret s2 ->
  s1 <= s2.
Proof.
  intros Hw H1 H2. rewrite fit_title_font_first_fit in H1, H2.
  assert (E1 : s1 = first_fit (title_fits stringWidth title w1) TITLE_SIZES MIN_FONT_SIZE)
    by (unfold ret in H1; congruence).
  assert (E2 : s2 = first_fit (title_fits stringWidth title w2) TITLE_SIZES MIN_FONT_SIZE)
    by (unfold ret in H2; congruence).
  rewrite E1, E2. apply first_fit_monotone.
  - exact TITLE_SIZES_decreasing.
  - intros s Hin. pose proof TITLE_SIZES_range as Hr. rewrite Forall_forall in Hr.
    now apply Hr.
  - intros s _. unfold title_fits. rewrite !Qle_bool_iff. intros H.
    now apply Qle_trans with w1.
Qed.

Lemma fit_title_font_monotone_in_width_witness :
  60 <= 336
  /\ fit_title_font pdfmetrics.stringWidth "A Title of Some Length" 60 = ret 6
  /\ fit_title_font pdfmetrics.stringWidth "A Title of Some Length" 336 = ret 12
  /\ 6 <= 12.
Proof.
  assert (Hw : 60 <= 336) by discriminate.
  assert (H1 : fit_title_font pdfmetrics.stringWidth "A Title of Some Length" 60 = ret 6)
    by reflexivity.
  assert (H2 : fit_title_font pdfmetrics.stringWidth "A Title of Some Length" 336 = ret 12)
    by reflexivity.
  repeat (split; [assumption|]).
  exact (@fit_title_font_monotone_in_width pdfmetrics.stringWidth
           "A Title of Some Length" 60 336 6 12 Hw H1 H2).
Defined.

(** *** The standard metrics: no glyph has a negative width *)

Lemma widths_nonneg (fontName : string) :
  Forall (fun w => (0 <= w)%Z) (pdfmetrics.widths fontName).
Proof.
  unfold pdfmetrics.widths.
  destruct (String.eqb fontName "Helvetica");
    [|destruct (String.eqb fontName "Helvetica-Bold")];
    repeat (constructor; [discriminate|]); constructor.
Qed.

Lemma glyph_width_nonneg (fontName : string) (c : ascii) :
  (0 <= pdfmetrics.glyph_width fontName c)%Z.
Proof.
  unfold pdfmetrics.glyph_width. destruct (_ <? 32)%nat; [lia|].
  destruct (nth_in_or_default (nat_of_ascii c - 32) (pdfmetrics.widths fontName) 0%Z)
    as [Hin | E]; [|rewrite E; lia].
  pose proof (widths_nonneg fontName) as H. rewrite Forall_forall in H. now apply H.
Qed.

Lemma text_width_nonneg (fontName text : string) :
  (0 <= pdfmetrics.text_width fontName text)%Z.
Proof.
  induction text as [|c text IH]; cbn [pdfmetrics.text_width]; [lia|].
  pose proof (glyph_width_nonneg fontName c). lia.
Qed.

Lemma text_width_app (fontName a b : string) :
  pdfmetrics.text_width fontName (a ++ b)
  = (pdfmetrics.text_width fontName a + pdfmetrics.text_width fontName b)%Z.
Proof.
  induction a as [|c a IH]; cbn [String.append pdfmetrics.text_width]; [reflexivity|].
  rewrite IH. lia.
Qed.

(** A text is at most as wide as any text it starts. *)
Lemma stringWidth_app_le (fontName a b : string) (fontSize : Q) :
  0 <= fontSize ->
  pdfmetrics.stringWidth a fontName fontSize
  <= pdfmetrics.stringWidth (a ++ b) fontName fontSize.
Proof.
  intros Hs. unfold pdfmetrics.stringWidth. rewrite text_width_app.
  apply Qmult_le_compat_r; [|exact Hs].
  apply Qmult_le_compat_r; [|discriminate].
  rewrite <- Zle_Qle. pose proof (text_width_nonneg fontName b). lia.
Qed.

(** X6. With the standard metrics, a title that goes on never gets a larger
    size than the title it starts with. *)
Theorem fit_title_font_longer_title (title more : string) (max_width : Q) :
  exists s1 s2,
    fit_title_font pdfmetrics.stringWidth title max_width = ret s1
    /\ fit_title_font pdfmetrics.stringWidth (title ++ more) max_width = ret s2
    /\ s2 <= s1.
Proof.
  rewrite !fit_title_font_first_fit. eexists. eexists.
  split; [reflexivity|]. split; [reflexivity|].
  pose proof TITLE_SIZES_range as Hr. rewrite Forall_forall in Hr.
  apply first_fit_monotone.
  - exact TITLE_SIZES_decreasing.
  - intros s Hin. now apply Hr.
  - intros s Hin. unfold title_fits. rewrite !Qle_bool_iff. intros H.
    eapply Qle_trans; [|exact H]. apply stringWidth_app_le.
    apply Qle_trans with MIN_FONT_SIZE; [discriminate | now apply Hr].
Qed.

(** X7. With the standard metrics, the footer size does not grow when the
    source text or the page text goes on. *)
Theorem calculate_footer_font_longer_texts
    (source_text page_text more_source more_page : string) :
  exists s1 s2,
    calculate_footer_font pdfmetrics.stringWidth source_text page_text = ret s1
    /\ calculate_footer_font pdfmetrics.stringWidth
         (source_text ++ more_source) (page_text ++ more_page) = ret s2
    /\ s2 <= s1.
Proof.
  rewrite !calculate_footer_font_first_fit. eexists. eexists.
  split; [reflexivity|]. split; [reflexivity|].
  pose proof FOOTER_SIZES_range as Hr. rewrite Forall_forall in Hr.
  assert (Hpos : forall s, In s FOOTER_SIZES -> 0 <= s).
  { intros s Hin. apply Qle_trans with MIN_FOOTER_FONT_SIZE; [discriminate | now apply Hr]. }
  apply first_fit_monotone.
  - exact FOOTER_SIZES_decreasing.
  - intros s Hin. now apply Hr.
  - intros s Hin. unfold footer_fits. rewrite !andb_true_iff, !Qle_bool_iff.
    intros [H1 H2]. split.
    + eapply Qle_trans; [|exact H1]. apply stringWidth_app_le. now apply Hpos.
    + eapply Qle_trans; [|exact H2]. apply stringWidth_app_le. now apply Hpos.
Qed.

(* ===================================================================== *)
(** ** The composed card: the body region *)
(* ===================================================================== *)

(** Whichever way [auto_scale_text] returns, the text it returns is the
    lines of the search or the lines of the fallback, joined. *)
Lemma auto_scale_text_lines (stringWidth : string -> string -> Q -> Q)
    (line_limit : Q -> Z)
    (text : string) (max_width max_height s : Q) (c : string) :
  auto_scale_text stringWidth line_limit text max_width max_height = ret (s, c) ->
  exists lines,
    c = join "<br/>" lines
    /\ fitted_lines stringWidth line_limit text max_width max_height s lines.
Proof.
  intros H. unfold auto_scale_text in H.
  destruct (auto_scale_search stringWidth text max_width max_height)
    as [e|[[s' c']|a]] eqn:Hsearch; cbn [bind] in H; [discriminate| |].
  - inversion H; subst s' c'. rewrite auto_scale_search_over in Hsearch.
    apply auto_scale_over_returned in Hsearch.
    destruct Hsearch as (_ & _ & wrapped & _ & _ & Hw & Hfit & ->).
    exists wrapped. split; [reflexivity|]. left. now split.
  - rewrite auto_scale_search_over in Hsearch.
    apply auto_scale_over_exhausted in Hsearch. destruct Hsearch as [Hall ->].
    rewrite width_after_BODY_SIZES in H.
    unfold auto_scale_fallback in H. cbn [bind ret] in H.
    destruct (truediv max_width (stringWidth "n" BODY_FONT_NAME MIN_FONT_SIZE))
      as [e|ratio] eqn:Hratio; [discriminate|].
    cbn [bind] in H.
    destruct (textwrap.wrap text (int ratio)) as [e|wrapped] eqn:Hwrapped;
      [discriminate|].
    cbn [bind] in H. inversion H; subst s c. clear H.
    eexists. split; [reflexivity|]. right. split; [reflexivity|]. split.
    + now apply Forall_forall.
    + exists (int ratio), wrapped. unfold chars_per_line. rewrite Hratio.
      repeat split. exact Hwrapped.
Qed.

(** The lines of a result need no more than the height at the size of
    the result, when the line limit is not negative and as many lines
    at [MIN_FONT_SIZE] fit the height. *)
Lemma fitted_lines_fit (stringWidth : string -> string -> Q -> Q)
    (line_limit : Q -> Z)
    (text : string) (max_width max_height s : Q) (lines : list string) :
  (0 <= line_limit max_height)%Z ->
  inject_Z (line_limit max_height) * (MIN_FONT_SIZE * LINE_SPACING) <= max_height ->
  fitted_lines stringWidth line_limit text max_width max_height s lines ->
  needed_height lines s <= max_height.
Proof.
  intros Hlimit Hfit [[_ H]|(-> & _ & budget & wrapped & _ & _ & ->)]; [exact H|].
  rewrite slice_to_nonneg by exact Hlimit.
  unfold needed_height. eapply Qle_trans; [|exact Hfit].
  apply Qmult_le_compat_r; [|discriminate].
  rewrite <- Zle_Qle. now apply len_firstn_le.
Qed.

Lemma min__le_l (a b : Q) : min_ a b <= a.
Proof.
  unfold min_. destruct (Qle_bool a b) eqn:E; [apply Qle_refl|].
  destruct (Qlt_le_dec a b) as [H|H]; [|exact H].
  apply Qlt_le_weak, Qle_bool_iff in H. congruence.
Qed.

Lemma min__le_r (a b : Q) : min_ a b <= b.
Proof.
  unfold min_. destruct (Qle_bool a b) eqn:E; [now apply Qle_bool_iff | apply Qle_refl].
Qed.

(** The title size is one of 12, 11, ..., 6, whatever the metrics. *)
Lemma fit_title_font_range (stringWidth : string -> string -> Q -> Q)
    (title : string) (max_width s : Q) :
  fit_title_font stringWidth title max_width = ret s ->
  MIN_FONT_SIZE <= s /\ s <= MAX_TITLE_SIZE.
Proof.
  intros H. rewrite fit_title_font_first_fit in H.
  assert (E : s = first_fit (title_fits stringWidth title max_width) TITLE_SIZES MIN_FONT_SIZE)
    by (unfold ret in H; congruence).
  pose proof TITLE_SIZES_range as Hr. rewrite Forall_forall in Hr.
  destruct (first_fit_largest (title_fits stringWidth title max_width)
              MIN_FONT_SIZE TITLE_SIZES_decreasing) as [(Hin & _)|[E' _]].
  - rewrite E. now apply Hr.
  - rewrite E, E'. split; by_computation.
Qed.

Lemma fit_title_font_candidate (stringWidth : string -> string -> Q -> Q)
    (title : string) (max_width s : Q) :
  fit_title_font stringWidth title max_width = ret s -> In s TITLE_SIZES.
Proof.
  intros H. rewrite fit_title_font_first_fit in H.
  assert (E : s = first_fit (title_fits stringWidth title max_width) TITLE_SIZES MIN_FONT_SIZE)
    by (unfold ret in H; congruence).
  destruct (first_fit_largest (title_fits stringWidth title max_width)
              MIN_FONT_SIZE TITLE_SIZES_decreasing) as [(Hin & _)|[E' _]].
  - now rewrite E.
  - rewrite E, E'. unfold TITLE_SIZES, MIN_FONT_SIZE. simpl. tauto.
Qed.

(** What [create_card_content] computes on the way to the card. *)
Lemma create_card_content_parts (stringWidth : string -> string -> Q -> Q)
    (line_limit : Q -> Z)
    (parse_markup : string -> ParagraphStyle -> result unit)
    (card_title quote analysis source page_number : string) (card : Flowable) :
  create_card_content stringWidth line_limit parse_markup card_title quote analysis source page_number
  = ret card ->
  exists title_font_size quote_font quote_content analysis_font analysis_content
         footer_font_size body_style footer_style,
    let para_available_height :=
      CONTENT_HEIGHT - (title_font_size * LINE_SPACING + 6) - 12 - FOOTER_HEIGHT in
    fit_title_font stringWidth card_title CONTENT_WIDTH = ret title_font_size
    /\ auto_scale_text stringWidth line_limit quote CONTENT_WIDTH (para_available_height / 2)
       = ret (quote_font, quote_content)
    /\ auto_scale_text stringWidth line_limit analysis CONTENT_WIDTH (para_available_height / 2)
       = ret (analysis_font, analysis_content)
    /\ calculate_footer_font stringWidth ("Source: " ++ source) ("Page: " ++ page_number)
       = ret footer_font_size
    /\ row_heights card
       = [title_font_size * LINE_SPACING + 6; 12; para_available_height; FOOTER_HEIGHT]
    /\ body_flowables card
       = [Paragraph ("<b>Quote:</b> " ++ quote_content) body_style;
          Spacer 1 6;
          Paragraph ("<b>Analysis:</b> " ++ analysis_content) body_style]
    /\ fontName body_style = BODY_FONT_NAME
    /\ fontSize body_style = min_ quote_font analysis_font
    /\ leading body_style = min_ quote_font analysis_font * LINE_SPACING
    /\ footer_cells card
       = ([Paragraph ("<b>Source:</b> " ++ source) footer_style],
          [Paragraph ("<b>Page:</b> " ++ page_number) footer_style])
    /\ fontName footer_style = BODY_FONT_NAME
    /\ fontSize footer_style = footer_font_size
    /\ leading footer_style = footer_font_size * 1.2.
Proof.
  intros H. unfold create_card_content in H.
  destruct (fit_title_font stringWidth card_title CONTENT_WIDTH) as [e|size];
    [discriminate|].
  cbn [bind] in H.
  destruct (auto_scale_text stringWidth line_limit quote CONTENT_WIDTH _) as [e|[qf qc]] eqn:Hq;
    [discriminate|].
  cbn [bind] in H.
  destruct (auto_scale_text stringWidth line_limit analysis CONTENT_WIDTH _) as [e|[af ac]] eqn:Ha;
    [discriminate|].
  cbn [bind] in H.
  destruct (calculate_footer_font stringWidth _ _) as [e|ff] eqn:Hf; [discriminate|].
  cbn [bind] in H. through_paragraphs parse_markup H.
  inversion H; subst card. clear H.
  exists size, qf, qc, af, ac, ff. eexists. eexists. cbv zeta.
  repeat split; try reflexivity; assumption.
Qed.

(** The height of the body region of every card: between 123.6 and 130.8
    points. *)
Lemma para_available_height_range (title_font_size : Q) :
  MIN_FONT_SIZE <= title_font_size -> title_font_size <= MAX_TITLE_SIZE ->
  let para_available_height :=
    CONTENT_HEIGHT - (title_font_size * LINE_SPACING + 6) - 12 - FOOTER_HEIGHT in
  123.6 <= para_available_height /\ para_available_height <= 130.8.
Proof.
  unfold MIN_FONT_SIZE, MAX_TITLE_SIZE, CONTENT_HEIGHT, CARD_HEIGHT, CARD_MARGIN,
    FOOTER_HEIGHT, LINE_SPACING, inch.
  intros H1 H2. cbv zeta. split; lra.
Qed.

(** X8. Every row of a composed card has a positive height, whatever the
    texts and the metrics: the title row between 13.2 and 20.4 points,
    the body row between 123.6 and 130.8 points. *)
Theorem card_rows_are_positive (stringWidth : string -> string -> Q -> Q)
    (line_limit : Q -> Z)
    (parse_markup : string -> ParagraphStyle -> result unit)
    (card_title quote analysis source page_number : string) (card : Flowable) :
  create_card_content stringWidth line_limit parse_markup card_title quote analysis source page_number
  = ret card ->
  exists title_height body_height,
    row_heights card = [title_height; 12; body_height; FOOTER_HEIGHT]
    /\ 13.2 <= title_height /\ title_height <= 20.4
    /\ 123.6 <= body_height /\ body_height <= 130.8
    /\ Forall (fun h => 0 < h) (row_heights card).
Proof.
  intros H. apply create_card_content_rows in H.
  destruct H as (size & Hsize & Hrows & _).
  apply fit_title_font_range in Hsize. destruct Hsize as [Hlo Hhi].
  destruct (para_available_height_range Hlo Hhi) as [Hb1 Hb2].
  unfold MIN_FONT_SIZE in Hlo. unfold MAX_TITLE_SIZE in Hhi.
  assert (Ht1 : 13.2 <= size * LINE_SPACING + 6) by (unfold LINE_SPACING; lra).
  assert (Ht2 : size * LINE_SPACING + 6 <= 20.4) by (unfold LINE_SPACING; lra).
  eexists. eexists. split; [exact Hrows|].
  repeat (split; [assumption|]).
  rewrite Hrows. repeat constructor.
  - lra.
  - lra.
Qed.

Lemma card_rows_are_positive_witness :
  exists card,
    create_card_content pdfmetrics.stringWidth exact_line_limit sample_markup
      "Test Card" "Short quote." "Short analysis." "Book" "12" = ret card
    /\ exists title_height body_height,
        row_heights card = [title_height; 12; body_height; FOOTER_HEIGHT]
        /\ 13.2 <= title_height /\ title_height <= 20.4
        /\ 123.6 <= body_height /\ body_height <= 130.8
        /\ Forall (fun h => 0 < h) (row_heights card).
Proof.
  eexists. split; [vm_compute; reflexivity|].
  eapply (@card_rows_are_positive pdfmetrics.stringWidth exact_line_limit sample_markup
            "Test Card" "Short quote." "Short analysis." "Book" "12").
  vm_compute. reflexivity.
Defined.

Lemma Qmult_le_nonneg_l (x y z : Q) : 0 <= z -> x <= y -> z * x <= z * y.
Proof.
  intros Hz H. rewrite (Qmult_comm z x), (Qmult_comm z y).
  now apply Qmult_le_compat_r.
Qed.



(* ===================================================================== *)
(** ** The sheet: page breaks and skipped files in any run *)
(* ===================================================================== *)

Section AnyRun.

Variable MarkdownAnalyzer : string -> result Analysis.
Variable stringWidth : string -> string -> Q -> Q.
Variable line_limit : Q -> Z.
Variable parse_markup : string -> ParagraphStyle -> result unit.

(** What the loop emits starts with a card. *)
Lemma emitted_head (md_dir : string) :
  forall md_files i,
    emitted MarkdownAnalyzer stringWidth line_limit parse_markup md_dir i md_files = []
    \/ exists card rest,
         emitted MarkdownAnalyzer stringWidth line_limit parse_markup md_dir i md_files = card :: rest
         /\ is_PageBreak card = false.
Proof.
  induction md_files as [|f rest IH]; intros i; [now left|].
  cbn [emitted].
  destruct (compose_file MarkdownAnalyzer stringWidth line_limit parse_markup md_dir f) as [e|card] eqn:E;
    [apply IH|].
  right. eexists. eexists. split; [reflexivity|].
  now apply compose_file_is_card in E.
Qed.

(** In what the loop emits, a page break follows a card, and what follows
    it, if anything, is a card. *)
Lemma emitted_breaks (md_dir : string) :
  forall md_files i before after,
    emitted MarkdownAnalyzer stringWidth line_limit parse_markup md_dir i md_files
    = (before ++ PageBreak :: after)%list ->
    (exists before' card,
        before = (before' ++ [card])%list /\ is_PageBreak card = false)
    /\ (after = []
        \/ exists card after', after = card :: after' /\ is_PageBreak card = false).
Proof.
  induction md_files as [|f rest IH]; intros i before after H.
  - destruct before; discriminate.
  - cbn [emitted] in H.
    destruct (compose_file MarkdownAnalyzer stringWidth line_limit parse_markup md_dir f) as [e|card] eqn:E;
      [now apply IH in H|].
    apply compose_file_is_card in E.
    destruct before as [|x before]; cbn [app] in H.
    { inversion H; subst card. discriminate. }
    inversion H as [[Hx Hrest]]. subst x. clear H.
    destruct ((i + 1) mod 3 =? 0)%Z; cbn [app] in Hrest.
    + destruct before as [|y before]; cbn [app] in Hrest.
      * inversion Hrest as [Hafter]. split.
        -- exists [], card. now split.
        -- destruct (emitted_head md_dir rest (i + 1)) as [H0|(c & r & H0 & Hc)].
           ++ left. congruence.
           ++ right. exists c, r. split; [congruence | exact Hc].
      * inversion Hrest as [[Hy Hrest']]. subst y.
        destruct (IH _ _ _ Hrest') as [(b' & c & -> & Hc) Hafter]. split.
        -- exists (card :: PageBreak :: b'), c. now split.
        -- exact Hafter.
    + destruct (IH _ _ _ Hrest) as [(b' & c & -> & Hc) Hafter]. split.
      * exists (card :: b'), c. now split.
      * exact Hafter.
Qed.

End AnyRun.

(** A list with a trailing page break removed: where a page break is
    left, it was followed by something. *)
Lemma pop_trailing_break_middle (l before after : list Flowable) :
  pop_trailing_break l = (before ++ PageBreak :: after)%list ->
  exists after', l = (before ++ PageBreak :: after')%list /\ after' <> []
                 /\ (after = after' \/ after' = (after ++ [PageBreak])%list).
Proof.
  unfold pop_trailing_break. destruct (rev l) as [|z rest] eqn:E.
  - intros H. apply (f_equal (@List.length _)) in E.
    rewrite length_rev, H, length_app in E. cbn [List.length] in E. lia.
  - apply (f_equal (@rev _)) in E. rewrite rev_involutive in E. cbn [rev] in E.
    destruct (is_PageBreak z) eqn:Hz; intros H.
    + destruct z; try discriminate. rewrite H in E.
      exists (after ++ [PageBreak])%list. split; [|split].
      * rewrite E, <- app_assoc. reflexivity.
      * destruct after; discriminate.
      * now right.
    + exists after. split; [exact H|]. split; [|now left].
      intros ->. rewrite H in E.
      apply (f_equal (@rev _)) in E. rewrite !rev_unit in E.
      inversion E; subst z. discriminate.
Qed.

(** X10. In the story of any run, whatever files are skipped, a page break
    stands between two cards: the story does not start or end with a
    page break and holds no two page breaks in a row. *)
Theorem page_breaks_stand_between_cards
    (MarkdownAnalyzer : string -> result Analysis)
    (stringWidth : string -> string -> Q -> Q)
    (line_limit : Q -> Z)
    (parse_markup : string -> ParagraphStyle -> result unit)
    (listdir : string -> list string) (md_dir output_file : string)
    (before after : list Flowable) :
  story (fst (make_avery5388_pdf MarkdownAnalyzer stringWidth line_limit parse_markup listdir md_dir output_file))
  = (before ++ PageBreak :: after)%list ->
  (exists before' card, before = (before' ++ [card])%list /\ is_card card = true)
  /\ (exists card after', after = card :: after' /\ is_card card = true).
Proof.
  unfold make_avery5388_pdf. rewrite sheet_loop_emitted. cbn [fst story app].
  intros H. apply pop_trailing_break_middle in H.
  destruct H as (after' & H & Hne & Hafter).
  apply emitted_breaks in H. destruct H as [(b' & c & -> & Hc) Hnext]. split.
  - exists b', c. split; [reflexivity|]. unfold is_card. now rewrite Hc.
  - destruct Hnext as [->|(c' & r & -> & Hc')]; [contradiction|].
    destruct Hafter as [->|Hafter].
    + exists c', r. split; [reflexivity|]. unfold is_card. now rewrite Hc'.
    + destruct after as [|x after]; cbn [app] in Hafter.
      * inversion Hafter; subst c'. discriminate.
      * inversion Hafter; subst x. exists c', after. split; [reflexivity|].
        unfold is_card. now rewrite Hc'.
Qed.

Lemma page_breaks_stand_between_cards_witness :
  let elements :=
    story (fst (make_avery5388_pdf faulty_analyzer pdfmetrics.stringWidth exact_line_limit sample_markup sample_listdir
                  "cards" "avery_5388_cards.pdf")) in
  elements = (firstn 2 elements ++ PageBreak :: skipn 3 elements)%list
  /\ (exists before' card,
         firstn 2 elements = (before' ++ [card])%list /\ is_card card = true)
  /\ (exists card after', skipn 3 elements = card :: after' /\ is_card card = true).
Proof.
  cbv zeta.
  set (elements :=
         story (fst (make_avery5388_pdf faulty_analyzer pdfmetrics.stringWidth exact_line_limit sample_markup
                       sample_listdir "cards" "avery_5388_cards.pdf"))).
  assert (H : elements = (firstn 2 elements ++ PageBreak :: skipn 3 elements)%list)
    by (vm_compute; reflexivity).
  split; [exact H|].
  exact (@page_breaks_stand_between_cards faulty_analyzer pdfmetrics.stringWidth exact_line_limit sample_markup
           sample_listdir "cards" "avery_5388_cards.pdf"
           (firstn 2 elements) (skipn 3 elements) H).
Defined.

Lemma startswith_app (p s : string) : startswith p (p ++ s) = true.
Proof.
  unfold startswith. induction p as [|c p IH]; cbn [String.append String.prefix].
  - now destruct s.
  - destruct (ascii_dec c c); [exact IH | contradiction].
Qed.

(** X11. Every file of the sorted list gives a card or a printed line, never
    both and never neither: in any run the cards of the story and the
    lines printed add up to the number of files ending in [.md]. *)
Theorem every_file_is_a_card_or_a_line
    (MarkdownAnalyzer : string -> result Analysis)
    (stringWidth : string -> string -> Q -> Q)
    (line_limit : Q -> Z)
    (parse_markup : string -> ParagraphStyle -> result unit)
    (listdir : string -> list string) (md_dir output_file : string) :
  let run := make_avery5388_pdf MarkdownAnalyzer stringWidth line_limit parse_markup listdir md_dir output_file in
  (List.length (filter is_card (story (fst run))) + List.length (snd run))%nat
  = List.length (filter (endswith ".md") (listdir md_dir))
  /\ Forall (fun line => startswith "Skipping " line = true) (snd run).
Proof.
  cbv zeta. unfold make_avery5388_pdf. rewrite sheet_loop_emitted.
  cbn [fst snd story app]. rewrite filter_pop_trailing_break, filter_emitted.
  assert (Hsorted : forall l, List.length (sorted l) = List.length l).
  { assert (Hins : forall x l, List.length (insert_sorted x l) = S (List.length l)).
    { intros x l. induction l as [|y l IH]; [reflexivity|].
      cbn [insert_sorted]. destruct (String.ltb x y); cbn [List.length]; [reflexivity|].
      now rewrite IH. }
    induction l as [|x l IH]; [reflexivity|].
    unfold sorted in *. cbn [fold_right]. rewrite Hins. cbn [List.length].
    now rewrite IH. }
  rewrite <- (Hsorted (filter (endswith ".md") (listdir md_dir))).
  generalize (sorted (filter (endswith ".md") (listdir md_dir))) as md_files.
  induction md_files as [|f rest [IH1 IH2]]; [split; [reflexivity | constructor]|].
  cbn [flat_map]. unfold card_of at 1, diagnostic_of at 1 3.
  destruct (compose_file MarkdownAnalyzer stringWidth line_limit parse_markup md_dir f) as [e|card].
  - cbn [app List.length]. split; [lia|]. constructor; [apply startswith_app | exact IH2].
  - cbn [app List.length]. split; [lia | exact IH2].
Qed.


(** A parsed record whose title is no well-formed markup: the file is
    skipped with the error of the markup parser, and the cards after it
    are composed. *)
Example run_with_a_refused_title :
  let run := make_avery5388_pdf angle_analyzer pdfmetrics.stringWidth exact_line_limit
               sample_markup sample_listdir "cards" "avery_5388_cards.pdf" in
  parse_markdown angle_analyzer (path_join "cards" "c.md")
  = ret ("if x<y then", "A quote", "fine", "A Book", "3")
  /\ (exists e,
         (forall style, sample_markup "<b>if x<y then</b>" style = raise e)
         /\ snd run = ["Skipping c.md: " ++ str_exn e])
  /\ map is_PageBreak (story (fst run)) = [false; false; false].
Proof.
  cbv zeta. split; [vm_compute; reflexivity|]. split; [|vm_compute; reflexivity].
  eexists. split; [intros style; vm_compute; reflexivity | vm_compute; reflexivity].
Qed.

(* ===================================================================== *)
(** ** The record parser: strings *)
(* ===================================================================== *)

Lemma string_app_assoc (a b c : string) : ((a ++ b) ++ c)%string = (a ++ b ++ c)%string.
Proof. induction a as [|x a IH]; cbn [String.append]; [reflexivity | now rewrite IH]. Qed.

Lemma string_app_nil_r (a : string) : (a ++ "")%string = a.
Proof. induction a as [|x a IH]; cbn [String.append]; [reflexivity | now rewrite IH]. Qed.

Lemma str_forallb_app (P : ascii -> bool) (a b : string) :
  str_forallb P (a ++ b) = str_forallb P a && str_forallb P b.
Proof.
  induction a as [|x a IH]; cbn [String.append str_forallb]; [reflexivity|].
  now rewrite IH, andb_assoc.
Qed.

Lemma prefix_empty (s : string) : String.prefix "" s = true.
Proof. now destruct s. Qed.

Lemma prefix_cons (c d : ascii) (p s : string) :
  String.prefix (String c p) (String d s) = Ascii.eqb c d && String.prefix p s.
Proof.
  cbn [String.prefix]. destruct (ascii_dec c d) as [->|Hne].
  - now rewrite Ascii.eqb_refl.
  - destruct (Ascii.eqb_spec c d); [contradiction | reflexivity].
Qed.

Lemma prefix_split (p s : string) :
  String.prefix p s = true -> s = (p ++ str_slice_from (String.length p) s)%string.
Proof.
  revert s. induction p as [|c p IH]; intros s H; [reflexivity|].
  destruct s as [|d s]; [discriminate|].
  rewrite prefix_cons in H. apply andb_true_iff in H. destruct H as [Hc Hp].
  apply Ascii.eqb_eq in Hc. subst d.
  cbn [String.length str_slice_from String.append]. f_equal. now apply IH.
Qed.

Lemma str_slice_from_app (p s : string) : str_slice_from (String.length p) (p ++ s) = s.
Proof. induction p as [|c p IH]; [reflexivity | exact IH]. Qed.

(** *** [lstrip], [rstrip] and [strip] *)

Lemma lstrip_app (ws s : string) : all_space ws = true -> lstrip (ws ++ s) = lstrip s.
Proof.
  unfold all_space. induction ws as [|c ws IH]; cbn [str_forallb String.append lstrip];
    intros H; [reflexivity|].
  apply andb_true_iff in H. destruct H as [-> H]. now apply IH.
Qed.

Lemma lstrip_spec (s : string) :
  exists ws, s = (ws ++ lstrip s)%string /\ all_space ws = true.
Proof.
  induction s as [|c s (ws & E & H)]; [now exists ""|].
  cbn [lstrip]. destruct (isspace c) eqn:Hc.
  - exists (String c ws). cbn [String.append]. split; [now rewrite <- E|].
    unfold all_space in *. cbn [str_forallb]. now rewrite Hc, H.
  - now exists "".
Qed.

Lemma lstrip_head (s : string) :
  match lstrip s with
  | String c _ => isspace c = false
  | EmptyString => True
  end.
Proof.
  induction s as [|c s IH]; [exact I|].
  cbn [lstrip]. destruct (isspace c) eqn:Hc; [exact IH | exact Hc].
Qed.

Lemma lstrip_fixed (s : string) :
  match s with
  | String c _ => isspace c = false
  | EmptyString => True
  end -> lstrip s = s.
Proof. destruct s as [|c s]; [reflexivity|]. cbn [lstrip]. now intros ->. Qed.

Lemma lstrip_idempotent (s : string) : lstrip (lstrip s) = lstrip s.
Proof. apply lstrip_fixed. apply lstrip_head. Qed.

Lemma rstrip_idempotent (s : string) : rstrip (rstrip s) = rstrip s.
Proof.
  induction s as [|c s IH]; [reflexivity|].
  cbn [rstrip]. destruct (rstrip s) as [|d r] eqn:E.
  - destruct (isspace c) eqn:Hc; [reflexivity|]. cbn [rstrip]. now rewrite Hc.
  - cbn [rstrip]. cbn [rstrip] in IH. rewrite IH. reflexivity.
Qed.

Lemma rstrip_head (c : ascii) (s : string) :
  isspace c = false -> exists r, rstrip (String c s) = String c r.
Proof.
  intros Hc. cbn [rstrip]. destruct (rstrip s); [rewrite Hc|]; eexists; reflexivity.
Qed.

(** [strip] is idempotent: a stripped text has no white space left at
    either end. *)
Lemma strip_idempotent (s : string) : strip (strip s) = strip s.
Proof.
  unfold strip.
  assert (H : lstrip (rstrip (lstrip s)) = rstrip (lstrip s)).
  { pose proof (lstrip_head s) as Hh. destruct (lstrip s) as [|c t]; [reflexivity|].
    destruct (@rstrip_head c t Hh) as (r & ->). cbn [lstrip]. now rewrite Hh. }
  rewrite H. apply rstrip_idempotent.
Qed.

Lemma rstrip_cons (c : ascii) (s : string) :
  rstrip (String c s)
  = match rstrip s with
    | EmptyString => if isspace c then EmptyString else String c EmptyString
    | r => String c r
    end.
Proof. reflexivity. Qed.

Lemma rstrip_app (a b : string) :
  a <> "" -> rstrip a = a -> rstrip (a ++ b) = (a ++ rstrip b)%string.
Proof.
  induction a as [|c a IH]; intros Hne H; [contradiction|].
  destruct a as [|d a].
  - cbn [String.append rstrip] in *. destruct (isspace c); [discriminate|].
    now destruct (rstrip b).
  - assert (Ha : rstrip (String d a) = String d a).
    { rewrite (rstrip_cons c (String d a)) in H.
      destruct (rstrip (String d a)); [destruct (isspace c); discriminate|].
      now inversion H. }
    specialize (IH ltac:(discriminate) Ha).
    change (String c (String d a) ++ b)%string with (String c (String d a ++ b)).
    rewrite (rstrip_cons c (String d a ++ b)), IH. reflexivity.
Qed.

(** *** [span] *)

Lemma span_spec (P : ascii -> bool) (s : string) :
  s = (fst (span P s) ++ snd (span P s))%string
  /\ str_forallb P (fst (span P s)) = true
  /\ match snd (span P s) with
     | String c _ => P c = false
     | EmptyString => True
     end.
Proof.
  induction s as [|c s (E & Hall & Hrest)]; [repeat split|].
  cbn [span]. destruct (P c) eqn:Hc.
  - destruct (span P s) as [a b]. cbn [fst snd] in *.
    cbn [String.append str_forallb]. rewrite Hc, Hall. repeat split; [|exact Hrest].
    now rewrite <- E.
  - cbn [fst snd String.append str_forallb]. repeat split. exact Hc.
Qed.

Lemma span_app (P : ascii -> bool) (a b : string) :
  str_forallb P a = true ->
  match b with
  | String c _ => P c = false
  | EmptyString => True
  end ->
  span P (a ++ b) = (a, b).
Proof.
  intros Ha Hb. induction a as [|c a IH]; cbn [String.append].
  - destruct b as [|c b]; [reflexivity|]. cbn [span]. now rewrite Hb.
  - cbn [str_forallb] in Ha. apply andb_true_iff in Ha. destruct Ha as [Hc Ha].
    cbn [span]. rewrite Hc, (IH Ha). reflexivity.
Qed.

(* ===================================================================== *)
(** ** The record parser: the page heading *)
(* ===================================================================== *)

Ltac by_cases_on_character c :=
  destruct c as [[] [] [] [] [] [] [] []]; vm_compute; intuition congruence.

Lemma isdecimal_not_isspace (c : ascii) : isdecimal c = true -> isspace c = false.
Proof. by_cases_on_character c. Qed.

Lemma isspace_not_isdecimal (c : ascii) : isspace c = true -> isdecimal c = false.
Proof. by_cases_on_character c. Qed.

(** The head of a run of white space followed by a hyphen is no digit. *)
Lemma space_then_hyphen_head (ws s : string) :
  all_space ws = true ->
  match (ws ++ String "-" s)%string with
  | String x _ => isdecimal x = false
  | EmptyString => True
  end.
Proof.
  unfold all_space. destruct ws as [|c ws]; cbn [String.append str_forallb]; intros H.
  - reflexivity.
  - apply andb_true_iff in H. destruct H as [Hc _]. now apply isspace_not_isdecimal.
Qed.

(** X13. A heading written as the word [Page], a page number, a hyphen and a
    title, with any white space around the number and the hyphen, is read
    back: the page number is the digits, and the title is the rest of
    the line, as written. *)
Theorem match_header_round_trip (ws1 digits ws2 ws3 title rest : string) :
  all_space ws1 = true -> all_space ws2 = true -> all_space ws3 = true ->
  digits <> "" -> all_digits digits = true ->
  one_line title = true ->
  lstrip (title ++ rest) = (title ++ rest)%string ->
  (rest = "" \/ exists r, rest = String newline r) ->
  match_header ("Page" ++ ws1 ++ digits ++ ws2 ++ "-" ++ ws3 ++ title ++ rest)
  = Some (digits, title).
Proof.
  intros H1 H2 H3 Hne Hd Ht Hl Hrest. unfold match_header.
  rewrite (startswith_app "Page" _ : String.prefix "Page" _ = true).
  change 4%nat with (String.length "Page"). rewrite str_slice_from_app.
  rewrite lstrip_app by exact H1.
  destruct digits as [|d digits]; [contradiction|].
  unfold all_digits in Hd. cbn [str_forallb] in Hd.
  apply andb_true_iff in Hd. destruct Hd as [Hd0 Hd].
  cbn [String.append]. rewrite lstrip_fixed by (now apply isdecimal_not_isspace).
  change (String d (digits ++ ws2 ++ String "-" (ws3 ++ title ++ rest)))
    with (String d digits ++ (ws2 ++ String "-" (ws3 ++ title ++ rest)))%string.
  rewrite span_app.
  - rewrite lstrip_app by exact H2. rewrite lstrip_fixed by reflexivity.
    rewrite lstrip_app by exact H3. rewrite Hl. rewrite span_app; [reflexivity | exact Ht|].
    destruct Hrest as [->|(r & ->)]; [exact I | reflexivity].
  - cbn [str_forallb]. now rewrite Hd0, Hd.
  - now apply space_then_hyphen_head.
Qed.

Lemma match_header_round_trip_witness :
  all_space " " = true /\ all_space " " = true /\ all_space " " = true
  /\ "7" <> "" /\ all_digits "7" = true
  /\ one_line "A Title" = true
  /\ lstrip ("A Title" ++ "") = ("A Title" ++ "")%string
  /\ ("" = "" \/ exists r, "" = String newline r)
  /\ match_header ("Page" ++ " " ++ "7" ++ " " ++ "-" ++ " " ++ "A Title" ++ "")
     = Some ("7", "A Title").
Proof.
  assert (Hs : all_space " " = true) by reflexivity.
  assert (Hne : "7" <> "") by discriminate.
  assert (Hd : all_digits "7" = true) by reflexivity.
  assert (Ht : one_line "A Title" = true) by reflexivity.
  assert (Hl : lstrip ("A Title" ++ "") = ("A Title" ++ "")%string) by reflexivity.
  assert (Hr : "" = "" \/ exists r, "" = String newline r) by (now left).
  repeat (split; [assumption|]).
  exact (@match_header_round_trip " " "7" " " " " "A Title" "" Hs Hs Hs Hne Hd Ht Hl Hr).
Defined.

(** X14. What the heading pattern accepts, and nothing else: the word [Page]
    at the very start, a page number of one or more decimal digits, a
    hyphen, and as title the rest of the line, without the white space
    before it.  What follows the first line is ignored. *)
Theorem match_header_sound (header_text page_number card_title : string) :
  match_header header_text = Some (page_number, card_title) ->
  exists ws1 ws2 ws3 rest,
    header_text
    = ("Page" ++ ws1 ++ page_number ++ ws2 ++ "-" ++ ws3 ++ card_title ++ rest)%string
    /\ all_space ws1 = true /\ all_space ws2 = true /\ all_space ws3 = true
    /\ page_number <> "" /\ all_digits page_number = true
    /\ one_line card_title = true
    /\ lstrip card_title = card_title
    /\ (rest = "" \/ exists r, rest = String newline r).
Proof.
  unfold match_header. intros H.
  destruct (String.prefix "Page" header_text) eqn:Hp; [|discriminate].
  apply prefix_split in Hp. change (String.length "Page") with 4%nat in Hp.
  destruct (lstrip_spec (str_slice_from 4 header_text)) as (ws1 & E1 & Hw1).
  destruct (span_spec isdecimal (lstrip (str_slice_from 4 header_text)))
    as (Ed & Hd & _).
  destruct (span isdecimal (lstrip (str_slice_from 4 header_text))) as [digits s1].
  cbn [fst snd] in Ed, Hd.
  destruct digits as [|d digits]; [discriminate|].
  destruct (lstrip_spec s1) as (ws2 & E2 & Hw2).
  destruct (lstrip s1) as [|h s2]; [discriminate|].
  destruct (Ascii.eqb_spec h "-") as [->|Hh].
  2:{ destruct h as [[] [] [] [] [] [] [] []]; try discriminate. now contradiction Hh. }
  destruct (lstrip_spec s2) as (ws3 & E3 & Hw3).
  pose proof (lstrip_head s2) as Hhead.
  destruct (span_spec (fun c => negb (Ascii.eqb c newline)) (lstrip s2))
    as (Et & Ht & Hrest).
  destruct (span (fun c => negb (Ascii.eqb c newline)) (lstrip s2)) as [title rest].
  cbn [fst snd] in Et, Ht, Hrest.
  assert (Hpt : page_number = String d digits /\ card_title = title).
  { change (Some (String d digits, title) = Some (page_number, card_title)) in H.
    inversion H. now split. }
  destruct Hpt as [-> ->].
  exists ws1, ws2, ws3, rest. split; [|repeat split].
  - rewrite Hp, E1, Ed, E2, E3, Et at 1. reflexivity.
  - exact Hw1.
  - exact Hw2.
  - exact Hw3.
  - discriminate.
  - exact Hd.
  - exact Ht.
  - apply lstrip_fixed. rewrite Et in Hhead. now destruct title.
  - destruct rest as [|c r]; [now left|]. right. exists r. f_equal.
    apply negb_false_iff in Hrest. now apply Ascii.eqb_eq.
Qed.

Lemma match_header_sound_witness :
  match_header ("Page12 -  A Title " ++ String newline "second line")
  = Some ("12", "A Title ")
  /\ exists ws1 ws2 ws3 rest,
      ("Page12 -  A Title " ++ String newline "second line")%string
      = ("Page" ++ ws1 ++ "12" ++ ws2 ++ "-" ++ ws3 ++ "A Title " ++ rest)%string
      /\ all_space ws1 = true /\ all_space ws2 = true /\ all_space ws3 = true
      /\ "12" <> "" /\ all_digits "12" = true
      /\ one_line "A Title " = true
      /\ lstrip "A Title " = "A Title "
      /\ (rest = "" \/ exists r, rest = String newline r).
Proof.
  split; [reflexivity|].
  apply (@match_header_sound ("Page12 -  A Title " ++ String newline "second line")
           "12" "A Title ").
  reflexivity.
Defined.

(* ===================================================================== *)
(** ** The record parser: the source link *)
(* ===================================================================== *)

Lemma until_close_sound (s g : string) :
  until_close s = Some g ->
  exists post, s = (g ++ "]]" ++ post)%string /\ one_line g = true.
Proof.
  revert g. induction s as [|c s IH]; intros g H; [discriminate|].
  cbn [until_close] in H.
  destruct (String.prefix "]]" (String c s)) eqn:Hp.
  - inversion H; subst g. apply prefix_split in Hp. eexists. split; [exact Hp | reflexivity].
  - destruct (Ascii.eqb c newline) eqn:Hc; [discriminate|].
    destruct (until_close s) as [g'|]; [|discriminate].
    inversion H; subst g. destruct (IH g' eq_refl) as (post & -> & Hg).
    exists post. split; [reflexivity|].
    unfold one_line in *. cbn [str_forallb]. now rewrite Hc, Hg.
Qed.

Lemma until_close_here (post : string) : until_close ("]]" ++ post) = Some "".
Proof.
  change ("]]" ++ post)%string with (String "]" (String "]" post)).
  cbn [until_close]. now rewrite !prefix_cons, prefix_empty.
Qed.

Lemma until_close_complete (g post : string) :
  one_line g = true -> until_close (g ++ "]]" ++ post) <> None.
Proof.
  unfold one_line. induction g as [|c g IH]; cbn [str_forallb]; intros H.
  - change ("" ++ "]]" ++ post)%string with ("]]" ++ post)%string.
    rewrite until_close_here. discriminate.
  - apply andb_true_iff in H. destruct H as [Hc Hg].
    change (String c g ++ "]]" ++ post)%string with (String c (g ++ "]]" ++ post)).
    cbn [until_close]. destruct (String.prefix "]]" _); [discriminate|].
    apply negb_true_iff in Hc. rewrite Hc.
    specialize (IH Hg). destruct (until_close (g ++ "]]" ++ post)); [discriminate|].
    contradiction.
Qed.

Lemma until_close_exact (g post : string) :
  one_line g = true -> without "]" g = true ->
  until_close (g ++ "]]" ++ post) = Some g.
Proof.
  unfold one_line, without. induction g as [|c g IH]; cbn [str_forallb]; intros H1 H2.
  - apply until_close_here.
  - apply andb_true_iff in H1. destruct H1 as [Hc Hg].
    apply andb_true_iff in H2. destruct H2 as [Hb Hg'].
    change (String c g ++ "]]" ++ post)%string with (String c (g ++ "]]" ++ post)).
    cbn [until_close]. rewrite prefix_cons.
    apply negb_true_iff in Hb. rewrite Ascii.eqb_sym in Hb. rewrite Hb. cbn [andb].
    apply negb_true_iff in Hc. rewrite Hc. now rewrite (IH Hg Hg').
Qed.

(** X15. A source that [parse_markdown] finds stands in the paragraph between
    two opening and two closing brackets, on one line. *)
Theorem search_source_sound (paragraph source : string) :
  search_source paragraph = Some source ->
  exists pre post,
    paragraph = (pre ++ "[[" ++ source ++ "]]" ++ post)%string
    /\ one_line source = true.
Proof.
  revert source. induction paragraph as [|c s IH]; intros g H; [discriminate|].
  cbn [search_source] in H.
  assert (Hrest : search_source s = Some g ->
                  exists pre post,
                    String c s = (pre ++ "[[" ++ g ++ "]]" ++ post)%string
                    /\ one_line g = true).
  { intros H'. destruct (IH g H') as (pre & post & -> & Hg).
    exists (String c pre), post. now split. }
  destruct (String.prefix "[[" (String c s)) eqn:Hp; [|now apply Hrest].
  destruct (until_close (str_slice_from 2 (String c s))) as [g'|] eqn:Hu;
    [|now apply Hrest].
  inversion H; subst g'. apply prefix_split in Hp.
  change (String.length "[[") with 2%nat in Hp.
  apply until_close_sound in Hu. destruct Hu as (post & Hu & Hg).
  exists "", post. split; [|exact Hg]. rewrite Hp, Hu at 1. reflexivity.
Qed.

Lemma search_source_sound_witness :
  search_source "From [[A Book]], chapter 2" = Some "A Book"
  /\ exists pre post,
      "From [[A Book]], chapter 2" = (pre ++ "[[" ++ "A Book" ++ "]]" ++ post)%string
      /\ one_line "A Book" = true.
Proof.
  split; [reflexivity|].
  apply (@search_source_sound "From [[A Book]], chapter 2" "A Book"). reflexivity.
Defined.

(** X16. The source is found exactly when the paragraph holds a link on one
    line: without one the search gives nothing, and [parse_markdown]
    keeps the source [Unknown]. *)
Theorem search_source_finds_a_link (paragraph : string) :
  search_source paragraph = None
  <-> ~ exists pre link post,
          paragraph = (pre ++ "[[" ++ link ++ "]]" ++ post)%string
          /\ one_line link = true.
Proof.
  split.
  - intros H (pre & link & post & -> & Hl). revert H.
    induction pre as [|c pre IH].
    + change ("" ++ "[[" ++ link ++ "]]" ++ post)%string
        with (String "[" (String "[" (link ++ "]]" ++ post))).
      cbn [search_source]. rewrite !prefix_cons, prefix_empty. cbn [Ascii.eqb Bool.eqb andb].
      cbn [str_slice_from].
      pose proof (@until_close_complete link post Hl) as Hc.
      destruct (until_close (link ++ "]]" ++ post)); [discriminate | contradiction].
    + change (String c pre ++ "[[" ++ link ++ "]]" ++ post)%string
        with (String c (pre ++ "[[" ++ link ++ "]]" ++ post)).
      cbn [search_source].
      destruct (String.prefix "[[" _); [|exact IH].
      destruct (until_close _); [discriminate | exact IH].
  - intros H. destruct (search_source paragraph) as [g|] eqn:E; [|reflexivity].
    exfalso. apply H. apply search_source_sound in E.
    destruct E as (pre & post & E & Hg). now exists pre, g, post.
Qed.

(** X17. The first link of a paragraph is read back as written, when it holds
    no closing bracket and no line feed. *)
Theorem search_source_round_trip (pre source post : string) :
  without "[" pre = true ->
  without "]" source = true -> one_line source = true ->
  search_source (pre ++ "[[" ++ source ++ "]]" ++ post) = Some source.
Proof.
  intros Hpre Hs Hl. unfold without in Hpre.
  induction pre as [|c pre IH].
  - change ("" ++ "[[" ++ source ++ "]]" ++ post)%string
      with (String "[" (String "[" (source ++ "]]" ++ post))).
    cbn [search_source]. rewrite !prefix_cons, prefix_empty. cbn [Ascii.eqb Bool.eqb andb].
    cbn [str_slice_from]. now rewrite until_close_exact.
  - cbn [str_forallb] in Hpre. apply andb_true_iff in Hpre. destruct Hpre as [Hc Hpre].
    change (String c pre ++ "[[" ++ source ++ "]]" ++ post)%string
      with (String c (pre ++ "[[" ++ source ++ "]]" ++ post)).
    cbn [search_source]. rewrite prefix_cons.
    apply negb_true_iff in Hc. rewrite Ascii.eqb_sym in Hc. rewrite Hc. cbn [andb].
    now apply IH.
Qed.

Lemma search_source_round_trip_witness :
  without "[" "From " = true
  /\ without "]" "A Book" = true /\ one_line "A Book" = true
  /\ search_source ("From " ++ "[[" ++ "A Book" ++ "]]" ++ ", see [[Other]]")
     = Some "A Book".
Proof.
  assert (H1 : without "[" "From " = true) by reflexivity.
  assert (H2 : without "]" "A Book" = true) by reflexivity.
  assert (H3 : one_line "A Book" = true) by reflexivity.
  repeat (split; [assumption|]).
  exact (@search_source_round_trip "From " "A Book" ", see [[Other]]" H1 H2 H3).
Defined.

(* ===================================================================== *)
(** ** The record parser: the analysis paragraph *)
(* ===================================================================== *)

(** X18. The analysis that [parse_markdown] returns has no white space at
    either end: stripping it again changes nothing. *)
Theorem find_analysis_is_stripped (paragraphs : list string) :
  strip (find_analysis paragraphs) = find_analysis paragraphs.
Proof.
  induction paragraphs as [|para rest IH]; [reflexivity|].
  cbn [find_analysis]. destruct (startswith "**Analysis:**" (strip para)).
  - apply strip_idempotent.
  - exact IH.
Qed.

Lemma isspace_not_star (c : ascii) : isspace c = true -> Ascii.eqb "*" c = false.
Proof. by_cases_on_character c. Qed.

Lemma replace_fuel_without (s : string) :
  without "*" s = true ->
  forall fuel, replace_fuel fuel ANALYSIS_MARKER "" s = s.
Proof.
  unfold without. intros H fuel. revert s H.
  induction fuel as [|fuel IH]; intros s H; [reflexivity|].
  destruct s as [|c s]; [reflexivity|].
  cbn [str_forallb] in H. apply andb_true_iff in H. destruct H as [Hc Hs].
  cbn [replace_fuel]. unfold ANALYSIS_MARKER at 1. rewrite prefix_cons.
  apply negb_true_iff in Hc. rewrite Ascii.eqb_sym in Hc. rewrite Hc. cbn [andb].
  now rewrite IH.
Qed.

Lemma replace_fuel_marked (body : string) :
  without "*" body = true ->
  forall ws fuel,
    all_space ws = true -> (String.length ws < fuel)%nat ->
    replace_fuel fuel ANALYSIS_MARKER "" (ws ++ ANALYSIS_MARKER ++ body)
    = (ws ++ body)%string.
Proof.
  intros Hbody. unfold all_space.
  induction ws as [|c ws IH]; intros fuel Hws Hfuel;
    (destruct fuel as [|fuel]; [cbn [String.length] in Hfuel; lia|]).
  - cbn [String.append replace_fuel].
    rewrite (startswith_app ANALYSIS_MARKER body
             : String.prefix ANALYSIS_MARKER (ANALYSIS_MARKER ++ body) = true).
    rewrite str_slice_from_app. cbn [String.append]. now apply replace_fuel_without.
  - cbn [str_forallb] in Hws. apply andb_true_iff in Hws. destruct Hws as [Hc Hws].
    change (String c ws ++ ANALYSIS_MARKER ++ body)%string
      with (String c (ws ++ ANALYSIS_MARKER ++ body)).
    cbn [replace_fuel]. unfold ANALYSIS_MARKER at 1. rewrite prefix_cons.
    rewrite (isspace_not_star _ Hc). cbn [andb String.append].
    rewrite IH; [reflexivity | exact Hws | cbn [String.length] in Hfuel; lia].
Qed.

Lemma marked_paragraph (ws body : string) :
  all_space ws = true -> marked (ws ++ ANALYSIS_MARKER ++ body) = true.
Proof.
  intros Hws. unfold marked, strip. rewrite lstrip_app by exact Hws.
  rewrite lstrip_fixed by reflexivity.
  rewrite rstrip_app; [apply startswith_app | discriminate | reflexivity].
Qed.

(** X19. The analysis is taken from the first paragraph that starts, after
    white space, with the marker; the paragraphs before it and after it
    are not read.  When the text after the marker holds no asterisk, the
    analysis is that text without the white space around it. *)
Theorem find_analysis_first_marked (before after : list string) (ws body : string) :
  Forall (fun para => marked para = false) before ->
  all_space ws = true ->
  without "*" body = true ->
  find_analysis (before ++ (ws ++ ANALYSIS_MARKER ++ body)%string :: after)
  = strip body.
Proof.
  intros Hbefore Hws Hbody.
  induction before as [|para before IH]; cbn [app find_analysis].
  - pose proof (@marked_paragraph ws body Hws) as Hm. unfold marked, ANALYSIS_MARKER in Hm.
    unfold ANALYSIS_MARKER. rewrite Hm. unfold replace.
    change "**Analysis:**" with ANALYSIS_MARKER.
    rewrite replace_fuel_marked; [|exact Hbody|exact Hws|].
    + unfold strip. now rewrite lstrip_app by exact Hws.
    + rewrite textwrap_facts.length_string_app. lia.
  - inversion Hbefore as [|? ? Hpara Hrest]; subst.
    unfold marked, ANALYSIS_MARKER in Hpara. rewrite Hpara. now apply IH.
Qed.

Lemma find_analysis_first_marked_witness :
  Forall (fun para => marked para = false) ["From [[A Book]]"; "Note: **Analysis:** x"]
  /\ all_space " " = true
  /\ without "*" " it holds. " = true
  /\ find_analysis
       (["From [[A Book]]"; "Note: **Analysis:** x"]
          ++ (" " ++ ANALYSIS_MARKER ++ " it holds. ")%string
          :: ["**Analysis:** a second one"])
     = strip " it holds. ".
Proof.
  assert (H1 : Forall (fun para => marked para = false)
                 ["From [[A Book]]"; "Note: **Analysis:** x"])
    by (repeat constructor).
  assert (H2 : all_space " " = true) by reflexivity.
  assert (H3 : without "*" " it holds. " = true) by reflexivity.
  repeat (split; [assumption|]).
  exact (@find_analysis_first_marked ["From [[A Book]]"; "Note: **Analysis:** x"]
           ["**Analysis:** a second one"] " " " it holds. " H1 H2 H3).
Defined.

(* ===================================================================== *)
(** ** The sheet: the frames of a page and the files of a run *)
(* ===================================================================== *)

(** X20. The three frames of a page are card-sized and stacked without a gap
    and without overlap from the bottom margin up to the top margin (the
    vertical gap the code computes is zero on a letter page); each starts
    at the left margin and ends at the right margin. *)
Theorem avery5388_frames_tile_the_sheet :
  exists top middle bottom,
    frames avery5388_page_template = [top; middle; bottom]
    /\ pagesize avery5388_page_template = (PAGE_WIDTH, PAGE_HEIGHT)
    /\ Forall (fun f => x1 f == PAGE_LEFT_MARGIN
                        /\ frame_width f == CARD_WIDTH
                        /\ frame_height f == CARD_HEIGHT
                        /\ x1 f + frame_width f == PAGE_WIDTH - PAGE_RIGHT_MARGIN)
              [top; middle; bottom]
    /\ y1 bottom == PAGE_BOTTOM_MARGIN
    /\ y1 middle == y1 bottom + frame_height bottom
    /\ y1 top == y1 middle + frame_height middle
    /\ y1 top + frame_height top == PAGE_HEIGHT - PAGE_TOP_MARGIN.
Proof.
  eexists. eexists. eexists. split; [reflexivity|]. split; [reflexivity|].
  split; [repeat constructor|]; repeat split; reflexivity.
Qed.

(** X21. The rows of a composed card and the margin above and below them add
    up to the height of every frame of the page: a card is never higher
    than the frame it goes into. *)
Theorem card_is_as_high_as_a_frame (stringWidth : string -> string -> Q -> Q)
    (line_limit : Q -> Z)
    (parse_markup : string -> ParagraphStyle -> result unit)
    (card_title quote analysis source page_number : string) (card : Flowable) :
  create_card_content stringWidth line_limit parse_markup card_title quote analysis source page_number
  = ret card ->
  Forall (fun f => Qsum (row_heights card) + 2 * CARD_MARGIN == frame_height f
                   /\ Qsum (row_heights card) <= frame_height f)
         (frames avery5388_page_template).
Proof.
  intros H. apply create_card_content_rows in H.
  destruct H as (size & _ & Hrows & _).
  assert (Hsum : Qsum (row_heights card) == CONTENT_HEIGHT).
  { rewrite Hrows. unfold Qsum. cbn [fold_right]. ring. }
  unfold avery5388_page_template. cbn [frames].
  repeat constructor; cbn [frame_height]; rewrite Hsum; by_computation.
Qed.

Lemma card_is_as_high_as_a_frame_witness :
  exists card,
    create_card_content pdfmetrics.stringWidth exact_line_limit sample_markup
      "Test Card" "Short quote." "Short analysis." "Book" "12" = ret card
    /\ Forall (fun f => Qsum (row_heights card) + 2 * CARD_MARGIN == frame_height f
                        /\ Qsum (row_heights card) <= frame_height f)
              (frames avery5388_page_template).
Proof.
  eexists. split; [vm_compute; reflexivity|].
  eapply (@card_is_as_high_as_a_frame pdfmetrics.stringWidth exact_line_limit sample_markup
            "Test Card" "Short quote." "Short analysis." "Book" "12").
  vm_compute. reflexivity.
Defined.

(** *** The order of the files *)

Lemma ltb_asymmetric (x y : string) : String.ltb x y = true -> String.ltb y x = false.
Proof.
  unfold String.ltb. rewrite (String.compare_antisym y x).
  destruct (String.compare x y); cbn [CompOpp]; congruence.
Qed.

Lemma insert_sorted_permutation (x : string) (l : list string) :
  Permutation (insert_sorted x l) (x :: l).
Proof.
  induction l as [|y l IH]; cbn [insert_sorted]; [apply Permutation_refl|].
  destruct (String.ltb x y); [apply Permutation_refl|].
  eapply Permutation_trans; [apply perm_skip; exact IH | apply perm_swap].
Qed.

Lemma insert_sorted_sorted (x : string) (l : list string) :
  Sorted (fun a b => String.ltb b a = false) l ->
  Sorted (fun a b => String.ltb b a = false) (insert_sorted x l).
Proof.
  induction l as [|y l IH]; cbn [insert_sorted]; intros Hl.
  - repeat constructor.
  - destruct (String.ltb x y) eqn:E.
    + constructor; [exact Hl|]. constructor. now apply ltb_asymmetric.
    + inversion Hl as [|? ? Hl' Hhd]; subst. constructor; [now apply IH|].
      destruct l as [|z l]; cbn [insert_sorted].
      * constructor. exact E.
      * destruct (String.ltb x z); constructor; [exact E|].
        now inversion Hhd.
Qed.

(** X22. The files of a run are the names of the directory that end in
    [.md], each as often as it is listed, in ascending order: no file
    name is followed by a smaller one. *)
Theorem md_files_are_sorted (listdir : string -> list string) (md_dir : string) :
  let md_files := sorted (filter (endswith ".md") (listdir md_dir)) in
  Permutation md_files (filter (endswith ".md") (listdir md_dir))
  /\ Sorted (fun a b => String.ltb b a = false) md_files
  /\ Forall (fun f => endswith ".md" f = true) md_files
  /\ (forall f, In f md_files <-> In f (listdir md_dir) /\ endswith ".md" f = true).
Proof.
  cbv zeta.
  assert (Hperm : forall l, Permutation (sorted l) l).
  { induction l as [|x l IH]; [apply Permutation_refl|].
    unfold sorted in *. cbn [fold_right].
    eapply Permutation_trans; [apply insert_sorted_permutation|].
    now apply perm_skip. }
  assert (Hsorted : forall l, Sorted (fun a b => String.ltb b a = false) (sorted l)).
  { induction l as [|x l IH]; [constructor|].
    unfold sorted in *. cbn [fold_right]. now apply insert_sorted_sorted. }
  assert (Hin : forall f, In f (sorted (filter (endswith ".md") (listdir md_dir)))
                          <-> In f (listdir md_dir) /\ endswith ".md" f = true).
  { intros f. rewrite <- filter_In. split; apply Permutation_in.
    - apply Hperm.
    - apply Permutation_sym, Hperm. }
  split; [apply Hperm|]. split; [apply Hsorted|]. split; [|exact Hin].
  apply Forall_forall. intros f Hf. now apply Hin in Hf.
Qed.

(* ===================================================================== *)
(** ** The text fitter keeps the words: the lines of [textwrap.wrap] *)
(* ===================================================================== *)

Module textwrap_words.

Import textwrap textwrap_facts.

Local Open Scope Z_scope.

Section Lines.

Variable width : Z.
Hypothesis width_positive : 1 <= width.

Lemma with_spaces_cons (w : string) (rest : list string) :
  rest <> [] -> with_spaces (w :: rest) = w :: " " :: with_spaces rest.
Proof. destruct rest; [contradiction | reflexivity]. Qed.

Lemma with_spaces_nil (words : list string) : with_spaces words = [] -> words = [].
Proof. destruct words as [|w [|]]; [reflexivity | discriminate | discriminate]. Qed.

(** The inner loop on words and spaces: it takes some first words [g],
    and stops before a word that does not fit or before the space in
    front of it. *)
Lemma fill_line_with_spaces (words : list string) :
  Forall (short_word width) words ->
  forall cur_line cur_len,
  exists g rest lead tail cur_len',
    words = (g ++ rest)%list
    /\ fill_line width (with_spaces words) cur_line cur_len
       = ((lead ++ with_spaces rest)%list,
          (cur_line ++ with_spaces g ++ tail)%list, cur_len')
    /\ ((tail = [] /\ lead = [] /\ (g = [] \/ rest = []))
        \/ (tail = [" "] /\ lead = [] /\ g <> [] /\ rest <> [])
        \/ (tail = [] /\ lead = [" "] /\ g <> [] /\ rest <> []))
    /\ (g = [] ->
        match words with
        | w :: _ => width < cur_len + strlen w
        | [] => True
        end).
Proof.
  induction words as [|w r IH]; intros Hall cur_line cur_len.
  - exists [], [], [], [], cur_len. cbn [with_spaces fill_line app].
    rewrite app_nil_r. repeat split. left. repeat split. now left.
  - inversion Hall as [|? ? Hw Hr]; subst. specialize (IH Hr).
    assert (Hstop : width < cur_len + strlen w ->
              fill_line width (with_spaces (w :: r)) cur_line cur_len
              = (with_spaces (w :: r), cur_line, cur_len)).
    { intros Hlt. destruct r as [|w2 r2]; cbn [with_spaces fill_line];
        destruct (Z.leb_spec (cur_len + strlen w) width); try lia; reflexivity. }
    destruct (Z.leb_spec (cur_len + strlen w) width) as [Hfit|Hnofit].
    2:{ exists [], (w :: r), [], [], cur_len. rewrite (Hstop Hnofit).
        cbn [app]. rewrite app_nil_r. repeat split; [|intros _; exact Hnofit].
        left. repeat split. now left. }
    destruct r as [|w2 r2].
    + exists [w], [], [], [], (cur_len + strlen w).
      cbn [with_spaces fill_line app].
      destruct (Z.leb_spec (cur_len + strlen w) width); [|lia].
      unfold append. repeat split; [|discriminate].
      left. repeat split. now right.
    + rewrite with_spaces_cons by discriminate. cbn [fill_line].
      destruct (Z.leb_spec (cur_len + strlen w) width); [|lia].
      change (strlen " ") with 1.
      destruct (Z.leb_spec (cur_len + strlen w + 1) width) as [Hspace|Hnospace].
      * destruct (IH (append (append cur_line w) " ") (cur_len + strlen w + 1))
          as (g & rest & lead & tail & len' & E & Hfill & Hcases & Hnone).
        rewrite Hfill. unfold append. rewrite <- !app_assoc. cbn [app].
        destruct g as [|g1 g'].
        -- exists [w], (w2 :: r2), [], [" "], len'.
           destruct Hcases as [(-> & -> & _)|[(_ & _ & Hg & _)|(_ & _ & Hg & _)]];
             try contradiction.
           cbn [app] in E. subst rest. cbn [with_spaces app].
           repeat split; [|discriminate].
           right. left. repeat split; discriminate.
        -- exists (w :: g1 :: g'), rest, lead, tail, len'.
           rewrite (with_spaces_cons w (rest := g1 :: g')) by discriminate.
           cbn [app]. cbn [app] in E. rewrite E. repeat split; [|discriminate].
           destruct Hcases as [(-> & -> & [Hg|Hrest])|[(-> & -> & _ & Hrest)|(-> & -> & _ & Hrest)]].
           ++ discriminate.
           ++ left. repeat split. now right.
           ++ right. left. repeat split; [discriminate | exact Hrest].
           ++ right. right. repeat split; [discriminate | exact Hrest].
      * exists [w], (w2 :: r2), [" "], [], (cur_len + strlen w).
        unfold append. cbn [with_spaces app].
        repeat split; [|discriminate].
        right. right. repeat split; discriminate.
Qed.

Lemma with_spaces_last (g : list string) :
  g <> [] -> exists init w, with_spaces g = (init ++ [w])%list /\ In w g.
Proof.
  induction g as [|w r IH]; intros Hne; [contradiction|].
  destruct r as [|w2 r2].
  - exists [], w. split; [reflexivity | now left].
  - destruct (IH ltac:(discriminate)) as (init & x & E & Hin).
    exists (w :: " " :: init), x. rewrite with_spaces_cons by discriminate.
    rewrite E. split; [reflexivity | now right].
Qed.

Lemma drop_trailing_with_spaces (g : list string) :
  Forall (short_word width) g -> drop_trailing (with_spaces g) = with_spaces g.
Proof.
  intros Hall. destruct g as [|w r]; [reflexivity|].
  destruct (@with_spaces_last (w :: r) ltac:(discriminate)) as (init & x & E & Hin).
  rewrite Forall_forall in Hall. destruct (Hall x Hin) as [Hx _].
  rewrite E. unfold drop_trailing. rewrite rev_unit. now rewrite Hx.
Qed.

Lemma drop_trailing_space (l : list string) : drop_trailing (l ++ [" "]) = l.
Proof.
  unfold drop_trailing. rewrite rev_unit.
  change (blank " ") with true. cbn iota. apply rev_involutive.
Qed.

Lemma with_spaces_head (words : list string) :
  match with_spaces words with
  | chunk :: _ => exists rest, words = chunk :: rest
  | [] => words = []
  end.
Proof. destruct words as [|w [|w2 r]]; cbn [with_spaces]; eauto. Qed.

(** One pass of the outer loop on words and spaces: the line is some
    first words with a space between two of them. *)
Lemma next_line_with_spaces (words lead lines : list string) :
  words <> [] ->
  Forall (short_word width) words ->
  (lead = [] \/ (lead = [" "] /\ lines <> [])) ->
  exists g rest lead',
    words = (g ++ rest)%list /\ g <> []
    /\ next_line width (lead ++ with_spaces words) lines
       = ((lead' ++ with_spaces rest)%list, with_spaces g)
    /\ (lead' = [] \/ (lead' = [" "] /\ rest <> [])).
Proof.
  intros Hne Hall Hlead.
  assert (Hdrop : drop_leading (lead ++ with_spaces words) lines = with_spaces words).
  { destruct Hlead as [->|[-> Hlines]]; cbn [app].
    - pose proof (with_spaces_head words) as Hh.
      destruct (with_spaces words) as [|chunk r] eqn:E; [reflexivity|].
      destruct Hh as (rest & ->). inversion Hall as [|? ? [Hb _] _]; subst.
      unfold drop_leading. destruct lines; [reflexivity | now rewrite Hb].
    - unfold drop_leading. destruct lines; [contradiction | reflexivity]. }
  destruct (fill_line_with_spaces Hall [] 0)
    as (g & rest & lead' & tail & len' & E & Hfill & Hcases & Hnone).
  assert (Hg : g <> []).
  { intros ->. specialize (Hnone eq_refl). destruct words as [|w r]; [contradiction|].
    inversion Hall as [|? ? [_ Hw] _]; subst. lia. }
  exists g, rest, lead'. split; [exact E|]. split; [exact Hg|].
  assert (Hgs : Forall (short_word width) g /\ Forall (short_word width) rest).
  { rewrite E in Hall. now apply Forall_app in Hall. }
  destruct Hgs as [Hgall Hrest].
  assert (Hline : drop_trailing ([] ++ with_spaces g ++ tail) = with_spaces g).
  { cbn [app].
    destruct Hcases as [(-> & _)|[(-> & _)|(-> & _)]].
    - rewrite app_nil_r. now apply drop_trailing_with_spaces.
    - apply drop_trailing_space.
    - rewrite app_nil_r. now apply drop_trailing_with_spaces. }
  assert (Hshort : match (lead' ++ with_spaces rest)%list with
                   | chunk :: _ => (width <? strlen chunk) = false
                   | [] => True
                   end).
  { destruct Hcases as [(_ & -> & _)|[(_ & -> & _)|(_ & -> & _)]]; cbn [app].
    - pose proof (with_spaces_head rest) as Hh.
      destruct (with_spaces rest) as [|chunk r]; [exact I|].
      destruct Hh as (r' & ->). inversion Hrest as [|? ? [_ Hw] _]; subst.
      apply Z.ltb_ge. exact Hw.
    - pose proof (with_spaces_head rest) as Hh.
      destruct (with_spaces rest) as [|chunk r]; [exact I|].
      destruct Hh as (r' & ->). inversion Hrest as [|? ? [_ Hw] _]; subst.
      apply Z.ltb_ge. exact Hw.
    - apply Z.ltb_ge. change (strlen " ") with 1. exact width_positive. }
  split.
  - unfold next_line. rewrite Hdrop, Hfill.
    destruct (lead' ++ with_spaces rest)%list as [|chunk r] eqn:Echunks.
    + now rewrite Hline.
    + rewrite Hshort. now rewrite Hline.
  - destruct Hcases as [(_ & -> & _)|[(_ & -> & _)|(_ & -> & _ & Hr)]];
      [now left | now left | right; now split].
Qed.

Lemma join_with_spaces (g : list string) : join "" (with_spaces g) = join " " g.
Proof.
  unfold join. induction g as [|w r IH]; [reflexivity|].
  destruct r as [|w2 r2]; [reflexivity|].
  rewrite with_spaces_cons by discriminate.
  change (String.concat " " (w :: w2 :: r2))
    with (w ++ " " ++ String.concat " " (w2 :: r2))%string.
  rewrite <- IH.
  destruct (with_spaces (w2 :: r2)) as [|c cs] eqn:E.
  - apply with_spaces_nil in E. discriminate.
  - reflexivity.
Qed.

Lemma join_app (sep : string) (a b : list string) :
  a <> [] -> b <> [] ->
  join sep (a ++ b) = (join sep a ++ sep ++ join sep b)%string.
Proof.
  unfold join. intros Ha Hb. induction a as [|x a IH]; [contradiction|].
  destruct a as [|y a].
  - destruct b as [|z b]; [contradiction | reflexivity].
  - change (String.concat sep ((x :: y :: a) ++ b))
      with (x ++ sep ++ String.concat sep ((y :: a) ++ b))%string.
    rewrite IH by discriminate.
    change (String.concat sep (x :: y :: a))
      with (x ++ sep ++ String.concat sep (y :: a))%string.
    now rewrite !string_app_assoc.
Qed.

(** Lines that are groups of words, joined again with a space, are the
    words joined with a space. *)
Lemma join_groups (groups : list (list string)) :
  Forall (fun g => g <> []) groups ->
  join " " (map (join " ") groups) = join " " (List.concat groups).
Proof.
  induction groups as [|g gs IH]; intros Hall; [reflexivity|].
  inversion Hall as [|? ? Hg Hgs]; subst. specialize (IH Hgs).
  destruct gs as [|g2 gs'].
  - cbn [map List.concat]. now rewrite app_nil_r.
  - change (List.concat (g :: g2 :: gs')) with (g ++ List.concat (g2 :: gs'))%list.
    rewrite join_app.
    + rewrite <- IH. reflexivity.
    + exact Hg.
    + inversion Hgs as [|? ? Hg2 _]; subst. cbn [List.concat].
      destruct g2; [contradiction | discriminate].
Qed.

(** The outer loop on words and spaces: every line is a group of
    consecutive words, and no word is lost. *)
Lemma wrap_loop_with_spaces :
  forall fuel words lead lines,
    Forall (short_word width) words ->
    (lead = [] \/ (lead = [" "] /\ lines <> [] /\ words <> [])) ->
    (weight (lead ++ with_spaces words) <= fuel)%nat ->
    exists groups,
      wrap_loop fuel width (lead ++ with_spaces words) lines
      = ret (lines ++ map (join " ") groups)%list
      /\ List.concat groups = words
      /\ Forall (fun g => g <> []) groups.
Proof.
  induction fuel as [|fuel IH]; intros words lead lines Hall Hlead Hfuel.
  - destruct (lead ++ with_spaces words)%list as [|c r] eqn:E;
      [|cbn [weight fold_right] in Hfuel; lia].
    apply app_eq_nil in E. destruct E as [_ E]. apply with_spaces_nil in E. subst words.
    exists []. cbn [wrap_loop map List.concat]. rewrite app_nil_r. repeat split. constructor.
  - destruct words as [|w ws].
    + destruct Hlead as [->|(_ & _ & Hne)]; [|contradiction].
      exists []. cbn [wrap_loop with_spaces app map List.concat]. rewrite app_nil_r.
      repeat split. constructor.
    + assert (Hlead' : lead = [] \/ (lead = [" "] /\ lines <> [])).
      { destruct Hlead as [->|(-> & Hl & _)]; [now left | right; now split]. }
      destruct (@next_line_with_spaces (w :: ws) lead lines ltac:(discriminate) Hall Hlead')
        as (g & rest & lead2 & E & Hg & Hnext & Hlead2).
      assert (Hchunks : (lead ++ with_spaces (w :: ws))%list <> []).
      { destruct lead; [|discriminate]. cbn [app]. destruct ws; discriminate. }
      destruct (@next_line_spec width _ lines width_positive Hchunks _ _ Hnext)
        as [Hweight _].
      destruct (lead ++ with_spaces (w :: ws))%list as [|c r] eqn:Ec; [contradiction|].
      cbn [wrap_loop]. rewrite Hnext.
      assert (Hline : with_spaces g <> []).
      { intros H0. apply with_spaces_nil in H0. contradiction. }
      destruct (with_spaces g) as [|x xs] eqn:Ex; [contradiction|].
      rewrite <- Ex, join_with_spaces.
      assert (Hrest : Forall (short_word width) rest).
      { rewrite E in Hall. now apply Forall_app in Hall. }
      destruct (IH rest lead2 (append lines (join " " g)) Hrest) as (groups & Hloop & Hcat & Hne).
      * destruct Hlead2 as [->|[-> Hr]]; [now left|]. right. split; [reflexivity|].
        split; [|exact Hr]. unfold append. destruct lines; discriminate.
      * lia.
      * exists (g :: groups). rewrite Hloop. unfold append. cbn [map List.concat].
        rewrite <- app_assoc. cbn [app]. split; [reflexivity|].
        split; [now rewrite Hcat | now constructor].
Qed.

End Lines.

(** Words that fit a line, with one space between two of them, are
    wrapped into lines that hold all the words in their order. *)
Lemma _wrap_chunks_with_spaces (width : Z) (words lines : list string) :
  Forall (short_word width) words ->
  _wrap_chunks width (with_spaces words) = ret lines ->
  join " " lines = join " " words.
Proof.
  intros Hall H. unfold _wrap_chunks in H.
  destruct (Z.leb_spec width 0) as [|Hw]; [discriminate|].
  destruct (@wrap_loop_with_spaces width ltac:(lia) (weight (with_spaces words))
              words [] [] Hall (or_introl eq_refl) (le_n _))
    as (groups & Hloop & Hcat & Hne).
  cbn [app] in Hloop. rewrite Hloop in H.
  assert (E : lines = map (join " ") groups) by (unfold ret in H; congruence).
  rewrite E, join_groups by exact Hne. now rewrite Hcat.
Qed.

(** *** The chunks of words and spaces *)

Lemma at_from (m L : list ascii) (p : Z) :
  0 <= p -> skipn (Z.to_nat p) m = L ->
  forall n : nat, at_ m (p + Z.of_nat n) = nth_error L n.
Proof.
  intros Hp H n. unfold at_. destruct (Z.ltb_spec (p + Z.of_nat n) 0); [lia|].
  replace (Z.to_nat (p + Z.of_nat n)) with (Z.to_nat p + n)%nat by lia.
  now rewrite <- nth_error_skipn, H.
Qed.

Lemma skipn_from (m L : list ascii) (p : Z) :
  0 <= p -> skipn (Z.to_nat p) m = L ->
  forall n : nat, skipn (Z.to_nat (p + Z.of_nat n)) m = skipn n L.
Proof.
  intros Hp H n.
  replace (Z.to_nat (p + Z.of_nat n)) with (n + Z.to_nat p)%nat by lia.
  now rewrite <- skipn_skipn, H.
Qed.

Lemma run_at_from (P : ascii -> bool) (m L : list ascii) (p : Z) :
  0 <= p -> skipn (Z.to_nat p) m = L -> run_at P m p = Z.of_nat (run P L).
Proof.
  intros Hp H. unfold run_at. destruct (Z.ltb_spec p 0); [lia|]. now rewrite H.
Qed.

Lemma nth_error_skipn_head (l : list ascii) (n : nat) (c : ascii) :
  nth_error l n = Some c -> exists r, skipn n l = c :: r.
Proof.
  intros H. rewrite <- hd_error_skipn in H.
  destruct (skipn n l) as [|a r]; [discriminate|]. inversion H; subst. now exists r.
Qed.

Lemma _whitespace_not_hyphen (c : ascii) : _whitespace c = true -> is_hyphen c = false.
Proof. destruct c as [[] [] [] [] [] [] [] []]; vm_compute; intuition congruence. Qed.

Lemma not_isspace_not_whitespace (c : ascii) : isspace c = false -> _whitespace c = false.
Proof. destruct c as [[] [] [] [] [] [] [] []]; vm_compute; intuition congruence. Qed.

Section Word.

Variables (m L T : list ascii) (p : Z).
Hypothesis p_nonneg : 0 <= p.
Hypothesis from_p : skipn (Z.to_nat p) m = (L ++ T)%list.
Hypothesis word_chars : Forall (fun c => _whitespace c = false /\ is_hyphen c = false) L.
Hypothesis then_space :
  match T with
  | c :: _ => _whitespace c = true
  | [] => True
  end.

Lemma no_hyphen_from (n : nat) : is_at is_hyphen m (p + Z.of_nat n) = false
                                 \/ (n > List.length L)%nat.
Proof.
  destruct (Nat.le_gt_cases n (List.length L)) as [Hn|Hn]; [left | now right].
  unfold is_at. rewrite (@at_from _ _ _ p_nonneg from_p).
  destruct (nth_error (L ++ T) n) as [c|] eqn:E; [|reflexivity].
  destruct (Nat.eq_dec n (List.length L)) as [->|Hne].
  - rewrite nth_error_app2, Nat.sub_diag in E by lia.
    destruct T as [|t T']; [discriminate|]. cbn in E. inversion E; subst c.
    now apply _whitespace_not_hyphen.
  - rewrite nth_error_app1 in E by lia. apply nth_error_In in E.
    pose proof word_chars as Hall. rewrite Forall_forall in Hall. now apply Hall.
Qed.

Lemma word_run :
  forall k fuel n,
    (n + k = List.length L)%nat -> (k < fuel)%nat ->
    word fuel m p (Z.of_nat n) = Z.of_nat (List.length L).
Proof.
  induction k as [|k IH]; intros fuel n Hn Hfuel;
    (destruct fuel as [|fuel]; [lia|]); cbn [word].
  - assert (Hhy : is_at is_hyphen m (p + Z.of_nat n) = false).
    { destruct (no_hyphen_from n) as [H|H]; [exact H | lia]. }
    unfold hyphenated. rewrite Hhy. cbn [andb].
    unfold end_of_word. rewrite (@at_from _ _ _ p_nonneg from_p).
    rewrite nth_error_app2 by lia. replace (n - List.length L)%nat with 0%nat by lia.
    destruct T as [|t T']; cbn [nth_error]; [f_equal; lia|].
    rewrite then_space. f_equal. lia.
  - assert (Hhy : is_at is_hyphen m (p + Z.of_nat n) = false).
    { destruct (no_hyphen_from n) as [H|H]; [exact H | lia]. }
    unfold hyphenated. rewrite Hhy. cbn [andb].
    destruct (nth_error L n) as [c|] eqn:Ec; [|apply nth_error_None in Ec; lia].
    assert (Hat : nth_error (L ++ T) n = Some c) by (rewrite nth_error_app1 by lia; exact Ec).
    pose proof (nth_error_In _ _ Ec) as Hin.
    pose proof word_chars as Hall. rewrite Forall_forall in Hall.
    destruct (Hall c Hin) as [Hws Hnh].
    unfold end_of_word. rewrite (@at_from _ _ _ p_nonneg from_p), Hat, Hws.
    assert (Hdash : dashes_then_word m (p + Z.of_nat n) = None).
    { unfold dashes_then_word.
      rewrite (@run_at_from is_hyphen m (skipn n (L ++ T)) (p + Z.of_nat n));
        [|lia|now apply skipn_from].
      destruct (@nth_error_skipn_head _ _ _ Hat) as (r & ->).
      cbn [run]. now rewrite Hnh. }
    unfold before_em_dash. rewrite Hdash, andb_false_r.
    replace (Z.of_nat n + 1) with (Z.of_nat (S n)) by lia.
    apply IH; lia.
Qed.

(** The chunk at the start of a word is the word. *)
Lemma wordsep_match_word : L <> [] -> wordsep_match m p = Z.of_nat (List.length L).
Proof.
  intros Hne.
  assert (Hhead : exists c0 L', L = c0 :: L') by (destruct L; [contradiction | eauto]).
  destruct Hhead as (c0 & L' & EL).
  assert (Hc0 : _whitespace c0 = false /\ is_hyphen c0 = false).
  { pose proof word_chars as Hall. rewrite Forall_forall in Hall. apply Hall.
    rewrite EL. now left. }
  destruct Hc0 as [Hws Hnh].
  assert (Hat : at_ m p = Some c0).
  { replace p with (p + Z.of_nat 0) by lia. rewrite (@at_from _ _ _ p_nonneg from_p).
    now rewrite EL. }
  unfold wordsep_match, is_at. rewrite Hat, Hws.
  assert (Hdash : dashes_then_word m p = None).
  { unfold dashes_then_word. rewrite (@run_at_from is_hyphen _ _ _ p_nonneg from_p).
    rewrite EL. cbn [app run]. now rewrite Hnh. }
  unfold em_dash. rewrite Hdash.
  assert (Hlen : (List.length L <= List.length m)%nat).
  { pose proof (f_equal (@List.length _) from_p) as Hl.
    rewrite length_skipn, length_app in Hl. lia. }
  assert (Hpos : (1 <= List.length L)%nat) by (rewrite EL; cbn [List.length]; lia).
  destruct (is_at word_punct m (p - 1));
    (change 1 with (Z.of_nat 1);
     apply word_run with (k := (List.length L - 1)%nat); lia).
Qed.

End Word.

Lemma chars_app (a b : string) :
  list_ascii_of_string (a ++ b)
  = (list_ascii_of_string a ++ list_ascii_of_string b)%list.
Proof.
  induction a as [|c a IH]; cbn [String.append list_ascii_of_string app];
    [reflexivity | now rewrite IH].
Qed.

Lemma length_chars (s : string) : List.length (list_ascii_of_string s) = String.length s.
Proof. induction s as [|c s IH]; cbn; [reflexivity | now rewrite IH]. Qed.

Lemma join_empty_cons (c : string) (cs : list string) :
  join "" (c :: cs) = (c ++ join "" cs)%string.
Proof.
  unfold join. destruct cs as [|d cs]; cbn [String.concat].
  - now rewrite string_app_nil_r.
  - reflexivity.
Qed.

Lemma plain_word_chars (w : string) :
  plain_word w = true ->
  w <> ""
  /\ Forall (fun c => isspace c = false /\ is_hyphen c = false) (list_ascii_of_string w).
Proof.
  unfold plain_word. intros H. apply andb_true_iff in H. destruct H as [Hne H]. split.
  - intros ->. discriminate.
  - clear Hne. induction w as [|c w IH]; cbn [list_ascii_of_string]; [constructor|].
    cbn [str_forallb] in H. apply andb_true_iff in H. destruct H as [Hc H].
    apply andb_true_iff in Hc. destruct Hc as [H1 H2].
    apply negb_true_iff in H1, H2. constructor; [now split | now apply IH].
Qed.

Lemma split_from_end (m : list ascii) (p : Z) (fuel : nat) :
  0 <= p -> skipn (Z.to_nat p) m = [] -> split_from fuel m p = [].
Proof.
  intros Hp H. destruct fuel as [|fuel]; [reflexivity|]. cbn [split_from].
  apply skipn_all_iff in H. unfold len.
  destruct (Z.ltb_spec p (Z.of_nat (List.length m))); [lia | reflexivity].
Qed.

Lemma substr_from (m L T : list ascii) (p : Z) :
  0 <= p -> skipn (Z.to_nat p) m = (L ++ T)%list ->
  substr m p (Z.of_nat (List.length L)) = string_of_list_ascii L.
Proof.
  intros Hp H. unfold substr. rewrite H, Nat2Z.id.
  rewrite firstn_app, Nat.sub_diag, firstn_all. cbn [firstn]. now rewrite app_nil_r.
Qed.

(** [_split] gives back the words and the spaces between them. *)
Lemma split_from_with_spaces (m : list ascii) :
  forall words fuel p,
    0 <= p ->
    Forall (fun w => plain_word w = true) words ->
    skipn (Z.to_nat p) m = list_ascii_of_string (join "" (with_spaces words)) ->
    (List.length (with_spaces words) <= fuel)%nat ->
    split_from fuel m p = with_spaces words.
Proof.
  induction words as [|w r IH]; intros fuel p Hp Hall Hskip Hfuel.
  - now apply split_from_end.
  - inversion Hall as [|? ? Hw Hr]; subst.
    destruct (@plain_word_chars _ Hw) as [Hne Hchars].
    assert (HL : Forall (fun c => _whitespace c = false /\ is_hyphen c = false)
                        (list_ascii_of_string w)).
    { eapply Forall_impl; [|exact Hchars]. intros c [H1 H2]. split; [|exact H2].
      now apply not_isspace_not_whitespace. }
    assert (HLne : list_ascii_of_string w <> []).
    { destruct w; [contradiction | discriminate]. }
    assert (Hlen : (1 <= List.length (list_ascii_of_string w))%nat).
    { destruct (list_ascii_of_string w); [contradiction | cbn; lia]. }
    destruct r as [|w2 r2].
    + cbn [with_spaces] in *. rewrite join_empty_cons, chars_app in Hskip.
      change (list_ascii_of_string (join "" [])) with (@nil ascii) in Hskip.
      destruct fuel as [|fuel]; [cbn in Hfuel; lia|]. cbn [split_from].
      assert (Hlt : p < len m).
      { pose proof (f_equal (@List.length _) Hskip) as Hl.
        rewrite length_skipn, length_app in Hl. unfold len. cbn [List.length] in Hl. lia. }
      destruct (Z.ltb_spec p (len m)); [|lia].
      rewrite (@wordsep_match_word m _ [] p Hp Hskip HL I HLne).
      rewrite Z.max_r by lia.
      rewrite (@substr_from _ _ _ _ Hp Hskip), string_of_list_ascii_of_string.
      f_equal. apply split_from_end; [lia|].
      rewrite (@skipn_from _ _ _ Hp Hskip). rewrite skipn_app, skipn_all, Nat.sub_diag.
      reflexivity.
    + rewrite with_spaces_cons in * by discriminate.
      rewrite !join_empty_cons, !chars_app in Hskip.
      change (list_ascii_of_string " ") with [space] in Hskip. cbn [app] in Hskip.
      inversion Hr as [|? ? Hw2 _]; subst.
      destruct (@plain_word_chars _ Hw2) as [Hne2 Hchars2].
      assert (Hnext : exists c1 rest1,
                 list_ascii_of_string (join "" (with_spaces (w2 :: r2))) = c1 :: rest1
                 /\ _whitespace c1 = false).
      { destruct w2 as [|c1 w2']; [contradiction|].
        assert (E : with_spaces (String c1 w2' :: r2)
                    = String c1 w2' :: match r2 with
                                       | [] => []
                                       | _ :: _ => " " :: with_spaces r2
                                       end) by (destruct r2; reflexivity).
        rewrite E, join_empty_cons. cbn [String.append list_ascii_of_string].
        eexists. eexists. split; [reflexivity|].
        inversion Hchars2 as [|? ? [Hc _] _]; subst.
        now apply not_isspace_not_whitespace. }
      destruct Hnext as (c1 & rest1 & Enext & Hc1).
      destruct fuel as [|[|fuel]]; [cbn in Hfuel; lia | cbn in Hfuel; lia |].
      assert (Hlt : p < len m).
      { pose proof (f_equal (@List.length _) Hskip) as Hl.
        rewrite length_skipn, length_app in Hl. unfold len. cbn [List.length] in Hl. lia. }
      cbn [split_from]. destruct (Z.ltb_spec p (len m)); [|lia].
      rewrite (@wordsep_match_word m _ _ p Hp Hskip HL eq_refl HLne).
      rewrite Z.max_r by lia.
      rewrite (@substr_from _ _ _ _ Hp Hskip), string_of_list_ascii_of_string.
      f_equal.
      assert (Hskip1 : skipn (Z.to_nat (p + Z.of_nat (List.length (list_ascii_of_string w)))) m
                       = space :: list_ascii_of_string (join "" (with_spaces (w2 :: r2)))).
      { rewrite (@skipn_from _ _ _ Hp Hskip). rewrite skipn_app, skipn_all, Nat.sub_diag.
        reflexivity. }
      set (p1 := p + Z.of_nat (List.length (list_ascii_of_string w))) in *.
      assert (Hp1 : 0 <= p1) by lia.
      assert (Hlt1 : p1 < len m).
      { pose proof (f_equal (@List.length _) Hskip1) as Hl.
        rewrite length_skipn in Hl. unfold len. cbn [List.length] in Hl. lia. }
      destruct (Z.ltb_spec p1 (len m)); [|lia].
      assert (Hmatch : wordsep_match m p1 = 1).
      { unfold wordsep_match, is_at.
        replace p1 with (p1 + Z.of_nat 0) at 1 by lia.
        rewrite (@at_from _ _ _ Hp1 Hskip1). cbn [nth_error].
        change (_whitespace space) with true. cbn iota.
        rewrite (@run_at_from _whitespace _ _ _ Hp1 Hskip1), Enext. cbn [run].
        change (_whitespace space) with true. cbn iota. now rewrite Hc1. }
      rewrite Hmatch. change (Z.max 1 1) with 1.
      assert (Hsub : substr m p1 1 = " ").
      { change 1 with (Z.of_nat (List.length [space])).
        rewrite (@substr_from m [space] _ p1 Hp1 Hskip1). reflexivity. }
      rewrite Hsub. f_equal.
      apply IH; [lia | exact Hr | | cbn [List.length] in Hfuel; lia].
      change 1 with (Z.of_nat 1). rewrite (@skipn_from _ _ _ Hp1 Hskip1). reflexivity.
Qed.

(** *** The text of words and spaces *)

Lemma expandtabs_without_tabs (text : list ascii) :
  Forall (fun c => (code c =? 9)%N = false) text ->
  forall col, expandtabs_from 8 col text = text.
Proof.
  induction text as [|c text IH]; intros Hall col; [reflexivity|].
  inversion Hall as [|? ? Hc Hrest]; subst.
  cbn [expandtabs_from]. rewrite Hc.
  destruct ((code c =? 10) || (code c =? 13))%N; now rewrite IH.
Qed.

Lemma space_or_not_isspace (c : ascii) :
  c = space \/ isspace c = false ->
  (code c =? 9)%N = false /\ (if _whitespace c then space else c) = c.
Proof.
  intros [->|H]; [split; reflexivity|].
  destruct (textwrap_chunks.not_isspace _ H) as (H9 & _ & Hw). now rewrite Hw.
Qed.

Lemma munge_identity (text : string) :
  Forall (fun c => c = space \/ isspace c = false) (list_ascii_of_string text) ->
  _munge_whitespace text = list_ascii_of_string text.
Proof.
  intros Hall. unfold _munge_whitespace.
  rewrite expandtabs_without_tabs.
  - induction (list_ascii_of_string text) as [|c l IH]; [reflexivity|].
    inversion Hall as [|? ? Hc Hrest]; subst. cbn [map].
    destruct (space_or_not_isspace Hc) as [_ ->]. now rewrite IH.
  - eapply Forall_impl; [|exact Hall]. intros c Hc.
    now destruct (space_or_not_isspace Hc).
Qed.

Lemma chars_of_words (words : list string) :
  Forall (fun w => plain_word w = true) words ->
  Forall (fun c => c = space \/ isspace c = false)
         (list_ascii_of_string (join "" (with_spaces words))).
Proof.
  induction words as [|w r IH]; intros Hall; [constructor|].
  inversion Hall as [|? ? Hw Hr]; subst.
  destruct (@plain_word_chars _ Hw) as [_ Hchars].
  assert (Hword : Forall (fun c => c = space \/ isspace c = false)
                         (list_ascii_of_string w)).
  { eapply Forall_impl; [|exact Hchars]. intros c [Hc _]. now right. }
  destruct r as [|w2 r2].
  - cbn [with_spaces]. rewrite join_empty_cons, chars_app. apply Forall_app.
    split; [exact Hword | constructor].
  - rewrite with_spaces_cons by discriminate.
    rewrite !join_empty_cons, !chars_app. apply Forall_app. split; [exact Hword|].
    apply Forall_app. split; [repeat constructor; now left | now apply IH].
Qed.

Lemma length_with_spaces (words : list string) :
  Forall (fun w => plain_word w = true) words ->
  (List.length (with_spaces words)
   <= List.length (list_ascii_of_string (join "" (with_spaces words))))%nat.
Proof.
  induction words as [|w r IH]; intros Hall; [cbn; lia|].
  inversion Hall as [|? ? Hw Hr]; subst. specialize (IH Hr).
  destruct (@plain_word_chars _ Hw) as [Hne _].
  assert (Hlen : (1 <= List.length (list_ascii_of_string w))%nat).
  { destruct w; [contradiction | cbn; lia]. }
  destruct r as [|w2 r2].
  - cbn [with_spaces]. rewrite join_empty_cons, chars_app, length_app.
    cbn [List.length]. lia.
  - rewrite with_spaces_cons by discriminate.
    rewrite !join_empty_cons, !chars_app, !length_app.
    change (List.length (list_ascii_of_string " ")) with 1%nat.
    cbn [List.length] in *. lia.
Qed.

(** The chunks of words joined with one space are the words and the
    spaces. *)
Lemma _split_chunks_words (words : list string) :
  Forall (fun w => plain_word w = true) words ->
  _split_chunks (join " " words) = with_spaces words.
Proof.
  intros Hall. unfold _split_chunks, _split.
  rewrite <- join_with_spaces.
  rewrite munge_identity by now apply chars_of_words.
  apply split_from_with_spaces; [lia | exact Hall | reflexivity|].
  now apply length_with_spaces.
Qed.

Lemma plain_word_short (width : Z) (w : string) :
  plain_word w = true -> strlen w <= width -> short_word width w.
Proof.
  intros Hw Hlen. split; [|exact Hlen].
  destruct (@plain_word_chars _ Hw) as [Hne Hchars].
  destruct w as [|c w]; [contradiction|].
  inversion Hchars as [|? ? [Hc _] _]; subst.
  unfold blank. cbn [str_forallb]. now rewrite Hc.
Qed.

(** Words that fit a line, joined with one space: the lines of [wrap],
    joined with one space again, are the text. *)
Lemma wrap_keeps_the_words (words : list string) (width : Z) (lines : list string) :
  Forall (fun w => plain_word w = true) words ->
  Forall (fun w => strlen w <= width) words ->
  wrap (join " " words) width = ret lines ->
  join " " lines = join " " words.
Proof.
  intros Hplain Hshort H. unfold wrap in H. rewrite _split_chunks_words in H by exact Hplain.
  apply _wrap_chunks_with_spaces in H; [exact H|].
  rewrite Forall_forall in *. intros w Hin.
  apply plain_word_short; [now apply Hplain | now apply Hshort].
Qed.

End textwrap_words.

(** A text of at most 2000 characters is its own first 2000 characters. *)
Lemma str_slice_to_all (n : nat) (s : string) :
  (String.length s <= n)%nat -> str_slice_to n s = s.
Proof.
  unfold str_slice_to. revert s. induction n as [|n IH]; intros s H.
  - destruct s; [reflexivity | cbn in H; lia].
  - destruct s as [|c s]; [reflexivity|]. cbn [substring]. f_equal. apply IH.
    cbn [String.length] in H. lia.
Qed.

(** X23. When a size fits, [auto_scale_text] keeps every word, in order: for a
    text of at most 2000 characters made of words without white space or
    hyphen, one space between two words, none of them longer than the
    character budget of the size returned, the lines returned, joined
    with one space again, are the text.  Only the places of the line
    breaks are chosen by the fitter. *)
Theorem auto_scale_text_keeps_the_words
    (stringWidth : string -> string -> Q -> Q)
    (line_limit : Q -> Z)
    (words : list string) (max_width max_height s : Q) (c : string) :
  Forall (fun w => plain_word w = true) words ->
  (String.length (join " " words) <= 2000)%nat ->
  (forall budget,
      chars_per_line stringWidth max_width s = ret budget ->
      Forall (fun w => (Z.of_nat (String.length w) <= budget)%Z) words) ->
  auto_scale_search stringWidth (join " " words) max_width max_height = ret (inl (s, c)) ->
  auto_scale_text stringWidth line_limit (join " " words) max_width max_height = ret (s, c)
  /\ exists lines,
      c = join "<br/>" lines /\ join " " lines = join " " words.
Proof.
  intros Hplain Hlen Hshort Hsearch. split.
  - unfold auto_scale_text. now rewrite Hsearch.
  - rewrite auto_scale_search_over in Hsearch.
    apply auto_scale_over_returned in Hsearch.
    destruct Hsearch as (_ & _ & wrapped & _ & _ & Hw & _ & ->).
    exists wrapped. split; [reflexivity|].
    unfold wrapped_at in Hw.
    destruct (chars_per_line stringWidth max_width s) as [e|budget] eqn:Hb;
      [discriminate|].
    cbn [bind] in Hw. rewrite str_slice_to_all in Hw by exact Hlen.
    exact (textwrap_words.wrap_keeps_the_words Hplain (Hshort budget eq_refl) Hw).
Qed.

Lemma auto_scale_text_keeps_the_words_witness :
  Forall (fun w => plain_word w = true) pangram_words
  /\ (String.length (join " " pangram_words) <= 2000)%nat
  /\ (forall budget,
         chars_per_line pdfmetrics.stringWidth 60 7 = ret budget ->
         Forall (fun w => (Z.of_nat (String.length w) <= budget)%Z) pangram_words)
  /\ auto_scale_search pdfmetrics.stringWidth (join " " pangram_words) 60 30
     = ret (inl (7, "the quick brown<br/>fox jumps over<br/>the lazy dog"))
  /\ auto_scale_text pdfmetrics.stringWidth exact_line_limit (join " " pangram_words) 60 30
     = ret (7, "the quick brown<br/>fox jumps over<br/>the lazy dog")
  /\ exists lines,
      "the quick brown<br/>fox jumps over<br/>the lazy dog" = join "<br/>" lines
      /\ join " " lines = join " " pangram_words.
Proof.
  assert (H1 : Forall (fun w => plain_word w = true) pangram_words)
    by (repeat constructor).
  assert (H2 : (String.length (join " " pangram_words) <= 2000)%nat)
    by (apply Nat.leb_le; reflexivity).
  assert (H3 : forall budget,
             chars_per_line pdfmetrics.stringWidth 60 7 = ret budget ->
             Forall (fun w => (Z.of_nat (String.length w) <= budget)%Z) pangram_words).
  { intros budget Hc. vm_compute in Hc. injection Hc as <-.
    repeat constructor; discriminate. }
  assert (H4 : auto_scale_search pdfmetrics.stringWidth (join " " pangram_words) 60 30
               = ret (inl (7, "the quick brown<br/>fox jumps over<br/>the lazy dog")))
    by reflexivity.
  repeat (split; [assumption|]).
  exact (@auto_scale_text_keeps_the_words pdfmetrics.stringWidth exact_line_limit pangram_words
           60 30 7 _ H1 H2 H3 H4).
Defined.
